(** * ipasim: the dynamic loader and the guest/host call translator

    A shallow embedding of [src/IpaSimulator/DynamicLoader.cpp] and of the
    caller classes declared in [include/ipasim/SysTranslator.hpp].

    Conventions.
    - [uint32_t], [uint64_t] and [size_t] values are [Z] with the wrap-around
      written out ([wrap32], [wrap64]); the host is a 32-bit Windows process
      (the sources reinterpret pointers as [uint32_t]), so [size_t] has 32 bits.
    - Everything that is not code of the repository (the OS, the C++ standard
      library, LIEF, the Unicorn engine, host functions reached through
      function pointers) is either modelled after its documented behaviour or
      gathered in the record [Host], over which the theorems quantify.
    - The library index [LIs] owns its records through [unique_ptr]; records
      live in a store indexed by [LibPtr], and a null pointer is [None]. *)

From Stdlib Require Import ZArith Lia String Ascii List Bool DecimalString HexString.
From stdpp Require Import gmap strings list fin_maps.

Local Open Scope Z_scope.
Local Open Scope string_scope.

(** ** Machine integers *)

Definition wrap32 (z : Z) : Z := z mod 2 ^ 32.
Definition wrap64 (z : Z) : Z := z mod 2 ^ 64.

(** ** Paths

    [std::filesystem::path] on the Windows host: both slashes separate
    components, the preferred separator is the backslash. *)

Module FsPath.

Definition is_slash (c : ascii) : bool :=
  Ascii.eqb c "/" || Ascii.eqb c "\".

(** [path::make_preferred]: every [/] becomes the preferred separator. *)
Fixpoint make_preferred (s : string) : string :=
  match s with
  | EmptyString => EmptyString
  | String c r =>
      String (if Ascii.eqb c "/" then "\"%char else c) (make_preferred r)
  end.

Definition is_drive_letter (c : ascii) : bool :=
  let n := nat_of_ascii c in
  (Nat.leb 65 n && Nat.leb n 90) || (Nat.leb 97 n && Nat.leb n 122).

Definition has_drive_letter_prefix (s : string) : bool :=
  match s with
  | String c0 (String c1 _) => is_drive_letter c0 && Ascii.eqb c1 ":"
  | _ => false
  end.

(** Index of the first slash of [s], or its length. *)
Fixpoint find_slash (s : string) : nat :=
  match s with
  | EmptyString => O
  | String c r => if is_slash c then O else S (find_slash r)
  end.

(** End of the root name: [X:], [\\server], [\\?], [\\.] or [\??]. *)
Definition find_root_name_end (s : string) : nat :=
  match s with
  | String c0 (String c1 r2) =>
      if has_drive_letter_prefix s then 2%nat
      else if negb (is_slash c0) then O
      else
        match r2 with
        | String c2 r3 =>
            let device :=
              match r3 with
              | String c3 r4 =>
                  is_slash c3
                  && match r4 with
                     | EmptyString => true
                     | String c4 _ => negb (is_slash c4)
                     end
                  && ((is_slash c1 && (Ascii.eqb c2 "?" || Ascii.eqb c2 "."))
                      || (Ascii.eqb c1 "?" && Ascii.eqb c2 "?"))
              | EmptyString => false
              end in
            if device then 3%nat
            else if is_slash c1 && negb (is_slash c2)
                 then (3 + find_slash r3)%nat
                 else O
        | EmptyString => O
        end
  | _ => O
  end.

(** [path::is_absolute]: a drive letter needs a root directory as well, any
    other root name is absolute on its own. *)
Definition is_absolute (s : string) : bool :=
  if has_drive_letter_prefix s then
    match s with
    | String _ (String _ (String c2 _)) => is_slash c2
    | _ => false
    end
  else negb (Nat.eqb (find_root_name_end s) O).

Definition is_relative (s : string) : bool := negb (is_absolute s).

(** Start of the file name: after the last slash behind the root name. *)
Fixpoint after_last_slash (s : string) : string :=
  match s with
  | EmptyString => EmptyString
  | String c r =>
      if Nat.eqb (find_slash s) (String.length s) then s
      else after_last_slash r
  end.

Fixpoint drop (n : nat) (s : string) : string :=
  match n, s with
  | O, _ => s
  | S n, String _ r => drop n r
  | S _, EmptyString => EmptyString
  end.

(** [path::filename]. *)
Definition filename (s : string) : string :=
  after_last_slash (drop (find_root_name_end s) s).

(** Length of the stem of a file name: up to its last dot, unless that dot is
    the first character or the name is [..]. *)
Fixpoint last_dot (s : string) : option nat :=
  match s with
  | EmptyString => None
  | String c r =>
      match last_dot r with
      | Some i => Some (S i)
      | None => if Ascii.eqb c "." then Some O else None
      end
  end.

Definition stem_length (f : string) : nat :=
  if String.eqb f ".." then 2%nat
  else match last_dot f with
       | Some (S i) => S i
       | _ => String.length f
       end.

(** [path::replace_extension]; [ext] starts with a dot. The extension that
    is replaced is that of the file name of the path, behind its root name. *)
Definition replace_extension (p ext : string) : string :=
  let f := filename p in
  String.substring 0 (String.length p - String.length f + stem_length f) p ++ ext.

(** [path::root_name]. *)
Definition root_name (s : string) : string :=
  String.substring 0 (find_root_name_end s) s.

(** [operator/]: the right operand replaces the left one when it is absolute
    or has a root name that is not the root name of the left one. Otherwise
    a root directory of the right operand replaces all of the left one but
    its root name, and without one the preferred separator is added when the
    left operand has a file name, or is a root name that is absolute without
    a root directory; the right operand follows without its root name. *)
Definition append (l r : string) : string :=
  let rroot := find_root_name_end r in
  if is_absolute r then r
  else if negb (Nat.eqb rroot O) && negb (String.eqb (root_name l) (root_name r))
  then r
  else
    let rrest := drop rroot r in
    let separated :=
      if Nat.eqb (find_root_name_end l) (String.length l)
      then if Nat.leb 3 (find_root_name_end l) then l ++ "\" else l
      else match String.get (String.length l - 1) l with
           | Some c => if is_slash c then l else l ++ "\"
           | None => l
           end in
    match rrest with
    | String c _ => if is_slash c then root_name l ++ rrest else separated ++ rrest
    | EmptyString => separated
    end.

End FsPath.

Record BinaryPath := mkBinaryPath { Path : string; Relative : bool }.

(** [DynamicLoader::resolvePath]. *)
Definition resolvePath (P : string) : BinaryPath :=
  match P with
  | String c _ =>
      if Ascii.eqb c "/"
      then mkBinaryPath (FsPath.make_preferred ("gen" ++ P)) true
      else mkBinaryPath P (FsPath.is_relative P)
  | EmptyString => mkBinaryPath P (FsPath.is_relative P)
  end.

(** Modelled from the spec: [startsWith] and [endsWith] of
    [ipasim/Common.hpp], which is not among the sources; the prefix and the
    suffix test behind the pattern [gen/*.wrapper.dll]. *)
Fixpoint startsWith (s p : string) : bool :=
  match p, s with
  | EmptyString, _ => true
  | String a p, String b s => Ascii.eqb b a && startsWith s p
  | String _ _, EmptyString => false
  end.

Definition endsWith (s p : string) : bool :=
  Nat.leb (String.length p) (String.length s)
  && String.eqb (String.substring (String.length s - String.length p)
                                  (String.length p) s) p.

(** ** Outcomes of possibly faulting, fuel-bounded computations *)

Inductive res (A : Type) : Type :=
| Ok (a : A)
| Fault        (* the C++ code has undefined behaviour or throws *)
| NoFuel.      (* the fuel of the model ran out *)
Arguments Ok {A} a.
Arguments Fault {A}.
Arguments NoFuel {A}.

Definition res_bind {A B : Type} (r : res A) (k : A -> res B) : res B :=
  match r with
  | Ok a => k a
  | Fault => Fault
  | NoFuel => NoFuel
  end.

Global Instance res_mbind : MBind res := fun A B k r => res_bind r k.
Global Instance res_mret : MRet res := fun A a => Ok a.

(** ** TypeDecoder

    The decoder walks a NUL-terminated string through the pointer [T].
    [At s] points at the first character of the suffix [s] (at the terminator
    when [s] is empty); [PastEnd] is the pointer one past the terminator,
    which may be formed but not read. *)

Module TypeDecoder.

Inductive cursor : Type :=
| At (s : string)
| PastEnd.

Definition NUL : ascii := "000"%char.

(** [*T] *)
Definition deref (T : cursor) : res ascii :=
  match T with
  | At (String c _) => Ok c
  | At EmptyString => Ok NUL
  | PastEnd => Fault
  end.

(** [++T] *)
Definition incr (T : cursor) : res cursor :=
  match T with
  | At (String _ r) => Ok (At r)
  | At EmptyString => Ok PastEnd
  | PastEnd => Fault
  end.

(** A decoder: the cursor and the messages it has sent to [Dyld.error]. *)
Record t := mk { T : cursor; errors : list string }.

Definition init (s : string) : t := mk (At s) [].

Definition error (msg : string) (d : t) : t := mk (T d) (errors d ++ [msg]).

Definition InvalidSize : Z := 2 ^ 32 - 1.

Definition hasNext (d : t) : res bool :=
  c ← deref (T d); Ok (negb (Ascii.eqb c NUL)).

Definition is_digit (c : ascii) : bool :=
  Nat.leb 48 (nat_of_ascii c) && Nat.leb (nat_of_ascii c) 57.

(** [for (++T; *T != '='; ++T) if (!*T) ...], entered after the first [++T]:
    the suffix where the loop stops, and whether it stopped on the [=]. *)
Fixpoint skipName (s : string) : bool * string :=
  match s with
  | EmptyString => (false, s)
  | String c r =>
      if Ascii.eqb c "=" then (true, s)
      else if Ascii.eqb c NUL then (false, s)
      else skipName r
  end.

(** [for (++T; '0' <= *T && *T <= '9'; ++T);], entered after the first [++T]. *)
Fixpoint skipDigits (s : string) : string :=
  match s with
  | String c r => if is_digit c then skipDigits r else s
  | EmptyString => s
  end.

Definition is_word_tag (c : ascii) : bool :=
  Ascii.eqb c "c" || Ascii.eqb c "@" || Ascii.eqb c ":" || Ascii.eqb c "i"
  || Ascii.eqb c "I" || Ascii.eqb c "f".

(** [getNextTypeSizeImpl], the loop over the fields of a struct inside it,
    and [getNextTypeSize]; every call and every loop iteration takes one unit
    of fuel. *)
Fixpoint getNextTypeSizeImpl (fuel : nat) (d : t) : res (Z * t) :=
  match fuel with
  | O => NoFuel
  | S fuel =>
      c ← deref (T d);
      if Ascii.eqb c "v" then Ok (0, d)
      else if is_word_tag c then Ok (4, d)
      else if Ascii.eqb c "^" then
        T1 ← incr (T d);
        '(_, d1) ← getNextTypeSizeImpl fuel (mk T1 (errors d));
        Ok (4, d1)
      else if Ascii.eqb c "{" then
        T1 ← incr (T d);
        match T1 with
        | PastEnd => Fault
        | At s1 =>
            match skipName s1 with
            | (false, s2) =>
                Ok (InvalidSize,
                    error "struct type ended unexpectedly" (mk (At s2) (errors d)))
            | (true, s2) =>
                T3 ← incr (At s2);
                structFields fuel 0 (mk T3 (errors d))
            end
        end
      else Ok (InvalidSize, error "unsupported type encoding" d)
  end

with structFields (fuel : nat) (TotalSize : Z) (d : t) : res (Z * t) :=
  match fuel with
  | O => NoFuel
  | S fuel =>
      c ← deref (T d);
      if Ascii.eqb c "}" then Ok (TotalSize, d)
      else
        '(Size, d1) ← getNextTypeSize fuel d;
        if Z.eqb Size InvalidSize then Ok (InvalidSize, d1)
        else structFields fuel (wrap32 (TotalSize + Size)) d1
  end

with getNextTypeSize (fuel : nat) (d : t) : res (Z * t) :=
  match fuel with
  | O => NoFuel
  | S fuel =>
      '(Result, d1) ← getNextTypeSizeImpl fuel d;
      (* Skip digits. *)
      T1 ← incr (T d1);
      match T1 with
      | At s => Ok (Result, mk (At (skipDigits s)) (errors d1))
      | PastEnd => Fault   (* the loop reads [*T] past the terminator *)
      end
  end.

(** [while (hasNext()) sizes.push_back(getNextTypeSize());] *)
Fixpoint allSizes (fuel : nat) (d : t) : res (list Z * t) :=
  match fuel with
  | O => NoFuel
  | S fuel =>
      more ← hasNext d;
      if (more : bool) then
        '(Size, d1) ← getNextTypeSize fuel d;
        '(rest, d2) ← allSizes fuel d1;
        Ok (Size :: rest, d2)
      else Ok ([], d)
  end.

(** Three units of fuel for every character of [s] and its terminator, which
    is enough for every string. *)
Definition fuelFor (s : string) : nat := (3 * String.length s + 3)%nat.

Definition sizesOf (s : string) : res (list Z) :=
  '(l, _) ← allSizes (fuelFor s) (init s); Ok l.

Definition sum32 (l : list Z) : Z := fold_left (fun a b => wrap32 (a + b)) l 0.

End TypeDecoder.

(** ** Mach-O binaries, as LIEF presents them to the loader *)

Module MachO.

Inductive CPU_TYPES : Type :=
| CPU_TYPE_ANY | CPU_TYPE_X86 | CPU_TYPE_X86_64 | CPU_TYPE_ARM | CPU_TYPE_ARM64.

Inductive FILE_TYPES : Type :=
| MH_OBJECT | MH_EXECUTE | MH_CORE | MH_DYLIB | MH_DYLINKER | MH_BUNDLE
| MH_DSYM | MH_KEXT_BUNDLE.

Inductive RELOCATION_ORIGINS : Type :=
| ORIGIN_UNKNOWN | ORIGIN_DYLDINFO | ORIGIN_RELOC_TABLE.

Inductive BINDING_CLASS : Type :=
| BIND_CLASS_WEAK | BIND_CLASS_LAZY | BIND_CLASS_STANDARD | BIND_CLASS_THREADED.

Inductive BIND_TYPES : Type :=
| BIND_TYPE_POINTER | BIND_TYPE_TEXT_ABSOLUTE32 | BIND_TYPE_TEXT_PCREL32.

Definition cpu_eqb (a b : CPU_TYPES) : bool :=
  match a, b with
  | CPU_TYPE_ANY, CPU_TYPE_ANY | CPU_TYPE_X86, CPU_TYPE_X86
  | CPU_TYPE_X86_64, CPU_TYPE_X86_64 | CPU_TYPE_ARM, CPU_TYPE_ARM
  | CPU_TYPE_ARM64, CPU_TYPE_ARM64 => true
  | _, _ => false
  end.

(** Header flags and protection bits (values of [mach-o/loader.h]). *)
Definition MH_SPLIT_SEGS : Z := 0x20.
Definition MH_PIE : Z := 0x200000.
Definition VM_PROT_READ : Z := 1.
Definition VM_PROT_WRITE : Z := 2.
Definition VM_PROT_EXECUTE : Z := 4.
Definition R_SCATTERED : Z := 0x80000000.

Record Relocation := mkRelocation {
  is_pc_relative : bool;
  origin : RELOCATION_ORIGINS;
  r_size : Z;
  r_address : Z
}.

Record SegmentCommand := mkSegment {
  virtual_address : Z;
  virtual_size : Z;
  init_protection : Z;
  content : list Z;                 (* bytes *)
  relocations : list Relocation
}.

Record BindingInfo := mkBinding {
  binding_class : BINDING_CLASS;
  binding_type : BIND_TYPES;
  addend : Z;
  has_library : bool;
  library_name : string;            (* [library().name()] *)
  symbol_name : string;             (* [symbol().name()] *)
  b_address : Z
}.

Record Binary := mkBinary {
  cpu_type : CPU_TYPES;
  file_type : FILE_TYPES;
  flags : Z;
  segments : list SegmentCommand;
  libraries : list string;          (* names of the [DylibCommand]s *)
  bindings : list BindingInfo;      (* [dyld_info().bindings()] *)
  entrypoint : Z
}.

(** [Header::has] *)
Definition has (b : Binary) (flag : Z) : bool :=
  negb (Z.eqb (Z.land (flags b) flag) 0).

Definition is_pie (b : Binary) : bool := has b MH_PIE.

End MachO.

(** What a path names on disk: [LIEF::MachO::is_macho], [LIEF::PE::is_pe],
    and the binary [Parser::parse] selects. *)
Inductive File : Type :=
| MachOFile (Bin : MachO.Binary)
| PEFile
| OtherFile.

(** ** Library records

    Modelled from the spec: the classes [LoadedLibrary], [LoadedDylib] and
    [LoadedDll] of [ipasim/LoadedLibrary.hpp], which is not among the
    sources, with the fields the loader reads and writes. *)

Abbreviation LibPtr := nat (only parsing).

Inductive LibKind : Type :=
| LoadedDylib (Bin : MachO.Binary)
| LoadedDll (Ptr : Z) (MachOPoser : bool).

Record LoadedLibrary := mkLib {
  StartAddress : Z;
  Size : Z;
  IsWrapperDLL : bool;
  kind : LibKind
}.

(** Records as [make_unique] leaves them: the loader assigns the address
    range later, and until then it reads as zero. *)
Definition newDylib (Bin : MachO.Binary) : LoadedLibrary :=
  mkLib 0 0 false (LoadedDylib Bin).
Definition newDll : LoadedLibrary := mkLib 0 0 false (LoadedDll 0 false).

Definition isDylib (L : LoadedLibrary) : bool :=
  match kind L with LoadedDylib _ => true | LoadedDll _ _ => false end.

(** Modelled from the spec: [LoadedLibrary::isInRange] (its definition is not
    among the sources); a library contains the guest addresses of
    [[StartAddress, StartAddress+Size)]. *)
Definition isInRange (L : LoadedLibrary) (Addr : Z) : bool :=
  Z.leb (StartAddress L) Addr && Z.ltb Addr (wrap64 (StartAddress L + Size L)).

(** Modelled from the spec: [WrapperIndex] of [ipasim/WrapperIndex.hpp],
    which is not among the sources; a map from RVA to an index into
    [Dylibs], and the ordered sequence of the paths of the dylibs. *)
Record WrapperIndex := mkWrapperIndex {
  Map : gmap Z nat;
  Dylibs : list string
}.

(** ** The Unicorn engine: registers and memory *)

(** Register identifiers and protection bits (values of [unicorn/arm.h] and
    [unicorn/unicorn.h]). *)
Definition UC_ARM_REG_LR : Z := 10.
Definition UC_ARM_REG_PC : Z := 11.
Definition UC_ARM_REG_SP : Z := 12.
Definition UC_ARM_REG_R0 : Z := 66.
Definition UC_ARM_REG_R1 : Z := 67.
Definition UC_ARM_REG_R2 : Z := 68.
Definition UC_ARM_REG_R3 : Z := 69.

Definition UC_PROT_NONE : Z := 0.
Definition UC_PROT_READ : Z := 1.
Definition UC_PROT_WRITE : Z := 2.
Definition UC_PROT_EXEC : Z := 4.

(** Memory is a map from addresses to bytes; guest addresses are host
    pointers (the images are mapped with [uc_mem_map_ptr] onto themselves). *)
Definition Mem : Type := Z -> Z.

Definition read32 (m : Mem) (a : Z) : Z :=
  m a mod 256 + 2 ^ 8 * (m (a + 1) mod 256) + 2 ^ 16 * (m (a + 2) mod 256)
  + 2 ^ 24 * (m (a + 3) mod 256).

Definition write32 (m : Mem) (a v : Z) : Mem :=
  fun x =>
    if Z.eqb x a then v mod 256
    else if Z.eqb x (a + 1) then (v / 2 ^ 8) mod 256
    else if Z.eqb x (a + 2) then (v / 2 ^ 16) mod 256
    else if Z.eqb x (a + 3) then (v / 2 ^ 24) mod 256
    else m x.

(** [memcpy(a, bytes.data(), bytes.size())] *)
Definition memcpy (m : Mem) (a : Z) (bytes : list Z) : Mem :=
  fun x =>
    if Z.leb a x && Z.ltb x (a + Z.of_nat (length bytes))
    then nth (Z.to_nat (x - a)) bytes 0
    else m x.

(** [memset(a, 0, n)] *)
Definition memzero (m : Mem) (a n : Z) : Mem :=
  fun x => if Z.leb a x && Z.ltb x (a + n) then 0 else m x.

Definition setReg (regs : Z -> Z) (r v : Z) : Z -> Z :=
  fun x => if Z.eqb x r then v else regs x.

(** ** DynamicCaller and the deferred continuations *)

Record DynamicCaller := mkDC { RegId : Z; Args : list Z }.

(** The two closures the fetch hook hands to [continueOutsideEmulation]. *)
Inductive Thunk : Type :=
| CallDynamic (DC : DynamicCaller) (Returns : bool) (Addr : Z)
| CallWrapper (Addr : Z) (R0 : Z).

(** ** The state of the loader, the translator and the engine *)

Record World := mkWorld {
  LIs : gmap string LibPtr;            (* path -> record *)
  store : gmap LibPtr LoadedLibrary;   (* the records the index owns *)
  fresh : LibPtr;                      (* next record to allocate *)
  regs : Z -> Z;                       (* guest registers, by register id *)
  mem : Mem;
  mapped : list (Z * Z * Z);           (* [uc_mem_map_ptr] calls that succeeded *)
  allocs : nat;                        (* [_aligned_malloc] calls so far *)
  out : list string;                   (* [OutputDebugString] *)
  stopRequested : bool;                (* [uc_emu_stop] *)
  KernelAddr : Z;
  LRs : list Z;                        (* stack of return addresses, top first *)
  Running : bool;
  Restart : bool;
  Continue : bool;
  Continuation : option Thunk
}.

Definition setLIs (f : gmap string LibPtr -> gmap string LibPtr) (w : World) : World :=
  mkWorld (f (LIs w)) (store w) (fresh w) (regs w) (mem w) (mapped w) (allocs w)
    (out w) (stopRequested w) (KernelAddr w) (LRs w) (Running w) (Restart w)
    (Continue w) (Continuation w).

Definition setStore (f : gmap LibPtr LoadedLibrary -> gmap LibPtr LoadedLibrary)
    (w : World) : World :=
  mkWorld (LIs w) (f (store w)) (fresh w) (regs w) (mem w) (mapped w) (allocs w)
    (out w) (stopRequested w) (KernelAddr w) (LRs w) (Running w) (Restart w)
    (Continue w) (Continuation w).

Definition setFresh (n : LibPtr) (w : World) : World :=
  mkWorld (LIs w) (store w) n (regs w) (mem w) (mapped w) (allocs w)
    (out w) (stopRequested w) (KernelAddr w) (LRs w) (Running w) (Restart w)
    (Continue w) (Continuation w).

Definition setRegs (f : (Z -> Z) -> Z -> Z) (w : World) : World :=
  mkWorld (LIs w) (store w) (fresh w) (f (regs w)) (mem w) (mapped w) (allocs w)
    (out w) (stopRequested w) (KernelAddr w) (LRs w) (Running w) (Restart w)
    (Continue w) (Continuation w).

Definition setMem (f : Mem -> Mem) (w : World) : World :=
  mkWorld (LIs w) (store w) (fresh w) (regs w) (f (mem w)) (mapped w) (allocs w)
    (out w) (stopRequested w) (KernelAddr w) (LRs w) (Running w) (Restart w)
    (Continue w) (Continuation w).

Definition setMapped (f : list (Z * Z * Z) -> list (Z * Z * Z)) (w : World) : World :=
  mkWorld (LIs w) (store w) (fresh w) (regs w) (mem w) (f (mapped w)) (allocs w)
    (out w) (stopRequested w) (KernelAddr w) (LRs w) (Running w) (Restart w)
    (Continue w) (Continuation w).

Definition setAllocs (n : nat) (w : World) : World :=
  mkWorld (LIs w) (store w) (fresh w) (regs w) (mem w) (mapped w) n
    (out w) (stopRequested w) (KernelAddr w) (LRs w) (Running w) (Restart w)
    (Continue w) (Continuation w).

Definition setOut (f : list string -> list string) (w : World) : World :=
  mkWorld (LIs w) (store w) (fresh w) (regs w) (mem w) (mapped w) (allocs w)
    (f (out w)) (stopRequested w) (KernelAddr w) (LRs w) (Running w) (Restart w)
    (Continue w) (Continuation w).

Definition setLRs (l : list Z) (w : World) : World :=
  mkWorld (LIs w) (store w) (fresh w) (regs w) (mem w) (mapped w) (allocs w)
    (out w) (stopRequested w) (KernelAddr w) l (Running w) (Restart w)
    (Continue w) (Continuation w).

(** The translator's flags, together with the engine's stop request. *)
Definition setFlags (stop running restart cont : bool) (k : option Thunk)
    (w : World) : World :=
  mkWorld (LIs w) (store w) (fresh w) (regs w) (mem w) (mapped w) (allocs w)
    (out w) stop (KernelAddr w) (LRs w) running restart cont k.

(** ** The host

    What the sources reach outside the repository, and the parts of the
    repository whose definitions are not among the sources
    ([LoadedLibrary::findSymbol], [getMethodType], [checkInRange], the page
    size and [to_hex_string] of [ipasim/Common.hpp]). *)

Record Host := mkHost {
  PageSize : Z;
  to_hex_string : Z -> string;
  (* [BinaryPath::isFileValid], answered by the package or the file system *)
  isFileValid : BinaryPath -> bool;
  (* the files LIEF can open, by path *)
  files : gmap string File;
  (* [_aligned_malloc]: number of earlier calls, size, alignment *)
  aligned_malloc : nat -> Z -> Z -> Z;
  (* [uc_mem_map_ptr] succeeds: earlier mappings, address, size, permissions *)
  uc_mem_map_ptr : list (Z * Z * Z) -> Z -> Z -> Z -> bool;
  (* [LoadPackagedLibrary]: the module handle, 0 on failure *)
  LoadPackagedLibrary : string -> Z;
  (* [GetModuleInformation]: [lpBaseOfDll] and [SizeOfImage] *)
  GetModuleInformation : Z -> option (Z * Z);
  (* the text [hresult_error] produces for [GetLastError] *)
  lastErrorMessage : string;
  (* [LoadedLibrary::findSymbol]: the address of a symbol, 0 when missing *)
  findSymbol : LoadedLibrary -> string -> Z;
  (* [LoadedLibrary::getMethodType]: the method type registered for an address *)
  getMethodType : LoadedLibrary -> Z -> option string;
  (* [LoadedLibrary::checkInRange] returns (it has no result to report) *)
  checkInRange : LoadedLibrary -> Z -> bool;
  (* the [WrapperIndex] object found at an address *)
  wrapperIndexAt : Z -> WrapperIndex;
  (* calling the host function at an address with 32-bit arguments: the
     value it returns and the state it leaves *)
  hostCall : Z -> list Z -> World -> Z * World;
  (* [uc_emu_start]: one run of the engine, hooks included, until it stops *)
  uc_emu_start : Z -> World -> World
}.

Definition nl : string := String "010"%char EmptyString.

Section DynamicLoader.

Context (H : Host).

(** Modelled from the spec: [alignToPageSize] and [roundToPageSize] of
    [ipasim/Common.hpp], which is not among the sources; they align an address
    down, and round a size up, to the page size. *)
Definition alignToPageSize (a : Z) : Z := a - a mod PageSize H.
Definition roundToPageSize (a : Z) : Z :=
  alignToPageSize (wrap64 (a + PageSize H - 1)).

(** [OutputDebugStringA], one call per string. *)
Definition debug (l : list string) (w : World) : World :=
  setOut (fun o => (o ++ l)%list) w.

(** [DynamicLoader::error]: reports a non-fatal error. *)
Definition error (Msg : string) (AppendLastError : bool) (w : World) : World :=
  debug ["Error occurred: " ++ Msg ++ "."
         ++ (if AppendLastError then nl ++ lastErrorMessage H else "") ++ nl] w.

(** [DynamicLoader::mapMemory] *)
Definition mapMemory (Addr Sz Perms : Z) (w : World) : World :=
  if uc_mem_map_ptr H (mapped w) Addr (wrap32 Sz) Perms
  then setMapped (fun l => (l ++ [(Addr, wrap32 Sz, Perms)])%list) w
  else error ("couldn't map memory at 0x" ++ to_hex_string H Addr
              ++ " of size 0x" ++ to_hex_string H Sz) false w.

(** [DynamicLoader::canSegmentsSlide] *)
Definition canSegmentsSlide (Bin : MachO.Binary) : bool :=
  match MachO.file_type Bin with
  | MachO.MH_DYLIB | MachO.MH_BUNDLE => true
  | MachO.MH_EXECUTE => MachO.is_pie Bin
  | _ => false
  end.

(** [DynamicLoader::lookup]: the first record of the index, in its iteration
    order, that contains the address. *)
Definition lookup (Addr : Z) (w : World) : option (string * LibPtr) :=
  List.find
    (fun LI : string * LibPtr =>
       match store w !! LI.2 with
       | Some LL => isInRange LL Addr
       | None => false
       end)
    (map_to_list (LIs w)).

Definition inspect (Addr : Z) (w : World) : option (string * LibPtr) :=
  lookup Addr w.

(** [dumpAddr(Addr, AI)] and [dumpAddr(Addr)] *)
Definition dumpAddrIn (Addr : Z) (AI : option (string * LibPtr)) (w : World)
  : World :=
  match AI with
  | Some (LibPath, Lib) =>
      let base := match store w !! Lib with Some LL => StartAddress LL | None => 0 end in
      debug [LibPath; "+0x"; to_hex_string H (wrap64 (Addr - base))] w
  | None => debug ["0x"; to_hex_string H Addr] w
  end.

Definition dumpAddr (Addr : Z) (w : World) : World :=
  if Z.eqb Addr (KernelAddr w)
  then debug ["kernel!0x"; to_hex_string H Addr] w
  else dumpAddrIn Addr (lookup Addr w) w.

(** *** The library index *)

(** [LIs[Path] = move(LL)]: a record replaced in the index is destroyed. *)
Definition assignLI (Path : string) (LL : LoadedLibrary) (w : World)
  : LibPtr * World :=
  let LLP := fresh w in
  let w1 :=
    match LIs w !! Path with
    | Some old => setStore (delete old) w
    | None => w
    end in
  (LLP, setFresh (S LLP) (setStore (insert LLP LL) (setLIs (insert Path LLP) w1))).

(** [LIs.erase(Path)] *)
Definition eraseLI (Path : string) (w : World) : World :=
  match LIs w !! Path with
  | Some old => setLIs (delete Path) (setStore (delete old) w)
  | None => w
  end.

(** Assignment to the fields of the record behind a pointer. *)
Definition updLib (LLP : LibPtr) (f : LoadedLibrary -> LoadedLibrary) (w : World)
  : World :=
  setStore (fun s => match s !! LLP with
                     | Some LL => <[LLP := f LL]> s
                     | None => s
                     end) w.

Definition withRange (start sz : Z) (LL : LoadedLibrary) : LoadedLibrary :=
  mkLib start sz (IsWrapperDLL LL) (kind LL).
Definition withWrapper (b : bool) (LL : LoadedLibrary) : LoadedLibrary :=
  mkLib (StartAddress LL) (Size LL) b (kind LL).
Definition withPtr (p : Z) (LL : LoadedLibrary) : LoadedLibrary :=
  match kind LL with
  | LoadedDll _ poser => mkLib (StartAddress LL) (Size LL) (IsWrapperDLL LL) (LoadedDll p poser)
  | LoadedDylib _ => LL
  end.
Definition withPoser (b : bool) (LL : LoadedLibrary) : LoadedLibrary :=
  match kind LL with
  | LoadedDll p _ => mkLib (StartAddress LL) (Size LL) (IsWrapperDLL LL) (LoadedDll p b)
  | LoadedDylib _ => LL
  end.

(** *** loadPE *)

Definition loadPE (Path : string) (w : World) : option LibPtr * World :=
  (* Mark the library as found. *)
  let '(LLP, w) := assignLI Path newDll w in
  (* Load it into memory. *)
  let Lib := LoadPackagedLibrary H Path in
  if Z.eqb Lib 0 then
    (None, eraseLI Path (error ("couldn't load DLL: " ++ Path) true w))
  else
    let w := updLib LLP (withPtr Lib) w in
    (* Find out where it lies in memory. *)
    match GetModuleInformation H Lib with
    | None => (None, error "couldn't load module information" true w)
    | Some (lpBaseOfDll, SizeOfImage) =>
        let Hdr :=
          match store w !! LLP with
          | Some LL => findSymbol H LL "_mh_dylib_header"
          | None => 0
          end in
        let w :=
          if negb (Z.eqb Hdr 0)
          then updLib LLP (fun LL => withPoser true
                 (withRange Hdr (wrap64 (SizeOfImage - (Hdr - lpBaseOfDll))) LL)) w
          else updLib LLP (fun LL => withPoser false
                 (withRange lpBaseOfDll SizeOfImage LL)) w in
        (* Load the library into Unicorn engine. *)
        let '(start, sz) :=
          match store w !! LLP with
          | Some LL => (StartAddress LL, Size LL)
          | None => (0, 0)
          end in
        (Some LLP,
         mapMemory (alignToPageSize start) (roundToPageSize sz)
                   (Z.lor UC_PROT_READ UC_PROT_WRITE) w)
    end.

(** *** loadMachO *)

(** One iteration of the loop that computes the address range of the image. *)
Definition segmentRange (acc : Z * Z * World) (Seg : MachO.SegmentCommand)
  : Z * Z * World :=
  let '(LowAddr, HighAddr, w) := acc in
  let SegLow := MachO.virtual_address Seg in
  (* Round to page size. *)
  let SegHigh := roundToPageSize (wrap64 (SegLow + MachO.virtual_size Seg)) in
  let w :=
    if (Z.ltb SegLow HighAddr && Z.leb LowAddr SegLow)
       || (Z.ltb LowAddr SegHigh && Z.leb SegHigh HighAddr)
    then error "overlapping segments (after rounding to pagesize)" false w
    else w in
  (if Z.ltb SegLow LowAddr then SegLow else LowAddr,
   if Z.ltb HighAddr SegHigh then SegHigh else HighAddr,
   w).

(** Convert protection. *)
Definition convertProtection (VMProt : Z) : Z :=
  let bit (vm uc : Z) := if Z.eqb (Z.land VMProt vm) 0 then 0 else uc in
  Z.lor (Z.lor (bit MachO.VM_PROT_READ UC_PROT_READ)
               (bit MachO.VM_PROT_WRITE UC_PROT_WRITE))
        (bit MachO.VM_PROT_EXECUTE UC_PROT_EXEC).

Definition unsupportedRelocation (Rel : MachO.Relocation) : bool :=
  MachO.is_pc_relative Rel
  || negb (match MachO.origin Rel with MachO.ORIGIN_DYLDINFO => true | _ => false end)
  || negb (Z.eqb (MachO.r_size Rel) 32)
  || negb (Z.eqb (Z.land (MachO.r_address Rel) MachO.R_SCATTERED) 0).

(** The body of the loop over the relocations of a segment. *)
Definition relocate (LowAddr Slide VAddr VSize : Z) (w : World)
    (Rel : MachO.Relocation) : World :=
  let w := if unsupportedRelocation Rel
           then error "unsupported relocation" false w else w in
  (* Find base address for this relocation. *)
  let RelBase := wrap64 (LowAddr + Slide) in
  let RelAddr := wrap64 (RelBase + MachO.r_address Rel) in
  let w := if Z.ltb (wrap64 (VAddr + VSize)) RelAddr || Z.ltb RelAddr VAddr
           then error "relocation target out of range" false w else w in
  let Val := wrap32 RelAddr in
  (* We actively leave NULL pointers untouched. *)
  if negb (Z.eqb (read32 (mem w) Val) 0)
  then setMem (fun m => write32 m Val (wrap32 (read32 m Val + Slide))) w
  else w.

(** The body of the loop that loads the segments. *)
Definition loadSegment (LowAddr Slide : Z) (w : World)
    (Seg : MachO.SegmentCommand) : World :=
  let Perms := convertProtection (wrap32 (MachO.init_protection Seg)) in
  let VAddr := wrap64 (MachO.virtual_address Seg + Slide) in
  (* Emulated virtual address is actually equal to the "real" virtual address. *)
  let Mem := wrap32 VAddr in
  let VSize := MachO.virtual_size Seg in
  let w :=
    if Z.eqb Perms UC_PROT_NONE then
      (* No protection means we don't have to copy any data, we just map it. *)
      mapMemory VAddr VSize Perms w
    else
      let Buff := MachO.content Seg in
      let w := setMem (fun m => memcpy m Mem Buff) w in
      let w := mapMemory VAddr VSize Perms w in
      (* Clear the remaining memory. *)
      if Z.ltb (Z.of_nat (length Buff)) VSize
      then setMem (fun m => memzero m (Mem + Z.of_nat (length Buff))
                                    (wrap32 (VSize - Z.of_nat (length Buff)))) w
      else w in
  (* Relocate addresses. *)
  if Z.ltb 0 Slide
  then fold_left (relocate LowAddr Slide VAddr VSize) (MachO.relocations Seg) w
  else w.

Definition unsupportedBinding (BInfo : MachO.BindingInfo) : bool :=
  negb (match MachO.binding_class BInfo with
        | MachO.BIND_CLASS_STANDARD | MachO.BIND_CLASS_LAZY => true
        | _ => false
        end)
  || negb (match MachO.binding_type BInfo with
           | MachO.BIND_TYPE_POINTER => true
           | _ => false
           end)
  || negb (Z.eqb (MachO.addend BInfo) 0).

Section WithLoad.

(** [loadMachO] and [load] call each other; [loadMachO] is written over the
    [load] it calls. *)
Variable load : string -> World -> res (option LibPtr * World).

(** Load referenced libraries. *)
Fixpoint loadLibraries (Libs : list string) (w : World) : res World :=
  match Libs with
  | [] => Ok w
  | name :: Libs =>
      '(_, w) ← load name w;
      loadLibraries Libs w
  end.

(** The body of the loop that binds external symbols. *)
Definition bindSymbol (LLP : LibPtr) (Slide : Z) (BInfo : MachO.BindingInfo)
    (w : World) : res World :=
  (* Check binding's kind. *)
  if unsupportedBinding BInfo then Ok (error "unsupported binding info" false w)
  else if negb (MachO.has_library BInfo)
  then Ok (error "flat-namespace symbols are not supported yet" false w)
  else
    (* Find symbol's library. *)
    let LibName := MachO.library_name BInfo in
    '(Lib, w) ← load LibName w;
    match Lib with
    | None => Ok (error "symbol's library couldn't be loaded" false w)
    | Some Lib =>
        (* Find symbol's address. *)
        let SymName := MachO.symbol_name BInfo in
        match store w !! Lib, store w !! LLP with
        | Some LibRec, Some LL =>
            let SymAddr := findSymbol H LibRec SymName in
            if Z.eqb SymAddr 0 then
              Ok (error ("external symbol " ++ SymName ++ " from library "
                         ++ LibName ++ " couldn't be resolved") false w)
            else
              (* Bind it. *)
              let TargetAddr := wrap64 (MachO.b_address BInfo + Slide) in
              if checkInRange H LL TargetAddr
              then Ok (setMem (fun m => write32 m (wrap32 TargetAddr)
                                                (wrap32 SymAddr)) w)
              else Fault
        | _, _ => Fault
        end
    end.

Fixpoint bindSymbols (LLP : LibPtr) (Slide : Z)
    (Bindings : list MachO.BindingInfo) (w : World) : res World :=
  match Bindings with
  | [] => Ok w
  | BInfo :: Bindings =>
      w ← bindSymbol LLP Slide BInfo w;
      bindSymbols LLP Slide Bindings w
  end.

Definition loadMachO_with (Path : string) (w : World) : res (LibPtr * World) :=
  match files H !! Path with
  | Some (MachOFile Bin) =>
      let '(LLP, w) := assignLI Path (newDylib Bin) w in
      (* Check header. *)
      let w := if negb (MachO.cpu_eqb (MachO.cpu_type Bin) MachO.CPU_TYPE_ARM)
               then error "expected ARM binary" false w else w in
      let w := if MachO.has Bin MachO.MH_SPLIT_SEGS
               then error "MH_SPLIT_SEGS not supported" false w else w in
      let w := if negb (canSegmentsSlide Bin)
               then error "the binary is not slideable" false w else w in
      (* Compute total size of all segments. *)
      let '(LowAddr, HighAddr, w) :=
        fold_left segmentRange (MachO.segments Bin) (2 ^ 64 - 1, 0, w) in
      (* Allocate space for the segments. *)
      let Sz := wrap64 (HighAddr - LowAddr) in
      let Addr := aligned_malloc H (allocs w) (wrap32 Sz) (PageSize H) in
      let w := setAllocs (S (allocs w)) w in
      let w := if Z.eqb Addr 0
               then error "couldn't allocate memory for segments" false w else w in
      let Slide := wrap64 (Addr - LowAddr) in
      let w := updLib LLP (withRange Slide Sz) w in
      (* Load segments. *)
      let w := fold_left (loadSegment LowAddr Slide) (MachO.segments Bin) w in
      (* Load referenced libraries. *)
      w ← loadLibraries (MachO.libraries Bin) w;
      (* Bind external symbols. *)
      w ← bindSymbols LLP Slide (MachO.bindings Bin) w;
      Ok (LLP, w)
  | _ => Fault    (* [Parser::parse] has no binary to give *)
  end.

End WithLoad.

(** *** load *)

Definition isWrapperPath (BP : BinaryPath) : bool :=
  Relative BP && startsWith (Path BP) "gen\" && endsWith (Path BP) ".wrapper.dll".

Fixpoint load (fuel : nat) (P : string) (w : World)
  : res (option LibPtr * World) :=
  match fuel with
  | O => NoFuel
  | S fuel =>
      let BP := resolvePath P in
      match LIs w !! Path BP with
      | Some It => Ok (Some It, w)
      | None =>
          (* Check that file exists. *)
          if negb (isFileValid H BP)
          then Ok (None, error ("invalid file: " ++ Path BP) false w)
          else
            let w := debug ["Info: loading library "; Path BP; "..." ++ nl] w in
            let loaded : option (res (option LibPtr * World)) :=
              match files H !! Path BP with
              | Some (MachOFile _) =>
                  Some ('(LLP, w) ← loadMachO_with (load fuel) (Path BP) w;
                        Ok (Some LLP, w))
              | Some PEFile => Some (Ok (loadPE (Path BP) w))
              | _ => None
              end in
            match loaded with
            | None => Ok (None, error ("invalid binary type: " ++ Path BP) false w)
            | Some r =>
                '(L, w) ← r;
                (* Recognize wrapper DLLs. *)
                match L with
                | Some LLP => Ok (L, updLib LLP (withWrapper (isWrapperPath BP)) w)
                | None => Ok (L, w)
                end
            end
      end
  end.

Definition loadMachO (fuel : nat) : string -> World -> res (LibPtr * World) :=
  loadMachO_with (load fuel).

(** *** Entering and leaving emulation *)

(** [uc_reg_read] and [uc_reg_write] on 32-bit registers. *)
Definition readReg (r : Z) (w : World) : Z := wrap32 (regs w r).
Definition writeReg (r v : Z) (w : World) : World :=
  setRegs (fun f => setReg f r (wrap32 v)) w.

(** [DynamicLoader::returnToKernel]; [top] of an empty stack is a fault. *)
Definition returnToKernel (w : World) : res World :=
  match LRs w with
  | [] => Fault
  | LR :: rest =>
      (* Restore LR. *)
      let w := writeReg UC_ARM_REG_LR LR (setLRs rest w) in
      (* Stop execution. *)
      Ok (setFlags true false (Restart w) (Continue w) (Continuation w) w)
  end.

(** [DynamicLoader::returnToEmulation] *)
Definition returnToEmulation (w : World) : res World :=
  let LR := readReg UC_ARM_REG_LR w in
  let w := debug ["." ++ nl] (dumpAddr LR (debug ["Info: returning to "] w)) in
  if Running w then Fault    (* assert(!Running) *)
  else Ok (setFlags (stopRequested w) (Running w) true (Continue w)
                    (Continuation w) w).

(** [DynamicLoader::continueOutsideEmulation] *)
Definition continueOutsideEmulation (Cont : Thunk) (w : World) : res World :=
  if Continue w then Fault   (* assert(!Continue) *)
  else Ok (setFlags true false (Restart w) true (Some Cont) w).

(** The part of [execute(Addr)] before the emulation loop. *)
Definition executeEntry (Addr : Z) (w : World) : World :=
  let w := debug ["." ++ nl] (dumpAddr Addr (debug ["Info: starting emulation at "] w)) in
  (* Save LR. *)
  let LR := readReg UC_ARM_REG_LR w in
  let w := setLRs (LR :: LRs w) w in
  (* Point return address to kernel. *)
  let RetAddr := wrap32 (KernelAddr w) in
  writeReg UC_ARM_REG_LR RetAddr w.

(** *** DynamicCaller *)

(** [DynamicCaller::loadArg]: [for (size_t I = 0; I != Size; I += 4)]. *)
Fixpoint loadArgFrom (fuel : nat) (I Sz : Z) (DC : DynamicCaller) (w : World)
  : res DynamicCaller :=
  if Z.eqb I Sz then Ok DC
  else
    match fuel with
    | O => NoFuel
    | S fuel =>
        let DC :=
          if Z.leb (RegId DC) UC_ARM_REG_R3 then
            (* We have some registers left, use them. *)
            mkDC (RegId DC + 1) (Args DC ++ [readReg (RegId DC) w])
          else
            (* Otherwise, use stack. *)
            let SP := readReg UC_ARM_REG_SP w in
            let SP := wrap32 (SP + wrap32 ((Z.of_nat (length (Args DC)) - 4) * 4)) in
            mkDC (RegId DC) (Args DC ++ [read32 (mem w) SP]) in
        loadArgFrom fuel (wrap32 (I + 4)) Sz DC w
    end.

Definition loadArg (fuel : nat) (Sz : Z) (DC : DynamicCaller) (w : World)
  : res DynamicCaller :=
  loadArgFrom fuel 0 Sz DC w.

Definition newDynamicCaller : DynamicCaller := mkDC UC_ARM_REG_R0 [].

(** [call3]: the host function is called with the parameters; its result
    goes to [R0] when the call returns a value. *)
Definition call3 (Returns : bool) (Addr : Z) (Params : list Z) (w : World)
  : World :=
  let '(RetVal, w) := hostCall H Addr Params w in
  if Returns then writeReg UC_ARM_REG_R0 RetVal w else w.

(** [call2<N>]: appends [Args[Args.size() - N]] and recurses on [N - 1]. *)
Fixpoint call2 (N : nat) (Returns : bool) (Addr : Z) (DC : DynamicCaller)
    (Params : list Z) (w : World) : res World :=
  match N with
  | S N' =>
      match Args DC !! (length (Args DC) - N)%nat with
      | Some a => call2 N' Returns Addr DC (Params ++ [a]) w
      | None => Fault
      end
  | O => Ok (call3 Returns Addr Params w)
  end.

Definition call1 (N : nat) (Returns : bool) (Addr : Z) (DC : DynamicCaller)
    (w : World) : res World :=
  call2 N Returns Addr DC [] w.

Definition call0 (N : nat) (Returns : bool) (Addr : Z) (DC : DynamicCaller)
    (w : World) : res World :=
  if Returns then call1 N true Addr DC w else call1 N false Addr DC w.

(** [DynamicCaller::call] *)
Definition call (DC : DynamicCaller) (Returns : bool) (Addr : Z) (w : World)
  : res (bool * World) :=
  let CASE (N : nat) := w ← call0 N Returns Addr DC w; Ok (true, w) in
  match length (Args DC) with
  | 0%nat => CASE 0%nat
  | 1%nat => CASE 1%nat
  | 2%nat => CASE 2%nat
  | 3%nat => CASE 3%nat
  | 4%nat => CASE 4%nat
  | 5%nat => CASE 5%nat
  | 6%nat => CASE 6%nat
  | _ => Ok (false, error "function has too many arguments" false w)
  end.

(** *** The continuation and the emulation loop *)

(** [Continuation()], for the two closures of the fetch hook. *)
Definition runContinuation (k : Thunk) (w : World) : res World :=
  match k with
  | CallDynamic DC Returns Addr =>
      (* Call the function. *)
      '(ok, w) ← call DC Returns (wrap32 Addr) w;
      if (ok : bool) then returnToEmulation w else Ok w
  | CallWrapper Addr R0 =>
      (* Call the target function. *)
      let '(_, w) := hostCall H (wrap32 Addr) [R0] w in
      returnToEmulation w
  end.

(** The loop of [execute(Addr)]. *)
Fixpoint executeLoop (fuel : nat) (Addr : Z) (w : World) : res World :=
  match fuel with
  | O => NoFuel
  | S fuel =>
      let w := setFlags (stopRequested w) true (Restart w) (Continue w)
                        (Continuation w) w in
      let w := uc_emu_start H Addr w in
      if Running w then Fault  (* assert(!Running) *)
      else
        w ← (if Continue w then
               let w' := setFlags (stopRequested w) (Running w) (Restart w)
                                  false (Continuation w) w in
               match Continuation w with
               | Some k => runContinuation k w'
               | None => Fault
               end
             else Ok w);
        if Restart w then
          (* If restarting, continue where we left off. *)
          let w := setFlags (stopRequested w) (Running w) false (Continue w)
                            (Continuation w) w in
          executeLoop fuel (readReg UC_ARM_REG_LR w) w
        else Ok w
  end.

(** [DynamicLoader::execute(uint64_t)] *)
Definition execute (fuel : nat) (Addr : Z) (w : World) : res World :=
  executeLoop fuel Addr (executeEntry Addr w).

(** *** The fetch-protection hook *)

(** [std::to_string] of an unsigned value. *)
Definition to_string (z : Z) : string :=
  NilZero.string_of_uint (N.to_uint (Z.to_N z)).

(** [gen / filename(LibPath).replace_extension(".wrapper.dll")] *)
Definition wrapperPathOf (LibPath : string) : string :=
  FsPath.append "gen"
    (FsPath.replace_extension (FsPath.filename LibPath) ".wrapper.dll").

(** One [TD.getNextTypeSize()]; what the decoder reports goes to [error]. *)
Definition decodeNext (fuel : nat) (TD : TypeDecoder.t) (w : World)
  : res (Z * TypeDecoder.t * World) :=
  '(Sz, TD1) ← TypeDecoder.getNextTypeSize fuel
                 (TypeDecoder.mk (TypeDecoder.T TD) []);
  Ok (Sz, TypeDecoder.mk (TypeDecoder.T TD1) [],
      fold_left (fun w msg => error msg false w) (TypeDecoder.errors TD1) w).

(** Process function arguments: [None] when a size is invalid. *)
Fixpoint loadArgs (fuel : nat) (TD : TypeDecoder.t) (DC : DynamicCaller)
    (w : World) : res (option DynamicCaller * World) :=
  match fuel with
  | O => NoFuel
  | S fuel' =>
      more ← TypeDecoder.hasNext TD;
      if (more : bool) then
        '(Sz, TD, w) ← decodeNext fuel TD w;
        if Z.eqb Sz TypeDecoder.InvalidSize then Ok (None, w)
        else
          DC ← loadArg fuel Sz DC w;
          loadArgs fuel' TD DC w
      else Ok (Some DC, w)
  end.

(** The end of the hook, from [// Log details.] on. *)
Definition dispatch (Addr : Z) (AI : option (string * LibPtr)) (Wrapper : bool)
    (w : World) : res (bool * World) :=
  let w := dumpAddrIn Addr AI (debug ["Info: fetch prot. mem. at "] w) in
  let w := if negb Wrapper then debug [" (not a wrapper)"] w else w in
  let w := debug ["." ++ nl] w in
  (* If the target is not a wrapper, we simply jump to it. *)
  if negb Wrapper then Ok (true, writeReg UC_ARM_REG_PC Addr w)
  else
    (* Read register R0 containing address of our structure. *)
    let R0 := readReg UC_ARM_REG_R0 w in
    w ← continueOutsideEmulation (CallWrapper Addr R0) w;
    Ok (true, w).

(** The branch of the hook for a method without wrapper but with a type. *)
Definition handleDynamically (fuel : nat) (Addr : Z) (T : string) (w : World)
  : res (bool * World) :=
  let w := debug ["Info: dynamically handling method of type "; T; "." ++ nl] w in
  (* Handle return value. *)
  '(Sz, TD, w) ← decodeNext fuel (TypeDecoder.init T) w;
  let finish (Returns : bool) : res (bool * World) :=
    (* Process function arguments. *)
    '(DC, w) ← loadArgs fuel TD newDynamicCaller w;
    match DC with
    | None => Ok (false, w)
    | Some DC =>
        w ← continueOutsideEmulation (CallDynamic DC Returns Addr) w;
        Ok (true, w)
    end in
  if Z.eqb Sz 0 then finish false
  else if Z.eqb Sz 4 then finish true
  else Ok (false, error "unsupported return type" false w).

(** [DynamicLoader::handleFetchProtMem] *)
Definition handleFetchProtMem (fuel : nat) (Addr : Z) (w : World)
  : res (bool * World) :=
  (* Check that the target address is in some loaded library. *)
  match lookup Addr w with
  | None =>
      (* Handle return to kernel. *)
      if Z.eqb Addr (KernelAddr w) then
        w ← returnToKernel
              (debug ["Info: executing kernel at 0x"; to_hex_string H Addr;
                      " (as protected)." ++ nl] w);
        Ok (true, w)
      else Ok (false, error "unmapped address fetched" false w)
  | Some (LibPath, Lib) =>
      match store w !! Lib with
      | None => Fault
      | Some LibRec =>
          (* If the target is not a wrapper DLL, we must find and call the
             corresponding wrapper instead. *)
          let Wrapper := IsWrapperDLL LibRec in
          if Wrapper then dispatch Addr (Some (LibPath, Lib)) Wrapper w
          else
            let WrapperPath := wrapperPathOf LibPath in
            '(WrapperLib, w) ← load fuel WrapperPath w;
            match WrapperLib with
            | None => Ok (false, w)
            | Some WrapperLib =>
                match store w !! WrapperLib, store w !! Lib with
                | Some WrapperRec, Some LibRec =>
                    (* Load [WrapperIndex]. *)
                    let IdxAddr := findSymbol H WrapperRec "?Idx@@3UWrapperIndex@@A" in
                    let Idx := wrapperIndexAt H IdxAddr in
                    let RVA := wrap64 (Addr - StartAddress LibRec + 0x1000) in
                    (* Find Dylib with the corresponding wrapper. *)
                    match Map Idx !! RVA with
                    | None =>
                        match getMethodType H LibRec Addr with
                        | Some T => handleDynamically fuel Addr T w
                        | None =>
                            Ok (false,
                                error ("cannot find RVA 0x" ++ to_hex_string H RVA
                                       ++ " in WrapperIndex of " ++ WrapperPath)
                                      false w)
                        end
                    | Some Entry =>
                        match Dylibs Idx !! Entry with
                        | None => Fault
                        | Some Dylib =>
                            '(WrapperDylib, w) ← load fuel Dylib w;
                            match WrapperDylib with
                            | None => Ok (false, w)
                            | Some WrapperDylib =>
                                match store w !! WrapperDylib with
                                | None => Fault
                                | Some DylibRec =>
                                    (* Find the correct wrapper using its alias. *)
                                    let Addr :=
                                      findSymbol H DylibRec
                                        ("$__ipaSim_wraps_" ++ to_string RVA) in
                                    if Z.eqb Addr 0 then
                                      Ok (false,
                                          error ("cannot find wrapper for 0x"
                                                 ++ to_hex_string H RVA ++ " in "
                                                 ++ LibPath) false w)
                                    else
                                      match lookup Addr w with
                                      | None => Fault   (* assert(AI.Lib) *)
                                      | Some AI => dispatch Addr (Some AI) Wrapper w
                                      end
                                end
                            end
                        end
                    end
                | _, _ => Fault
                end
            end
      end
  end.

(** [DynamicLoader::handleCode] *)
Definition handleCode (fuel : nat) (Addr : Z) (w : World) : res World :=
  match inspect Addr w with
  | None =>
      (* Handle return to kernel. *)
      if Z.eqb Addr (KernelAddr w) then
        returnToKernel
          (debug ["Info: executing kernel at 0x"; to_hex_string H Addr; "." ++ nl] w)
      else Ok (error "unmapped address executed" false w)
  | Some (LibPath, _) =>
      '(L, w) ← load fuel LibPath w;
      let isDylibPtr :=
        match L with
        | Some LLP => match store w !! LLP with
                      | Some LL => isDylib LL
                      | None => false
                      end
        | None => false
        end in
      if negb isDylibPtr then
        '(_, w) ← handleFetchProtMem fuel Addr w;
        Ok w
      else Ok w
  end.

End DynamicLoader.

(** ** Callbacks, trampolines and the start of an application

    [translate], [handleTrampoline], [execute] on a library and
    [handleMemUnmapped] of [DynamicLoader.cpp], and the class
    [DynamicBackCaller] of [SysTranslator.hpp]. *)

(** The [Trampoline] of [DynamicLoader.cpp]; [CIF] holds what [ffi_prep_cif]
    was given, the number of arguments and whether a word is returned. *)
Module Trampoline.

Record t := mk {
  CIF : option (Z * bool);
  Returns : bool;
  ArgC : Z;
  Addr : Z
}.

End Trampoline.

(** The closures of libffi: the number of [ffi_closure_alloc] calls so far,
    the number of [Trampoline]s made by [new] (none is ever deleted), and the
    trampoline each closure was prepared with, by the address of its code. *)
Record Closures := mkClosures {
  allocated : nat;
  trampolines : nat;
  bound : gmap Z Trampoline.t
}.

(** libffi and the registration of hooks. *)
Record Ffi := mkFfi {
  (* [ffi_closure_alloc]: the closure and the address of its code, by the
     number of earlier calls; [None] when it returns null *)
  ffi_closure_alloc : nat -> option (Z * Z);
  (* [ffi_prep_cif] returns [FFI_OK]: number of arguments, word returned *)
  ffi_prep_cif : Z -> bool -> bool;
  (* [ffi_prep_closure_loc] returns [FFI_OK]: closure, address of its code *)
  ffi_prep_closure_loc : Z -> Z -> bool;
  (* [uc_hook_add] returns [UC_ERR_OK]: the type of the hook *)
  uc_hook_add : Z -> bool
}.

(** Hook types (values of [unicorn/unicorn.h]). *)
Definition UC_HOOK_CODE : Z := 4.
Definition UC_HOOK_MEM_READ_UNMAPPED : Z := 16.
Definition UC_HOOK_MEM_WRITE_UNMAPPED : Z := 32.
Definition UC_HOOK_MEM_FETCH_PROT : Z := 512.
Definition UC_HOOK_MEM_WRITE : Z := 2048.

(** A value of type [int]. *)
Definition int32 (z : Z) : Z := (z + 2 ^ 31) mod 2 ^ 32 - 2 ^ 31.

(** [std::to_string] of an [int]. *)
Definition to_string_int (z : Z) : string :=
  NilZero.string_of_int (Z.to_int z).

Section Callbacks.

Context (H : Host) (F : Ffi).

(** *** translate *)

(** Next, process function arguments: the number of arguments, [None] when
    the callback is refused. *)
Fixpoint callbackArgs (fuel : nat) (TD : TypeDecoder.t) (ArgC : Z) (w : World)
  : res (option Z * World) :=
  match fuel with
  | O => NoFuel
  | S fuel' =>
      more ← TypeDecoder.hasNext TD;
      if (more : bool) then
        '(Sz, TD, w) ← decodeNext H fuel TD w;
        if Z.eqb Sz TypeDecoder.InvalidSize then Ok (None, w)
        else if Z.eqb Sz 4 then
          if Z.ltb 3 ArgC
          then Ok (None, error H "callback has too many arguments" false w)
          else callbackArgs fuel' TD (ArgC + 1) w
        else Ok (None, error H "unsupported callback argument type" false w)
      else Ok (Some ArgC, w)
  end.

(** Now, create trampoline. *)
Definition createTrampoline (Returns : bool) (ArgC AddrVal : Z) (cs : Closures)
    (w : World) : Z * Closures * World :=
  let Closure := ffi_closure_alloc F (allocated cs) in
  let cs := mkClosures (S (allocated cs)) (trampolines cs) (bound cs) in
  match Closure with
  | None => (0, cs, error H "couldn't allocate closure" false w)
  | Some (Closure, Ptr) =>
      if negb (ffi_prep_cif F ArgC Returns)
      then (0, cs, error H "couldn't prepare CIF" false w)
      else if negb (ffi_prep_closure_loc F Closure Ptr)
      then (0, cs, error H "couldn't prepare closure" false w)
      else
        let Tr := Trampoline.mk (Some (ArgC, Returns)) Returns ArgC AddrVal in
        (Ptr, mkClosures (allocated cs) (trampolines cs) (<[Ptr := Tr]> (bound cs)), w)
  end.

(** [DynamicLoader::translate]: the pointer to call instead of [Addr], null
    being 0. *)
Definition translate (fuel : nat) (Addr : Z) (cs : Closures) (w : World)
  : res (Z * Closures * World) :=
  let AddrVal := Addr in
  match lookup AddrVal w with
  | None => Ok (Addr, cs, w)
  | Some (_, Lib) =>
      match store w !! Lib with
      | None => Fault
      | Some Dylib =>
          if negb (isDylib Dylib) then Ok (Addr, cs, w)
          else
            (* The address points to Dylib. *)
            match getMethodType H Dylib AddrVal with
            | None => Ok (0, cs, error H "callback not found" false w)
            | Some T =>
                let w := debug ["Info: dynamically handling callback of type ";
                                T; "." ++ nl] w in
                let cs := mkClosures (allocated cs) (S (trampolines cs)) (bound cs) in
                (* First, handle the return value. *)
                '(Sz, TD, w) ← decodeNext H fuel (TypeDecoder.init T) w;
                let finish (Returns : bool) : res (Z * Closures * World) :=
                  '(ArgC, w) ← callbackArgs fuel TD 0 w;
                  match ArgC with
                  | None => Ok (0, cs, w)
                  | Some ArgC => Ok (createTrampoline Returns ArgC AddrVal cs w)
                  end in
                if Z.eqb Sz 0 then finish false
                else if Z.eqb Sz 4 then finish true
                else Ok (0, cs, error H "unsupported return type of callback" false w)
            end
      end
  end.

(** *** handleTrampoline *)

(** Pass arguments: [Args] holds the words libffi points at; reading beyond
    them is a fault. *)
Fixpoint passArgs (n : nat) (RegId : Z) (I : nat) (Args : list Z) (w : World)
  : res World :=
  match n with
  | O => Ok w
  | S n =>
      match Args !! I with
      | Some I32 => passArgs n (RegId + 1) (S I) Args (writeReg RegId I32 w)
      | None => Fault
      end
  end.

(** [DynamicLoader::handleTrampoline]: the word written through [Ret], if
    any. *)
Definition handleTrampoline (fuel : nat) (Tr : Trampoline.t) (Args : list Z)
    (w : World) : res (option Z * World) :=
  let w := debug ["Info: handling trampoline (arguments: ";
                  to_string (Trampoline.ArgC Tr);
                  if Trampoline.Returns Tr then ", returns)." ++ nl
                  else ", void)." ++ nl] w in
  (* Pass arguments. *)
  w ← passArgs (Z.to_nat (Trampoline.ArgC Tr)) UC_ARM_REG_R0 0 Args w;
  (* Call the function. *)
  w ← execute H fuel (Trampoline.Addr Tr) w;
  (* Extract return value. *)
  if Trampoline.Returns Tr then Ok (Some (readReg UC_ARM_REG_R0 w), w)
  else Ok (None, w).

(** *** DynamicBackCaller *)

(** [pushArgs<RegId>(Args...)]: [None] when the [static_assert] rejects the
    instantiation. *)
Fixpoint pushArgs (RegId : Z) (Args : list Z) (w : World) : option World :=
  match Args with
  | [] => Some w
  | Arg :: Args =>
      if Z.leb UC_ARM_REG_R0 RegId && Z.leb RegId UC_ARM_REG_R3
      then pushArgs (RegId + 1) Args (writeReg RegId Arg w)
      else None
  end.

(** [DynamicBackCaller::callBack]; both branches are instantiated for every
    list of argument types, so the [static_assert] applies to every call. *)
Definition callBack (fuel : nat) (FP : Z) (Args : list Z) (w : World)
  : option (res World) :=
  match pushArgs UC_ARM_REG_R0 Args w with
  | None => None
  | Some pushed =>
      Some
        (let Addr := FP in
         let emulated : res bool :=
           match lookup Addr w with
           | None => Ok false
           | Some (_, Lib) =>
               match store w !! Lib with
               | Some LL => Ok (isDylib LL)
               | None => Fault
               end
           end in
         inDylib ← emulated;
         if negb inDylib then
           (* Target load method is not inside any emulated Dylib, so it must
              be native executable code and we can simply call it. *)
           Ok (hostCall H FP Args w).2
         else
           (* Target load method is inside some emulated library. *)
           execute H fuel Addr pushed)
  end.

(** [DynamicBackCaller::callBackR] *)
Definition callBackR (fuel : nat) (FP : Z) (Args : list Z) (w : World)
  : option (res (Z * World)) :=
  match callBack fuel FP Args w with
  | None => None
  | Some r =>
      Some (w ← r;
            (* Fetch return value. *)
            Ok (readReg UC_ARM_REG_R0 w, w))
  end.

(** *** Starting an application *)

(** [SysTranslator::call]: the function [Func] of the library [Lib] is
    called with [Params]; a library that cannot be loaded is dereferenced as
    null, a symbol that is missing is called as null. *)
Definition callSymbol (fuel : nat) (Lib Func : string) (Params : list Z)
    (w : World) : res World :=
  '(L, w) ← load H fuel Lib w;
  match L with
  | None => Fault
  | Some L =>
      match store w !! L with
      | None => Fault
      | Some LL =>
          let Addr := findSymbol H LL Func in
          if Z.eqb (wrap32 Addr) 0 then Fault
          else Ok (hostCall H (wrap32 Addr) Params w).2
      end
  end.

(** [DynamicLoader::execute] on a [LoadedLibrary] pointer; [Lib] is [None]
    for a null pointer. *)
Definition executeLibrary (fuel : nat) (Lib : option LibPtr) (w : World)
  : res World :=
  let Dylib : res (option (LibPtr * LoadedLibrary)) :=
    match Lib with
    | None => Ok None
    | Some p =>
        match store w !! p with
        | None => Fault
        | Some LL => Ok (if isDylib LL then Some (p, LL) else None)
        end
    end in
  Dylib ← Dylib;
  match Dylib with
  | None => Ok (error H "we can only execute Dylibs right now" false w)
  | Some (p, LL) =>
      (* Initialize the stack. *)
      let StackSize := 8 * 1024 * 1024 in
      let StackPtr := aligned_malloc H (allocs w) StackSize (PageSize H) in
      let w := setAllocs (S (allocs w)) w in
      let StackAddr := StackPtr in
      let w := mapMemory H StackAddr StackSize (Z.lor UC_PROT_READ UC_PROT_WRITE) w in
      (* Reserve 12 bytes on the stack. *)
      let StackTop := wrap32 (StackAddr + StackSize - 12) in
      let w := writeReg UC_ARM_REG_SP StackTop w in
      (* Install hooks. *)
      if negb (forallb (uc_hook_add F)
                 [UC_HOOK_MEM_FETCH_PROT; UC_HOOK_CODE; UC_HOOK_MEM_WRITE;
                  Z.lor UC_HOOK_MEM_READ_UNMAPPED UC_HOOK_MEM_WRITE_UNMAPPED])
      then Fault
      else
        (* Initialize the binary with our Objective-C runtime. *)
        let Hdr := findSymbol H LL "__mh_execute_header" in
        w ← callSymbol fuel "libdyld.dll" "_dyld_initialize" [wrap32 Hdr] w;
        w ← callSymbol fuel "libobjc.dll" "_objc_init" [] w;
        (* Start at entry point. *)
        match store w !! p with
        | Some Dylib =>
            match kind Dylib with
            | LoadedDylib Bin =>
                execute H fuel (wrap64 (MachO.entrypoint Bin + StartAddress Dylib)) w
            | LoadedDll _ _ => Fault
            end
        | None => Fault
        end
  end.

(** *** Accesses to unmapped memory *)

(** [DynamicLoader::handleMemUnmapped]; [Size] is an [int]. *)
Definition handleMemUnmapped (Addr Size : Z) (w : World) : bool * World :=
  let w := debug ["Info: unmapped memory manipulation at "] w in
  let w := dumpAddr H Addr w in
  let w := debug [" ("; to_string_int Size; ")." ++ nl] w in
  (* Map the memory, so that emulation can continue. *)
  let Addr := alignToPageSize H Addr in
  let Size := int32 (roundToPageSize H (wrap64 Size)) in
  (true, mapMemory H Addr (wrap64 Size) (Z.lor UC_PROT_READ UC_PROT_WRITE) w).

End Callbacks.

(** * A host to run the loader on *)

Module Demo.

Definition hexDigits (z : Z) : string :=
  match z with
  | Zpos p => HexString.Raw.of_pos p ""
  | _ => "0"
  end.

Definition textSegment (vaddr : Z) (bytes : list Z)
    (rels : list MachO.Relocation) : MachO.SegmentCommand :=
  MachO.mkSegment vaddr 0x1000 3 bytes rels.

Definition dylib (cpu : MachO.CPU_TYPES) (segs : list MachO.SegmentCommand)
    (libs : list string) (binds : list MachO.BindingInfo) : MachO.Binary :=
  MachO.mkBinary cpu MachO.MH_DYLIB 0 segs libs binds 0.

(** [a.dylib] and [b.dylib] refer to each other; [a.dylib] binds [_f] of
    [b.dylib] at offset 8. *)
Definition binA : MachO.Binary :=
  dylib MachO.CPU_TYPE_ARM [textSegment 0 [1; 2; 3; 4] []] ["b.dylib"]
    [MachO.mkBinding MachO.BIND_CLASS_STANDARD MachO.BIND_TYPE_POINTER 0 true
       "b.dylib" "_f" 8].
Definition binB : MachO.Binary :=
  dylib MachO.CPU_TYPE_ARM [textSegment 0 [] []] ["a.dylib"] [].

(** An image for another processor. *)
Definition binX86 : MachO.Binary :=
  dylib MachO.CPU_TYPE_X86 [textSegment 0 [] []] [] [].

(** The segment at 0, second in the file, carries a relocation at offset
    0x1004, beyond its end: the target is the second word of the other
    segment, which holds 1. *)
Definition binReloc : MachO.Binary :=
  dylib MachO.CPU_TYPE_ARM
    [textSegment 0x1000 [0; 0; 0; 0; 1; 0; 0; 0] [];
     textSegment 0 []
       [MachO.mkRelocation false MachO.ORIGIN_DYLDINFO 32 0x1004]]
    [] [].

(** The dylib with the wrappers of [Foundation.dll]. *)
Definition wrappersPath : string :=
  "/System/Library/Frameworks/Foundation.framework/Foundation".
Definition binWrappers : MachO.Binary :=
  dylib MachO.CPU_TYPE_ARM [textSegment 0 [] []] [] [].

Definition host : Host := {|
  PageSize := 4096;
  to_hex_string := hexDigits;
  isFileValid := fun BP => negb (String.eqb (Path BP) "missing.dll");
  files :=
    {[ "a.dylib" := MachOFile binA;
       "b.dylib" := MachOFile binB;
       "x86.dylib" := MachOFile binX86;
       "reloc.dylib" := MachOFile binReloc;
       Path (resolvePath wrappersPath) := MachOFile binWrappers;
       "Foundation.dll" := PEFile;
       "gen\Foundation.wrapper.dll" := PEFile;
       "locked.dll" := PEFile;
       "opaque.dll" := PEFile ]};
  aligned_malloc := fun n _ _ => 0x20000000 + Z.of_nat n * 0x100000;
  uc_mem_map_ptr := fun _ _ _ _ => true;
  LoadPackagedLibrary := fun path =>
    if String.eqb path "Foundation.dll" then 0x10000000
    else if String.eqb path "gen\Foundation.wrapper.dll" then 0x11000000
    else if String.eqb path "opaque.dll" then 0x12000000
    else 0;
  GetModuleInformation := fun h =>
    if Z.eqb h 0x12000000 then None else Some (h, 0x10000);
  lastErrorMessage := "The specified module could not be found.";
  findSymbol := fun LL name =>
    match kind LL with
    | LoadedDll h _ =>
        if Z.eqb h 0x11000000 && String.eqb name "?Idx@@3UWrapperIndex@@A"
        then 0x11004000 else 0
    | LoadedDylib _ =>
        if String.eqb name "$__ipaSim_wraps_12288" then StartAddress LL + 0x100
        else if String.eqb name "_f" then StartAddress LL + 0x10
        else 0
    end;
  getMethodType := fun _ _ => None;
  checkInRange := isInRange;
  wrapperIndexAt := fun a =>
    if Z.eqb a 0x11004000
    then mkWrapperIndex {[ 12288 := 0%nat ]} [wrappersPath]
    else mkWrapperIndex ∅ [];
  hostCall := fun _ _ w => (0, w);
  uc_emu_start := fun _ w => w
|}.

(** The state a constructed [DynamicLoader] starts from, with the guest's
    registers R0..R3 holding 10..13, SP at 0x7000 and LR at 0x4242. *)
Definition start : World := {|
  LIs := ∅; store := ∅; fresh := 0%nat;
  regs := fun r =>
    if Z.eqb r UC_ARM_REG_R0 then 10 else if Z.eqb r UC_ARM_REG_R1 then 11
    else if Z.eqb r UC_ARM_REG_R2 then 12 else if Z.eqb r UC_ARM_REG_R3 then 13
    else if Z.eqb r UC_ARM_REG_SP then 0x7000
    else if Z.eqb r UC_ARM_REG_LR then 0x4242 else 0;
  mem := fun a => if Z.eqb a 0x7000 then 20 else if Z.eqb a 0x7004 then 21 else 0;
  mapped := [(0x30000000, 4096, UC_PROT_NONE)];
  allocs := 1%nat;
  out := [];
  stopRequested := false;
  KernelAddr := 0x30000000;
  LRs := [];
  Running := false; Restart := false; Continue := false; Continuation := None
|}.

(** The state of a successful run, the starting state otherwise. *)
Definition stateOf {A : Type} (r : res (A * World)) : World :=
  match r with
  | Ok (_, w) => w
  | _ => start
  end.

(** What a run returned. *)
Definition resultOf {A : Type} (r : res (A * World)) : option A :=
  match r with
  | Ok (a, _) => Some a
  | _ => None
  end.

(** [Foundation.dll] is loaded. *)
Definition withFoundation : World := stateOf (load host 2 "Foundation.dll" start).

(** Then its wrapper DLL, then the dylib with the wrappers. *)
Definition withWrapperDLL : World :=
  stateOf (load host 3 (wrapperPathOf "Foundation.dll") withFoundation).
Definition withWrapperDylib : World :=
  stateOf (load host 3 wrappersPath withWrapperDLL).

(** The dylib with the wrappers is loaded, and nothing else. *)
Definition withWrappers : World := stateOf (load host 2 wrappersPath start).

End Demo.

(** * More files, method types and closures for the runs *)

Module Fixtures.

(** A dylib without segments. *)
Definition binEmpty : MachO.Binary := Demo.dylib MachO.CPU_TYPE_ARM [] [] [].

(** A dylib of one segment without permissions at 0x4000, a page that is
    only reserved. *)
Definition segGuard : MachO.SegmentCommand :=
  MachO.mkSegment 0x4000 0x1000 0 [] [].
Definition binGuard : MachO.Binary :=
  Demo.dylib MachO.CPU_TYPE_ARM [segGuard] [] [].

(** The method at offset 0x100 of a dylib: it returns an [int] and takes
    [self], [_cmd] and an [int]. *)
Definition callbackType : string := "i12@0:4i8".

(** [Demo.host] with the two files and the method type; [malloc] is its
    [_aligned_malloc]. *)
Definition hostWith (malloc : nat -> Z -> Z -> Z) : Host := {|
  PageSize := PageSize Demo.host;
  to_hex_string := to_hex_string Demo.host;
  isFileValid := isFileValid Demo.host;
  files := <["empty.dylib" := MachOFile binEmpty]>
             (<["guard.dylib" := MachOFile binGuard]> (files Demo.host));
  aligned_malloc := malloc;
  uc_mem_map_ptr := uc_mem_map_ptr Demo.host;
  LoadPackagedLibrary := LoadPackagedLibrary Demo.host;
  GetModuleInformation := GetModuleInformation Demo.host;
  lastErrorMessage := lastErrorMessage Demo.host;
  findSymbol := findSymbol Demo.host;
  getMethodType := fun LL a =>
    if isDylib LL && Z.eqb a (StartAddress LL + 0x100) then Some callbackType
    else None;
  checkInRange := checkInRange Demo.host;
  wrapperIndexAt := wrapperIndexAt Demo.host;
  hostCall := hostCall Demo.host;
  uc_emu_start := uc_emu_start Demo.host
|}.

Definition host : Host := hostWith (aligned_malloc Demo.host).

(** The host when no memory is left. *)
Definition hostNoMemory : Host := hostWith (fun _ _ _ => 0).

(** A libffi that gives out closures of 0x100 bytes from 0x40000000, and an
    engine that accepts every hook. *)
Definition ffi : Ffi := {|
  ffi_closure_alloc := fun n =>
    Some (0x40000000 + Z.of_nat n * 0x100, 0x40000010 + Z.of_nat n * 0x100);
  ffi_prep_cif := fun _ _ => true;
  ffi_prep_closure_loc := fun _ _ => true;
  uc_hook_add := fun _ => true
|}.

Definition noClosures : Closures := mkClosures 0 0 ∅.

(** The dylib with the wrappers is loaded, at 0x20100000. *)
Definition withWrappers : World :=
  Demo.stateOf (load host 2 Demo.wrappersPath Demo.start).

(** [a.dylib] and [b.dylib] are loaded. *)
Definition withCycle : World :=
  Demo.stateOf (load Demo.host 10 "a.dylib" Demo.start).

(** What a run of [translate] returned, and the state it left. *)
Definition translated (r : res (Z * Closures * World)) : option (Z * Closures) :=
  match r with
  | Ok (a, _) => Some a
  | _ => None
  end.

End Fixtures.

(** * The vocabulary of the statements *)

Section Translator.

Context (H : Host).

(** The characters the cursor has before it, the terminator included. *)
Definition remaining (T : TypeDecoder.cursor) : nat :=
  match T with
  | TypeDecoder.At s => S (String.length s)
  | TypeDecoder.PastEnd => O
  end.

(** The sizes decoded from [s] until [hasNext] is false add up to [total],
    and none of them is the invalid sentinel. *)
Definition decodesTo (s : string) (total : Z) : Prop :=
  exists l, TypeDecoder.sizesOf s = Ok l
            /\ TypeDecoder.sum32 l = total
            /\ Forall (fun x => x <> TypeDecoder.InvalidSize) l.

(** The [i]-th argument word of a guest call: [R0]..[R3], then the stack. *)
Definition argWord (w : World) (i : nat) : Z :=
  if Nat.ltb i 4 then readReg (UC_ARM_REG_R0 + Z.of_nat i) w
  else read32 (mem w) (wrap32 (readReg UC_ARM_REG_SP w + (Z.of_nat i - 4) * 4)).

(** A caller that has staged the first [n] argument words. *)
Definition staged (w : World) (DC : DynamicCaller) (n : nat) : Prop :=
  Args DC = map (argWord w) (seq 0 n)
  /\ RegId DC = UC_ARM_REG_R0 + Z.of_nat (Nat.min n 4).

(** [loadArg] for each size in turn. *)
Fixpoint loadArgList (fuel : nat) (sizes : list Z) (DC : DynamicCaller)
    (w : World) : res DynamicCaller :=
  match sizes with
  | [] => Ok DC
  | Sz :: sizes => DC ← loadArg fuel Sz DC w; loadArgList fuel sizes DC w
  end.

(** An entry to emulation (the part of [execute] that precedes the engine's
    start) or a return to the kernel address. *)
Inductive Transition : Type :=
| Enter (Addr : Z)
| Return.

(** The transitions in turn; a return on an empty stack is a fault. *)
Fixpoint run (ts : list Transition) (w : World) : res World :=
  match ts with
  | [] => Ok w
  | Enter Addr :: ts => run ts (executeEntry H Addr w)
  | Return :: ts => w ← returnToKernel w; run ts w
  end.

(** The number of entries that have not returned, after [ts] from [depth]
    such entries; [None] when a return has no entry to match. *)
Fixpoint unreturned (ts : list Transition) (depth : nat) : option nat :=
  match ts with
  | [] => Some depth
  | Enter _ :: ts => unreturned ts (S depth)
  | Return :: ts =>
      match depth with
      | O => None
      | S depth => unreturned ts depth
      end
  end.

(** The index of [w'] extends that of [w]: every entry is kept. *)
Definition keeps (w w' : World) : Prop :=
  forall k l, LIs w !! k = Some l -> LIs w' !! k = Some l.

(** The world [loadMachO] has built when it starts on the referenced
    libraries: the record is in the index, the segments are in memory. *)
Definition machOMapped (Path : string) (Bin : MachO.Binary) (w : World)
  : LibPtr * Z * World :=
  let '(LLP, w) := assignLI Path (newDylib Bin) w in
  let w := if negb (MachO.cpu_eqb (MachO.cpu_type Bin) MachO.CPU_TYPE_ARM)
           then error H "expected ARM binary" false w else w in
  let w := if MachO.has Bin MachO.MH_SPLIT_SEGS
           then error H "MH_SPLIT_SEGS not supported" false w else w in
  let w := if negb (canSegmentsSlide Bin)
           then error H "the binary is not slideable" false w else w in
  let '(LowAddr, HighAddr, w) :=
    fold_left (segmentRange H) (MachO.segments Bin) (2 ^ 64 - 1, 0, w) in
  let Sz := wrap64 (HighAddr - LowAddr) in
  let Addr := aligned_malloc H (allocs w) (wrap32 Sz) (PageSize H) in
  let w := setAllocs (S (allocs w)) w in
  let w := if Z.eqb Addr 0
           then error H "couldn't allocate memory for segments" false w else w in
  let Slide := wrap64 (Addr - LowAddr) in
  let w := updLib LLP (withRange Slide Sz) w in
  (LLP, Slide, fold_left (loadSegment H LowAddr Slide) (MachO.segments Bin) w).

(** A [load] that keeps the entries of the index. *)
Definition keeping (ld : string -> World -> res (option LibPtr * World)) : Prop :=
  forall P w r w', ld P w = Ok (r, w') -> keeps w w'.

(** The entries of the index under one path. *)
Definition entriesAt (path : string) (w : World) : list (string * LibPtr) :=
  filter (fun kv => kv.1 = path) (map_to_list (LIs w)).

(** The two loads return the same result, and afterwards the index holds
    exactly one entry for the resolved path. *)
Definition sameRecordOnce (fuel : nat) (p1 p2 : string) (w : World) : Prop :=
  exists r w1 w2,
    load H fuel p1 w = Ok (r, w1)
    /\ load H fuel p2 w1 = Ok (r, w2)
    /\ length (entriesAt (Path (resolvePath p1)) w2) = 1%nat.

(** Records are allocated at pointers the store does not hold. *)
Definition freshStore (w : World) : Prop :=
  forall p, (fresh w <= p)%nat -> store w !! p = None.

(** The state after [load] of a DLL the host cannot load. *)
Definition afterFailedDLL (path : string) (w : World) : World :=
  setFresh (S (fresh w))
    (error H ("couldn't load DLL: " ++ path) true
       (debug ["Info: loading library "; path; "..." ++ nl] w)).

(** The files that are not in the index yet. *)
Definition pending (w : World) : nat :=
  size (dom (files H) ∖ dom (LIs w)).

(** Every entry of the index points at a record of the store, allocated
    before the next fresh pointer. *)
Definition wellFormed (w : World) : Prop :=
  forall k l, LIs w !! k = Some l -> is_Some (store w !! l) /\ (l < fresh w)%nat.

(** [w'] has the index and the pointers of [w], and at least its records. *)
Definition sameIndex (w w' : World) : Prop :=
  LIs w' = LIs w /\ fresh w' = fresh w
  /\ forall l, is_Some (store w !! l) -> is_Some (store w' !! l).

(** There is a record and an address on which [checkInRange] raises its
    exception. *)
Definition rangeCheckFails : Prop :=
  exists LL a, checkInRange H LL a = false.

(** What a run from a well-formed state may end in: a well-formed state, or
    the exception of [checkInRange]. *)
Definition sound {A : Type} (r : res (A * World)) : Prop :=
  match r with
  | Ok (_, w') => wellFormed w'
  | Fault => rangeCheckFails
  | NoFuel => True
  end.

(** The log lines of [dispatch]. *)
Definition logFetch (Addr : Z) (AI : option (string * LibPtr)) (Wrapper : bool)
    (w : World) : World :=
  let w := dumpAddrIn H Addr AI (debug ["Info: fetch prot. mem. at "] w) in
  let w := if negb Wrapper then debug [" (not a wrapper)"] w else w in
  debug ["." ++ nl] w.

(** The hook has read R0 and deferred the call of a wrapper, and has left
    the guest PC alone. *)
Definition defersWrapperCall (fuel : nat) (Addr : Z) (w : World) : Prop :=
  exists w' Target,
    handleFetchProtMem H fuel Addr w = Ok (true, w')
    /\ Continue w' = true
    /\ Continuation w' = Some (CallWrapper Target (readReg UC_ARM_REG_R0 w))
    /\ readReg UC_ARM_REG_PC w' = readReg UC_ARM_REG_PC w.

(** *** Type strings *)

(** Every character of [s] satisfies [p]. *)
Fixpoint allChars (p : ascii -> bool) (s : string) : bool :=
  match s with
  | EmptyString => true
  | String c r => p c && allChars p r
  end.

(** The tags of the types without structure: [v] and the six word tags. *)
Definition simpleTag (c : ascii) : bool :=
  Ascii.eqb c "v" || TypeDecoder.is_word_tag c.

Definition tagSize (c : ascii) : Z := if Ascii.eqb c "v" then 0 else 4.

Fixpoint tagSizes (s : string) : list Z :=
  match s with
  | EmptyString => []
  | String c r => tagSize c :: tagSizes r
  end.

(** The first characters the decoder has a case for. *)
Definition knownTag (c : ascii) : bool :=
  simpleTag c || Ascii.eqb c "^" || Ascii.eqb c "{".

(** A character that may stand in the name of a struct. *)
Definition nameChar (c : ascii) : bool :=
  negb (Ascii.eqb c "=") && negb (Ascii.eqb c TypeDecoder.NUL).

(** A method type as the Objective-C compiler writes it: simple types, each
    followed by the decimal digits of a frame offset. *)
Fixpoint methodType (items : list (ascii * string)) : string :=
  match items with
  | [] => EmptyString
  | it :: items => String it.1 (it.2 ++ methodType items)
  end.

Definition simpleItem (it : ascii * string) : Prop :=
  simpleTag it.1 = true /\ allChars TypeDecoder.is_digit it.2 = true.

(** What a size returned by the decoder can be: the invalid sentinel, or a
    number of whole words. *)
Definition wordsOrInvalid (z : Z) : Prop :=
  z = TypeDecoder.InvalidSize \/ (0 <= z < 2 ^ 32 /\ z mod 4 = 0).

(** The decoder has added [msgs] to its reports, at least one of them when
    the size is the invalid sentinel. *)
Definition reported (d : TypeDecoder.t) (z : Z) (d' : TypeDecoder.t) : Prop :=
  exists msgs,
    TypeDecoder.errors d' = (TypeDecoder.errors d ++ msgs)%list
    /\ (z = TypeDecoder.InvalidSize -> msgs <> []).

(** *** The index, the registers and the log *)

(** Every path in the index is a resolved path. *)
Definition resolvedKeys (w : World) : Prop :=
  forall k l, LIs w !! k = Some l -> Path (resolvePath k) = k.

(** The paths in the index of [w'] are those of [w] and paths that satisfy
    [Q]. *)
Definition newKeys (Q : string -> Prop) (w w' : World) : Prop :=
  forall k, is_Some (LIs w' !! k) -> is_Some (LIs w !! k) \/ Q k.

(** [w'] is [w] with other values in the registers. *)
Definition sameButRegs (w w' : World) : Prop :=
  w' = setRegs (fun _ => regs w') w.

(** [w'] is [w] with another log. *)
Definition sameButLog (w w' : World) : Prop :=
  w' = setOut (fun _ => out w') w.

(** An argument of one word, with its frame offset. *)
Definition wordItem (it : ascii * string) : Prop :=
  TypeDecoder.is_word_tag it.1 = true /\ allChars TypeDecoder.is_digit it.2 = true.

(** The number of argument words of a method of simple types. *)
Definition argWords (items : list (ascii * string)) : nat :=
  list_sum (map (fun it : ascii * string =>
                   if Ascii.eqb it.1 "v" then 0%nat else 1%nat) items).

(** * Properties *)

(** ** Machine integers and states *)

Lemma wrap32_range z : 0 <= wrap32 z < 2 ^ 32.
Proof. unfold wrap32. apply Z.mod_pos_bound. lia. Qed.

Lemma wrap64_range z : 0 <= wrap64 z < 2 ^ 64.
Proof. unfold wrap64. apply Z.mod_pos_bound. lia. Qed.

Lemma wrap32_small z : 0 <= z < 2 ^ 32 -> wrap32 z = z.
Proof. intros Hz. unfold wrap32. apply Z.mod_small. exact Hz. Qed.

Lemma wrap64_small z : 0 <= z < 2 ^ 64 -> wrap64 z = z.
Proof. intros Hz. unfold wrap64. apply Z.mod_small. exact Hz. Qed.

Lemma World_eq (w w' : World) :
  LIs w = LIs w' -> store w = store w' -> fresh w = fresh w' ->
  regs w = regs w' -> mem w = mem w' -> mapped w = mapped w' ->
  allocs w = allocs w' -> out w = out w' ->
  stopRequested w = stopRequested w' -> KernelAddr w = KernelAddr w' ->
  LRs w = LRs w' -> Running w = Running w' -> Restart w = Restart w' ->
  Continue w = Continue w' -> Continuation w = Continuation w' ->
  w = w'.
Proof. destruct w, w'; simpl; intros; subst; reflexivity. Qed.

(** ** Path resolution *)

Lemma make_preferred_first (s : string) :
  match FsPath.make_preferred s with
  | String c _ => Ascii.eqb c "/" = false
  | EmptyString => True
  end.
Proof.
  destruct s as [|c r]; simpl; [exact Logic.I|].
  destruct (Ascii.eqb c "/") eqn:E; [reflexivity | exact E].
Qed.

Lemma is_relative_gen (r : string) :
  FsPath.is_relative (String "g" (String "e" (String "n" r))) = true.
Proof. reflexivity. Qed.

Lemma startsWith_slash (c : ascii) (r : string) :
  startsWith (String c r) "/" = Ascii.eqb c "/".
Proof.
  simpl. destruct r; apply andb_true_r.
Qed.

(** C6. Resolving a resolved path changes nothing; a path that begins with a
    slash resolves to the relative path [gen\...], the text [gen] followed by
    the path with every slash turned into the host's separator; any other
    path is returned as it is, and is relative when the host's path syntax
    says so. *)
Theorem resolvePath_idempotent (p : string) :
  resolvePath (Path (resolvePath p)) = resolvePath p
  /\ (if startsWith p "/"
      then Relative (resolvePath p) = true
           /\ Path (resolvePath p) = "gen" ++ FsPath.make_preferred p
           /\ startsWith (Path (resolvePath p)) "gen\" = true
      else resolvePath p = mkBinaryPath p (FsPath.is_relative p)).
Proof.
  destruct p as [|c r].
  - split; reflexivity.
  - rewrite startsWith_slash.
    assert (Hr : resolvePath (String c r)
                 = if Ascii.eqb c "/"
                   then mkBinaryPath (FsPath.make_preferred ("gen" ++ String c r)) true
                   else mkBinaryPath (String c r) (FsPath.is_relative (String c r)))
      by reflexivity.
    rewrite Hr. clear Hr.
    destruct (Ascii.eqb c "/") eqn:E.
    + apply Ascii.eqb_eq in E. subst c. simpl. split; [reflexivity|].
      split; [reflexivity|]. split; [reflexivity|].
      destruct (FsPath.make_preferred r); reflexivity.
    + split; [|reflexivity]. simpl. rewrite E. reflexivity.
Qed.

(** ** Type decoding *)

(** More fuel does not change a result. *)
Lemma getNextTypeSize_fuel_mono (n : nat) :
  (forall d r, TypeDecoder.getNextTypeSizeImpl n d = Ok r ->
               TypeDecoder.getNextTypeSizeImpl (S n) d = Ok r)
  /\ (forall t d r, TypeDecoder.structFields n t d = Ok r ->
                    TypeDecoder.structFields (S n) t d = Ok r)
  /\ (forall d r, TypeDecoder.getNextTypeSize n d = Ok r ->
                  TypeDecoder.getNextTypeSize (S n) d = Ok r).
Proof.
  induction n as [|n (IHi & IHs & IHg)].
  - repeat split; intros; discriminate.
  - split; [|split].
    + intros d r. cbn [TypeDecoder.getNextTypeSizeImpl].
      destruct (TypeDecoder.deref (TypeDecoder.T d)) as [c| |]; cbn; try discriminate.
      repeat (match goal with |- context [if ?b then _ else _] => destruct b end;
              try (intros ?; assumption)).
      * destruct (TypeDecoder.incr (TypeDecoder.T d)) as [T1| |]; cbn; try discriminate.
        destruct (TypeDecoder.getNextTypeSizeImpl n _) as [[s d1]| |] eqn:E;
          cbn; try discriminate.
        apply IHi in E. cbn in E. rewrite E. cbn. intros ?; assumption.
      * destruct (TypeDecoder.incr (TypeDecoder.T d)) as [T1| |]; cbn; try discriminate.
        destruct T1 as [s1|]; [|intros ?; assumption].
        destruct (TypeDecoder.skipName s1) as [[|] s2]; [|intros ?; assumption].
        destruct s2 as [|c2 s2]; cbn; intros E; apply IHs in E; exact E.
    + intros t d r. cbn [TypeDecoder.structFields].
      destruct (TypeDecoder.deref (TypeDecoder.T d)) as [c| |]; cbn; try discriminate.
      destruct (Ascii.eqb c "}"); [intros ?; assumption|].
      destruct (TypeDecoder.getNextTypeSize n d) as [[s d1]| |] eqn:E;
        cbn; try discriminate.
      apply IHg in E. cbn in E. rewrite E. cbn.
      destruct (Z.eqb s TypeDecoder.InvalidSize); [intros ?; assumption|].
      intros E'. apply IHs in E'. exact E'.
    + intros d r. cbn [TypeDecoder.getNextTypeSize].
      destruct (TypeDecoder.getNextTypeSizeImpl n d) as [[s d1]| |] eqn:E;
        cbn; try discriminate.
      apply IHi in E. cbn in E. rewrite E. cbn. intros ?; assumption.
Qed.

Lemma allSizes_fuel_mono (n : nat) :
  forall d r, TypeDecoder.allSizes n d = Ok r -> TypeDecoder.allSizes (S n) d = Ok r.
Proof.
  induction n as [|n IH]; intros d r; [discriminate|].
  cbn [TypeDecoder.allSizes].
  destruct (TypeDecoder.hasNext d) as [[|]| |]; cbn; try discriminate;
    [|intros ?; assumption].
  destruct (TypeDecoder.getNextTypeSize n d) as [[s d1]| |] eqn:E;
    cbn; try discriminate.
  apply (proj2 (proj2 (getNextTypeSize_fuel_mono n))) in E. cbn in E.
  rewrite E. cbn.
  destruct (TypeDecoder.allSizes n d1) as [[l d2]| |] eqn:E';
    cbn; try discriminate.
  apply IH in E'. cbn in E'. rewrite E'. cbn. intros ?; assumption.
Qed.

Lemma skipName_length (s : string) :
  (String.length (TypeDecoder.skipName s).2 <= String.length s)%nat
  /\ ((TypeDecoder.skipName s).1 = true ->
      exists r, (TypeDecoder.skipName s).2 = String "=" r).
Proof.
  induction s as [|c r IH]; simpl.
  - split; [lia | discriminate].
  - destruct (Ascii.eqb c "=") eqn:E; simpl.
    + apply Ascii.eqb_eq in E. subst c. split; [lia | eauto].
    + destruct (Ascii.eqb c TypeDecoder.NUL); simpl.
      * split; [lia | discriminate].
      * destruct IH as [IH1 IH2]. split; [lia | exact IH2].
Qed.

Lemma skipDigits_length (s : string) :
  (String.length (TypeDecoder.skipDigits s) <= String.length s)%nat.
Proof.
  induction s as [|c r IH]; simpl; [lia|].
  destruct (TypeDecoder.is_digit c); simpl; lia.
Qed.

(** The decoder moves forward: [getNextTypeSize] consumes a character at
    least, and none of the three functions leaves the cursor past the
    terminator. *)
Lemma decoder_progress (n : nat) :
  (forall d z d', TypeDecoder.getNextTypeSizeImpl n d = Ok (z, d') ->
     (1 <= remaining (TypeDecoder.T d') <= remaining (TypeDecoder.T d))%nat)
  /\ (forall t d z d', TypeDecoder.structFields n t d = Ok (z, d') ->
     (1 <= remaining (TypeDecoder.T d') <= remaining (TypeDecoder.T d))%nat)
  /\ (forall d z d', TypeDecoder.getNextTypeSize n d = Ok (z, d') ->
     (1 <= remaining (TypeDecoder.T d') < remaining (TypeDecoder.T d))%nat).
Proof.
  induction n as [|n (IHi & IHs & IHg)].
  - repeat split; intros; discriminate.
  - split; [|split].
    + intros d z d'. cbn [TypeDecoder.getNextTypeSizeImpl].
      destruct d as [[s|] errs]; [|discriminate].
      destruct s as [|c s]; cbn.
      * intros [= <- <-]. cbn. lia.
      * destruct (Ascii.eqb c "v"); [intros [= <- <-]; cbn; lia|].
        destruct (TypeDecoder.is_word_tag c); [intros [= <- <-]; cbn; lia|].
        destruct (Ascii.eqb c "^").
        { destruct (TypeDecoder.getNextTypeSizeImpl n _) as [[z1 d1]| |] eqn:E;
            cbn; try discriminate.
          intros [= <- <-]. apply IHi in E. cbn in E. lia. }
        destruct (Ascii.eqb c "{"); [|intros [= <- <-]; cbn; lia].
        pose proof (skipName_length s) as [Hlen Heq].
        destruct (TypeDecoder.skipName s) as [[|] s2]; cbn in Hlen, Heq |- *.
        -- destruct (Heq eq_refl) as [r ->]. cbn. cbn in Hlen.
           intros E. apply IHs in E. cbn in E. lia.
        -- intros [= <- <-]. cbn. lia.
    + intros t d z d'. cbn [TypeDecoder.structFields].
      destruct d as [[s|] errs]; [|discriminate].
      cbn [TypeDecoder.T].
      destruct (TypeDecoder.deref (TypeDecoder.At s)) as [c| |] eqn:Hc;
        [|destruct s; discriminate|destruct s; discriminate].
      cbn.
      destruct (Ascii.eqb c "}"); [intros [= <- <-]; cbn; lia|].
      destruct (TypeDecoder.getNextTypeSize n _) as [[z1 d1]| |] eqn:E;
        cbn; try discriminate.
      apply IHg in E. cbn in E.
      destruct (Z.eqb z1 TypeDecoder.InvalidSize); [intros [= <- <-]; lia|].
      intros E'. apply IHs in E'. lia.
    + intros d z d'. cbn [TypeDecoder.getNextTypeSize].
      destruct (TypeDecoder.getNextTypeSizeImpl n d) as [[z1 d1]| |] eqn:E;
        cbn; try discriminate.
      apply IHi in E.
      destruct d1 as [[s1|] errs1]; [|discriminate].
      destruct s1 as [|c1 s1]; cbn; [discriminate|].
      intros [= <- <-]. cbn in E |- *.
      pose proof (skipDigits_length s1). lia.
Qed.

(** Three units of fuel for every character before the cursor are enough:
    the decoder does not run out of fuel on any string. *)
Lemma decoder_fuel (n : nat) :
  (forall d, (1 <= remaining (TypeDecoder.T d))%nat ->
             (3 * remaining (TypeDecoder.T d) <= n + 2)%nat ->
             TypeDecoder.getNextTypeSizeImpl n d <> NoFuel)
  /\ (forall t d, (1 <= remaining (TypeDecoder.T d))%nat ->
               (3 * remaining (TypeDecoder.T d) <= n)%nat ->
               TypeDecoder.structFields n t d <> NoFuel)
  /\ (forall d, (1 <= remaining (TypeDecoder.T d))%nat ->
             (3 * remaining (TypeDecoder.T d) <= n + 1)%nat ->
             TypeDecoder.getNextTypeSize n d <> NoFuel).
Proof.
  induction n as [|n (IHi & IHs & IHg)].
  - repeat split; intros; lia.
  - split; [|split].
    + intros d H1 H3. cbn [TypeDecoder.getNextTypeSizeImpl].
      destruct d as [[s|] errs]; [|cbn in H1; lia].
      destruct s as [|c s]; cbn; [discriminate|].
      destruct (Ascii.eqb c "v"); [discriminate|].
      destruct (TypeDecoder.is_word_tag c); [discriminate|].
      destruct (Ascii.eqb c "^").
      { pose proof (IHi (TypeDecoder.mk (TypeDecoder.At s) errs)) as Hn.
        cbn in Hn, H3. specialize (Hn ltac:(lia) ltac:(lia)).
        destruct (TypeDecoder.getNextTypeSizeImpl n _) as [[z1 d1]| |];
          cbn; [discriminate|discriminate|congruence]. }
      destruct (Ascii.eqb c "{"); [|discriminate].
      pose proof (skipName_length s) as [Hlen Heq].
      destruct (TypeDecoder.skipName s) as [[|] s2]; cbn in Hlen, Heq |- *;
        [|discriminate].
      destruct (Heq eq_refl) as [r ->]. cbn. cbn in Hlen, H3.
      apply IHs; cbn; lia.
    + intros t d H1 H3. cbn [TypeDecoder.structFields].
      destruct d as [[s|] errs]; [|cbn in H1; lia].
      cbn in H1, H3. cbn [TypeDecoder.T].
      destruct (TypeDecoder.deref (TypeDecoder.At s)) as [c| |] eqn:Hc;
        [|destruct s; discriminate|destruct s; discriminate].
      cbn.
      destruct (Ascii.eqb c "}"); [discriminate|].
      pose proof (IHg (TypeDecoder.mk (TypeDecoder.At s) errs)
                    ltac:(cbn; lia) ltac:(cbn; lia)) as Hn.
      destruct (TypeDecoder.getNextTypeSize n _) as [[z1 d1]| |] eqn:E;
        cbn; [|discriminate|congruence].
      apply (proj2 (proj2 (decoder_progress n))) in E. cbn in E.
      destruct (Z.eqb z1 TypeDecoder.InvalidSize); [discriminate|].
      apply IHs; lia.
    + intros d H1 H3. cbn [TypeDecoder.getNextTypeSize].
      pose proof (IHi d H1 ltac:(lia)) as Hn.
      destruct (TypeDecoder.getNextTypeSizeImpl n d) as [[z1 d1]| |];
        cbn; [|discriminate|congruence].
      destruct d1 as [[s1|] errs1]; [|discriminate].
      destruct s1 as [|c1 s1]; cbn; discriminate.
Qed.

Lemma allSizes_fuel (n : nat) :
  forall d, (3 * remaining (TypeDecoder.T d) <= n)%nat ->
            (1 <= remaining (TypeDecoder.T d))%nat ->
            TypeDecoder.allSizes n d <> NoFuel.
Proof.
  induction n as [|n IH]; intros d H3 H1; [lia|].
  cbn [TypeDecoder.allSizes].
  assert (Hh : TypeDecoder.hasNext d <> NoFuel).
  { destruct d as [[[|c s]|] errs]; discriminate. }
  destruct (TypeDecoder.hasNext d) as [[|]| |]; cbn;
    [|discriminate|discriminate|congruence].
  pose proof (proj2 (proj2 (decoder_fuel n)) d H1 ltac:(lia)) as Hn.
  destruct (TypeDecoder.getNextTypeSize n d) as [[z1 d1]| |] eqn:E;
    cbn; [|discriminate|congruence].
  apply (proj2 (proj2 (decoder_progress n))) in E.
  pose proof (IH d1 ltac:(lia) ltac:(lia)) as Hn1.
  destruct (TypeDecoder.allSizes n d1) as [[l d2]| |];
    cbn; [discriminate|discriminate|congruence].
Qed.

(** Decoding a whole string comes to an end. *)
Lemma sizesOf_terminates (s : string) : TypeDecoder.sizesOf s <> NoFuel.
Proof.
  unfold TypeDecoder.sizesOf.
  pose proof (allSizes_fuel (TypeDecoder.fuelFor s) (TypeDecoder.init s)) as Hn.
  unfold TypeDecoder.fuelFor in *. cbn in Hn. specialize (Hn ltac:(lia) ltac:(lia)).
  destruct (TypeDecoder.allSizes _ _) as [[l d]| |];
    cbn; [discriminate|discriminate|congruence].
Qed.

(** C3, refuted as stated: on [{S=^v i}] the decoder does not produce sizes
    that add up to 8; the space after [^v] is no type it knows. *)
Lemma typeDecoder_space_invalid : ~ decodesTo "{S=^v i}" 8.
Proof.
  intros (l & Hl & _ & Hall).
  vm_compute in Hl. injection Hl as <-.
  inversion Hall as [|x l' Hx _]. apply Hx. reflexivity.
Qed.

(** C3, as amended. The encodings [v], [c@:iIf], [^i], [{S=ii}] and [{S=}]
    decode to sizes that add up to 0, 24, 4, 8 and 0, never the invalid
    sentinel. On [{S=^v i}] the first call reports an unsupported type
    encoding and returns the invalid sentinel, leaving the cursor on the
    closing brace; without the space, [{S=^vi}] decodes to 8. *)
Theorem typeDecoder_sizes :
  decodesTo "v" 0
  /\ decodesTo "c@:iIf" 24
  /\ decodesTo "^i" 4
  /\ decodesTo "{S=ii}" 8
  /\ decodesTo "{S=}" 0
  /\ TypeDecoder.getNextTypeSize (TypeDecoder.fuelFor "{S=^v i}")
       (TypeDecoder.init "{S=^v i}")
     = Ok (TypeDecoder.InvalidSize,
           TypeDecoder.mk (TypeDecoder.At "}") ["unsupported type encoding"])
  /\ decodesTo "{S=^vi}" 8.
Proof.
  assert (Hne0 : 0 <> TypeDecoder.InvalidSize) by (vm_compute; discriminate).
  assert (Hne4 : 4 <> TypeDecoder.InvalidSize) by (vm_compute; discriminate).
  assert (Hne8 : 8 <> TypeDecoder.InvalidSize) by (vm_compute; discriminate).
  repeat split;
    try (eexists; split; [vm_compute; reflexivity|];
         split; [vm_compute; reflexivity|]; repeat constructor; assumption).
Qed.

(** ** DynamicCaller *)

Lemma wrap32_add_wrap32_r (a b : Z) : wrap32 (a + wrap32 b) = wrap32 (a + b).
Proof. unfold wrap32. apply Zplus_mod_idemp_r. Qed.

Lemma staged_step (w : World) (DC : DynamicCaller) (n : nat) :
  staged w DC n ->
  staged w
    (if Z.leb (RegId DC) UC_ARM_REG_R3
     then mkDC (RegId DC + 1) (Args DC ++ [readReg (RegId DC) w])
     else mkDC (RegId DC)
            (Args DC ++
             [read32 (mem w)
                (wrap32 (readReg UC_ARM_REG_SP w
                         + wrap32 ((Z.of_nat (length (Args DC)) - 4) * 4)))]))
    (S n).
Proof.
  intros [HA HR]. unfold staged.
  assert (Hlen : length (Args DC) = n)
    by (rewrite HA, length_map, length_seq; reflexivity).
  rewrite seq_S, map_app. simpl. rewrite HR, Hlen.
  unfold UC_ARM_REG_R3, UC_ARM_REG_R0 in *.
  destruct (Z.leb_spec (66 + Z.of_nat (Nat.min n 4)) 69) as [Hle|Hgt]; simpl.
  - assert (n < 4)%nat by lia.
    split.
    + rewrite HA. f_equal. unfold argWord.
      destruct (Nat.ltb_spec n 4); [|lia].
      replace (Nat.min n 4) with n by lia. reflexivity.
    + lia.
  - assert (4 <= n)%nat by lia.
    split.
    + rewrite HA. f_equal. unfold argWord.
      destruct (Nat.ltb_spec n 4); [lia|].
      rewrite wrap32_add_wrap32_r. reflexivity.
    + lia.
Qed.

Lemma loadArgFrom_staged (w : World) (k : nat) :
  forall fuel I DC n,
    0 <= I -> I + 4 * Z.of_nat k < 2 ^ 32 -> (k <= fuel)%nat ->
    staged w DC n ->
    exists DC', loadArgFrom fuel I (I + 4 * Z.of_nat k) DC w = Ok DC'
                /\ staged w DC' (n + k).
Proof.
  induction k as [|k IH]; intros fuel I DC n HI Hk Hfuel Hst.
  - exists DC. replace (I + 4 * Z.of_nat 0) with I by lia.
    destruct fuel; simpl; rewrite Z.eqb_refl;
      (split; [reflexivity | rewrite Nat.add_0_r; exact Hst]).
  - destruct fuel as [|fuel]; [lia|].
    cbn [loadArgFrom].
    destruct (Z.eqb_spec I (I + 4 * Z.of_nat (S k))) as [Heq|_]; [lia|].
    rewrite (wrap32_small (I + 4)) by lia.
    replace (I + 4 * Z.of_nat (S k)) with ((I + 4) + 4 * Z.of_nat k) by lia.
    destruct (IH fuel (I + 4) _ (S n) ltac:(lia) ltac:(lia) ltac:(lia)
                 (staged_step w DC n Hst)) as (DC' & HDC' & Hst').
    exists DC'. split; [exact HDC'|].
    replace (n + S k)%nat with (S n + k)%nat by lia. exact Hst'.
Qed.

Lemma loadArgList_staged (w : World) (fuel : nat) (ks : list nat) :
  Forall (fun k => 4 * Z.of_nat k < 2 ^ 32 /\ (k <= fuel)%nat) ks ->
  forall DC n,
    staged w DC n ->
    exists DC', loadArgList fuel (map (fun k => 4 * Z.of_nat k) ks) DC w = Ok DC'
                /\ staged w DC' (n + list_sum ks).
Proof.
  induction 1 as [|k ks [Hk Hf] _ IH]; intros DC n Hst.
  - exists DC. split; [reflexivity|]. simpl. rewrite Nat.add_0_r. exact Hst.
  - destruct (loadArgFrom_staged w k fuel 0 DC n ltac:(lia) ltac:(lia) Hf Hst)
      as (DC1 & H1 & Hst1).
    destruct (IH DC1 (n + k)%nat Hst1) as (DC' & H' & Hst').
    exists DC'. split.
    + cbn [map loadArgList]. unfold loadArg.
      change (0 + 4 * Z.of_nat k) with (4 * Z.of_nat k) in H1.
      rewrite H1. exact H'.
    + simpl. rewrite Nat.add_assoc. exact Hst'.
Qed.

(** [call2] hands the last [N] staged words over, in order. *)
Lemma call2_params (Returns : bool) (Addr : Z) (DC : DynamicCaller) (w : World) :
  forall N Params,
    (N <= length (Args DC))%nat ->
    call2 H N Returns Addr DC Params w
    = Ok (call3 H Returns Addr
            (Params ++ List.skipn (length (Args DC) - N) (Args DC)) w).
Proof.
  induction N as [|N IH]; intros Params HN.
  - simpl. rewrite Nat.sub_0_r, skipn_all, app_nil_r. reflexivity.
  - cbn [call2].
    destruct (Args DC !! (length (Args DC) - S N)%nat) as [a|] eqn:Ea.
    + rewrite IH by lia. rewrite <- app_assoc. repeat f_equal.
      replace (length (Args DC) - N)%nat with (S (length (Args DC) - S N)) by lia.
      symmetry. apply drop_S. exact Ea.
    + apply lookup_ge_None in Ea. lia.
Qed.

Lemma call_dispatch (DC : DynamicCaller) (Returns : bool) (Addr : Z) (w : World) :
  call H DC Returns Addr w
  = if Nat.leb (length (Args DC)) 6
    then Ok (true, call3 H Returns Addr (Args DC) w)
    else Ok (false, error H "function has too many arguments" false w).
Proof.
  assert (Hc : forall N, N = length (Args DC) ->
                 call0 H N Returns Addr DC w
                 = Ok (call3 H Returns Addr (Args DC) w)).
  { intros N ->. unfold call0, call1.
    destruct Returns; rewrite call2_params by lia;
      rewrite Nat.sub_diag; reflexivity. }
  unfold call.
  destruct (length (Args DC)) as [|[|[|[|[|[|[|n]]]]]]] eqn:E;
    try (rewrite Hc by reflexivity; reflexivity).
  reflexivity.
Qed.

(** C7. From a fresh caller, [loadArg] called with sizes of [ks] words stages
    the argument words in order: word [i] comes from register [R0+i] for
    [i < 4] and from the guest stack at [SP + (i-4)*4] otherwise. [call]
    then calls the host function with exactly these words when there are at
    most six, writes its result to [R0] when [Returns] holds, and answers
    [true]; with more than six words it reports an error, answers [false]
    and calls nothing. *)
Theorem dynamicCaller_stages_and_calls
    (w : World) (fuel : nat) (ks : list nat) (Returns : bool) (Addr : Z)
    (Hks : Forall (fun k => 4 * Z.of_nat k < 2 ^ 32 /\ (k <= fuel)%nat) ks) :
  exists DC,
    loadArgList fuel (map (fun k => 4 * Z.of_nat k) ks) newDynamicCaller w = Ok DC
    /\ Args DC = map (argWord w) (seq 0 (list_sum ks))
    /\ call H DC Returns Addr w
       = if Nat.leb (list_sum ks) 6
         then let '(RetVal, w') := hostCall H Addr (Args DC) w in
              Ok (true, if Returns then writeReg UC_ARM_REG_R0 RetVal w' else w')
         else Ok (false, error H "function has too many arguments" false w).
Proof.
  destruct (loadArgList_staged w fuel ks Hks newDynamicCaller 0)
    as (DC & HDC & HA & HR).
  { split; reflexivity. }
  exists DC. split; [exact HDC|]. split; [exact HA|].
  rewrite call_dispatch.
  rewrite HA at 1. rewrite length_map, length_seq. simpl.
  destruct (Nat.leb (list_sum ks) 6); [|reflexivity].
  unfold call3. destruct (hostCall H Addr (Args DC) w) as [RetVal w'].
  reflexivity.
Qed.

(** ** The stack of return addresses *)

Lemma readReg_writeReg_same (r v : Z) (w : World) :
  readReg r (writeReg r v w) = wrap32 v.
Proof.
  unfold readReg, writeReg, setReg. simpl. rewrite Z.eqb_refl.
  unfold wrap32. apply Z.mod_mod. lia.
Qed.

Lemma executeEntry_spec (Addr : Z) (w : World) :
  LRs (executeEntry H Addr w) = readReg UC_ARM_REG_LR w :: LRs w
  /\ readReg UC_ARM_REG_LR (executeEntry H Addr w) = wrap32 (KernelAddr w)
  /\ KernelAddr (executeEntry H Addr w) = KernelAddr w.
Proof.
  unfold executeEntry. rewrite readReg_writeReg_same.
  assert (Hd : forall a w0, regs (dumpAddr H a w0) = regs w0
                            /\ LRs (dumpAddr H a w0) = LRs w0
                            /\ KernelAddr (dumpAddr H a w0) = KernelAddr w0).
  { intros a w0. unfold dumpAddr, dumpAddrIn.
    destruct (Z.eqb a (KernelAddr w0)); [repeat split|].
    destruct (lookup a w0) as [[p l]|]; repeat split. }
  destruct (Hd Addr (debug ["Info: starting emulation at "] w)) as (Hr & Hl & Hk).
  simpl. unfold readReg. simpl. rewrite Hr, Hl, Hk. simpl.
  split; [reflexivity|]. split; [|reflexivity].
  unfold wrap32. apply Z.mod_mod. lia.
Qed.

Lemma returnToKernel_spec (w : World) (LR : Z) (rest : list Z) :
  LRs w = LR :: rest ->
  exists w', returnToKernel w = Ok w'
             /\ LRs w' = rest
             /\ readReg UC_ARM_REG_LR w' = wrap32 LR
             /\ Running w' = false /\ stopRequested w' = true.
Proof.
  intros HL. unfold returnToKernel. rewrite HL. eexists. split; [reflexivity|].
  simpl. split; [reflexivity|]. split; [|split; reflexivity].
  apply (readReg_writeReg_same UC_ARM_REG_LR LR (setLRs rest w)).
Qed.

Lemma run_depth (ts : list Transition) :
  forall w,
    match unreturned ts (length (LRs w)) with
    | Some depth => exists w', run ts w = Ok w' /\ length (LRs w') = depth
    | None => run ts w = Fault
    end.
Proof.
  induction ts as [|[Addr|] ts IH]; intros w; simpl.
  - exists w. split; reflexivity.
  - specialize (IH (executeEntry H Addr w)).
    destruct (executeEntry_spec Addr w) as (HL & _). rewrite HL in IH. exact IH.
  - destruct (LRs w) as [|LR rest] eqn:HL; simpl.
    + unfold returnToKernel. rewrite HL. reflexivity.
    + destruct (returnToKernel_spec w LR rest HL) as (w' & Hw' & HL' & _).
      rewrite Hw'. specialize (IH w'). rewrite HL' in IH. exact IH.
Qed.

(** C8. [execute] pushes the guest's LR and puts the kernel address in LR
    before the emulation loop starts; [returnToKernel] pops the value pushed
    last back into LR and stops the engine; and after any sequence of entries
    and returns the depth of [LRs] is the number of entries that have not
    returned (a return without an entry is a fault). *)
Theorem LRs_stack_discipline (w : World) (Addr : Z) (ts : list Transition) :
  (forall fuel, execute H fuel Addr w = executeLoop H fuel Addr (executeEntry H Addr w))
  /\ LRs (executeEntry H Addr w) = readReg UC_ARM_REG_LR w :: LRs w
  /\ readReg UC_ARM_REG_LR (executeEntry H Addr w) = wrap32 (KernelAddr w)
  /\ (exists w', returnToKernel (executeEntry H Addr w) = Ok w'
                 /\ LRs w' = LRs w
                 /\ readReg UC_ARM_REG_LR w' = readReg UC_ARM_REG_LR w
                 /\ Running w' = false)
  /\ match unreturned ts (length (LRs w)) with
     | Some depth => exists w', run ts w = Ok w' /\ length (LRs w') = depth
     | None => run ts w = Fault
     end.
Proof.
  destruct (executeEntry_spec Addr w) as (HL & HK & _).
  split; [reflexivity|]. split; [exact HL|]. split; [exact HK|]. split.
  - destruct (returnToKernel_spec _ _ _ HL) as (w' & Hw' & HL' & HR & HRun & _).
    exists w'. split; [exact Hw'|]. split; [exact HL'|]. split; [|exact HRun].
    rewrite HR. unfold readReg, wrap32. apply Z.mod_mod. lia.
  - apply run_depth.
Qed.

(** ** The loader and the library index *)

Lemma keeps_refl w : keeps w w.
Proof. intros k l Hk. exact Hk. Qed.

Lemma keeps_trans w1 w2 w3 : keeps w1 w2 -> keeps w2 w3 -> keeps w1 w3.
Proof. intros H12 H23 k l Hk. apply H23, H12, Hk. Qed.

Lemma keeps_eq w w' : LIs w' = LIs w -> keeps w w'.
Proof. intros E k l Hk. rewrite E. exact Hk. Qed.

Lemma LIs_mapMemory a s p w : LIs (mapMemory H a s p w) = LIs w.
Proof. unfold mapMemory. destruct (uc_mem_map_ptr H _ _ _ _); reflexivity. Qed.

Lemma LIs_relocate lo sl va vs w r : LIs (relocate H lo sl va vs w r) = LIs w.
Proof.
  unfold relocate.
  repeat match goal with |- context [if ?b then _ else _] => destruct b end;
    reflexivity.
Qed.

Lemma LIs_fold_relocate lo sl va vs rels :
  forall w, LIs (fold_left (relocate H lo sl va vs) rels w) = LIs w.
Proof.
  induction rels as [|r rels IH]; intros w; simpl; [reflexivity|].
  rewrite IH. apply LIs_relocate.
Qed.

Lemma LIs_loadSegment lo sl w seg : LIs (loadSegment H lo sl w seg) = LIs w.
Proof.
  unfold loadSegment.
  destruct (Z.ltb 0 sl); [rewrite LIs_fold_relocate|];
    repeat match goal with |- context [if ?b then _ else _] => destruct b end;
    simpl; rewrite ?LIs_mapMemory; reflexivity.
Qed.

Lemma LIs_fold_loadSegment lo sl segs :
  forall w, LIs (fold_left (loadSegment H lo sl) segs w) = LIs w.
Proof.
  induction segs as [|s segs IH]; intros w; simpl; [reflexivity|].
  rewrite IH. apply LIs_loadSegment.
Qed.

Lemma LIs_fold_segmentRange segs :
  forall lo hi w,
    LIs (fold_left (segmentRange H) segs (lo, hi, w)).2 = LIs w.
Proof.
  induction segs as [|s segs IH]; intros lo hi w; simpl; [reflexivity|].
  rewrite IH.
  repeat match goal with |- context [if ?b then _ else _] => destruct b end;
    reflexivity.
Qed.

Lemma loadMachO_with_split ld Path Bin w :
  files H !! Path = Some (MachOFile Bin) ->
  loadMachO_with H ld Path w
  = let '(LLP, Slide, w1) := machOMapped Path Bin w in
    w2 ← loadLibraries ld (MachO.libraries Bin) w1;
    w3 ← bindSymbols H ld LLP Slide (MachO.bindings Bin) w2;
    Ok (LLP, w3).
Proof.
  intros Hf. unfold loadMachO_with, machOMapped. rewrite Hf.
  destruct (assignLI Path (newDylib Bin) w) as [LLP w0].
  destruct (fold_left (segmentRange H) (MachO.segments Bin) _) as [[lo hi] w1].
  reflexivity.
Qed.

Lemma machOMapped_index Path Bin w :
  let '(LLP, _, w1) := machOMapped Path Bin w in
  LLP = fresh w /\ LIs w1 = <[Path := fresh w]> (LIs w).
Proof.
  unfold machOMapped, assignLI.
  set (w0 := setFresh _ _).
  assert (H0 : LIs w0 = <[Path := fresh w]> (LIs w)).
  { unfold w0. destruct (LIs w !! Path); reflexivity. }
  clearbody w0.
  set (wa := if negb (MachO.cpu_eqb _ _) then _ else w0).
  assert (Ha : LIs wa = LIs w0) by (unfold wa; destruct (negb _); reflexivity).
  clearbody wa.
  set (wb := if MachO.has _ _ then _ else wa).
  assert (Hb : LIs wb = LIs wa) by (unfold wb; destruct (MachO.has _ _); reflexivity).
  clearbody wb.
  set (wc := if negb (canSegmentsSlide Bin) then _ else wb).
  assert (Hc : LIs wc = LIs wb) by (unfold wc; destruct (negb _); reflexivity).
  clearbody wc.
  pose proof (LIs_fold_segmentRange (MachO.segments Bin) (2 ^ 64 - 1) 0 wc) as Hd.
  destruct (fold_left (segmentRange H) (MachO.segments Bin) _) as [[lo hi] wd].
  simpl in Hd. split; [reflexivity|].
  rewrite LIs_fold_loadSegment.
  unfold updLib. simpl.
  destruct (Z.eqb _ 0); simpl; congruence.
Qed.

Lemma loadLibraries_keeps ld libs :
  keeping ld ->
  forall w w', loadLibraries ld libs w = Ok w' -> keeps w w'.
Proof.
  intros Hld. induction libs as [|name libs IH]; intros w w'; simpl.
  - intros [= <-]. apply keeps_refl.
  - destruct (ld name w) as [[r w1]| |] eqn:E; cbn; try discriminate.
    intros E'. eapply keeps_trans; [eapply Hld, E | apply IH, E'].
Qed.

Lemma bindSymbol_keeps ld LLP Slide BInfo :
  keeping ld ->
  forall w w', bindSymbol H ld LLP Slide BInfo w = Ok w' -> keeps w w'.
Proof.
  intros Hld w w'. unfold bindSymbol.
  destruct (unsupportedBinding BInfo); [intros [= <-]; apply keeps_eq; reflexivity|].
  destruct (negb (MachO.has_library BInfo));
    [intros [= <-]; apply keeps_eq; reflexivity|].
  destruct (ld (MachO.library_name BInfo) w) as [[r w1]| |] eqn:E;
    cbn; try discriminate.
  specialize (Hld _ _ _ _ E).
  destruct r as [Lib|]; [|intros [= <-]; exact Hld].
  destruct (store w1 !! Lib); [|discriminate].
  destruct (store w1 !! LLP); [|discriminate].
  destruct (Z.eqb _ 0); [intros [= <-]; exact Hld|].
  destruct (checkInRange H _ _); [|discriminate].
  intros [= <-]. exact Hld.
Qed.

Lemma bindSymbols_keeps ld LLP Slide bs :
  keeping ld ->
  forall w w', bindSymbols H ld LLP Slide bs w = Ok w' -> keeps w w'.
Proof.
  intros Hld. induction bs as [|b bs IH]; intros w w'; simpl.
  - intros [= <-]. apply keeps_refl.
  - destruct (bindSymbol H ld LLP Slide b w) as [w1| |] eqn:E; cbn; try discriminate.
    intros E'. eapply keeps_trans; [eapply bindSymbol_keeps; eassumption | apply IH, E'].
Qed.

(** [loadMachO] on a path that is not in the index: the new record is the one
    returned, it is in the index when the function returns, and no entry was
    lost on the way. *)
Lemma loadMachO_with_keeps ld Path w LLP w' :
  keeping ld ->
  LIs w !! Path = None ->
  loadMachO_with H ld Path w = Ok (LLP, w') ->
  keeps w w' /\ LLP = fresh w /\ LIs w' !! Path = Some LLP.
Proof.
  intros Hld Hnone.
  destruct (files H !! Path) as [[Bin| |]|] eqn:Hf;
    try (unfold loadMachO_with; rewrite Hf; discriminate).
  rewrite (loadMachO_with_split ld Path Bin w Hf).
  pose proof (machOMapped_index Path Bin w) as Hm.
  destruct (machOMapped Path Bin w) as [[LLP0 Slide] w1].
  destruct Hm as [-> Hm].
  destruct (loadLibraries ld _ w1) as [w2| |] eqn:E2; cbn; try discriminate.
  destruct (bindSymbols H ld _ _ _ w2) as [w3| |] eqn:E3; cbn; try discriminate.
  intros [= <- <-].
  assert (K13 : keeps w1 w3).
  { eapply keeps_trans;
      [eapply loadLibraries_keeps | eapply bindSymbols_keeps]; eassumption. }
  assert (K01 : keeps w w1).
  { intros k l Hk. rewrite Hm. destruct (decide (Path = k)) as [<-|Hne].
    - congruence.
    - rewrite lookup_insert_ne by exact Hne. exact Hk. }
  split; [eapply keeps_trans; eassumption|]. split; [reflexivity|].
  apply K13. rewrite Hm. apply lookup_insert_eq.
Qed.

Lemma loadPE_keeps Path w r w' :
  LIs w !! Path = None ->
  loadPE H Path w = (r, w') ->
  keeps w w' /\ (forall l, r = Some l -> l = fresh w /\ LIs w' !! Path = Some l).
Proof.
  intros Hnone. unfold loadPE, assignLI. rewrite Hnone.
  set (w0 := setFresh _ _).
  assert (H0 : LIs w0 = <[Path := fresh w]> (LIs w)) by reflexivity.
  assert (K0 : keeps w w0).
  { intros k l Hk. rewrite H0. destruct (decide (Path = k)) as [<-|Hne].
    - congruence.
    - rewrite lookup_insert_ne by exact Hne. exact Hk. }
  clearbody w0.
  destruct (Z.eqb (LoadPackagedLibrary H Path) 0).
  - intros [= <- <-]. split; [|discriminate].
    unfold eraseLI. simpl. rewrite H0, lookup_insert_eq. simpl.
    intros k l Hk. simpl. rewrite H0.
    rewrite delete_insert_id by exact Hnone. exact Hk.
  - destruct (GetModuleInformation H _) as [[base sz]|].
    + set (w1 := updLib _ _ w0).
      set (w2 := if negb _ then _ else _).
      assert (H2 : LIs w2 = LIs w0) by (unfold w2; destruct (negb _); reflexivity).
      clearbody w2.
      destruct (match store w2 !! fresh w with Some _ => _ | None => _ end)
        as [start sz'].
      intros [= <- <-]. rewrite <- H2 in H0.
      split.
      * intros k l Hk. rewrite LIs_mapMemory, H2. apply K0, Hk.
      * intros l [= <-]. split; [reflexivity|].
        rewrite LIs_mapMemory, H0. apply lookup_insert_eq.
    + intros [= <- <-]. split; [exact K0 | discriminate].
Qed.

(** [load] keeps the index, and a record it returns is the entry of the
    resolved path. *)
Lemma load_keeps (fuel : nat) :
  forall P w r w',
    load H fuel P w = Ok (r, w') ->
    keeps w w'
    /\ (forall l, r = Some l -> LIs w' !! Path (resolvePath P) = Some l).
Proof.
  induction fuel as [|fuel IH]; intros P w r w'; [discriminate|].
  cbn [load].
  destruct (LIs w !! Path (resolvePath P)) as [l|] eqn:Hl.
  - intros [= <- <-]. split; [apply keeps_refl|]. intros l' [= <-]. exact Hl.
  - destruct (negb (isFileValid H (resolvePath P))).
    + intros [= <- <-]. split; [apply keeps_eq; reflexivity | discriminate].
    + set (w0 := debug _ w).
      assert (H0 : LIs w0 !! Path (resolvePath P) = None) by exact Hl.
      assert (K0 : keeps w w0) by (apply keeps_eq; reflexivity).
      clearbody w0.
      destruct (files H !! Path (resolvePath P)) as [[Bin| |]|] eqn:Hf.
      * destruct (loadMachO_with H (load H fuel) _ w0) as [[LLP w1]| |] eqn:E;
          cbn; try discriminate.
        intros [= <- <-].
        apply loadMachO_with_keeps in E;
          [|intros ? ? ? ? HH; apply (IH _ _ _ _ HH) | exact H0].
        destruct E as (K1 & _ & HL).
        split; [eapply keeps_trans; [exact K0|]; exact K1|].
        intros l [= <-]. exact HL.
      * destruct (loadPE H _ w0) as [r1 w1] eqn:E. cbn.
        apply loadPE_keeps in E; [|exact H0]. destruct E as (K1 & HL).
        destruct r1 as [LLP|]; intros [= <- <-].
        -- split; [eapply keeps_trans; [exact K0|]; exact K1|].
           intros l [= <-]. apply (HL _ eq_refl).
        -- split; [eapply keeps_trans; eassumption | discriminate].
      * intros [= <- <-]. split; [exact K0 | discriminate].
      * intros [= <- <-]. split; [exact K0 | discriminate].
Qed.

Lemma load_keeping fuel : keeping (load H fuel).
Proof. intros P w r w' E. apply (load_keeps fuel P w r w' E). Qed.

(** A path whose resolved form is in the index is answered from the index:
    nothing is loaded and the state is left as it is. *)
Lemma load_hit (fuel : nat) (P : string) (w : World) (l : LibPtr) :
  LIs w !! Path (resolvePath P) = Some l ->
  load H (S fuel) P w = Ok (Some l, w).
Proof. intros Hl. cbn [load]. rewrite Hl. reflexivity. Qed.

Lemma entriesAt_one (path : string) (w : World) (l : LibPtr) :
  LIs w !! path = Some l -> length (entriesAt path w) = 1%nat.
Proof.
  intros Hl. unfold entriesAt.
  rewrite <- (map_to_list_delete (LIs w) path l Hl).
  rewrite filter_cons_True by reflexivity. simpl. f_equal.
  apply length_zero_iff_nil, elem_of_nil_inv.
  intros [k v] Hin. apply list_elem_of_filter in Hin as [Hk Hin].
  simpl in Hk. subst k. apply elem_of_map_to_list in Hin.
  rewrite lookup_delete_eq in Hin. discriminate.
Qed.

Lemma entriesAt_none (path : string) (w : World) :
  LIs w !! path = None -> entriesAt path w = [].
Proof.
  intros Hl. unfold entriesAt. apply elem_of_nil_inv.
  intros [k v] Hin. apply list_elem_of_filter in Hin as [Hk Hin].
  simpl in Hk. subst k. apply elem_of_map_to_list in Hin. congruence.
Qed.

(** C5, as amended. When [load p1] returns a record, a [load] of any path
    with the same resolved path returns that very record and leaves the state
    as it is, and the index holds exactly one entry for the resolved path. *)
Theorem load_deduplicates
    (fuel n : nat) (p1 p2 : string) (w w1 : World) (l : LibPtr)
    (Hsame : resolvePath p1 = resolvePath p2)
    (Hload : load H fuel p1 w = Ok (Some l, w1)) :
  load H (S n) p2 w1 = Ok (Some l, w1)
  /\ LIs w1 !! Path (resolvePath p1) = Some l
  /\ length (entriesAt (Path (resolvePath p1)) w1) = 1%nat.
Proof.
  destruct (load_keeps fuel p1 w (Some l) w1 Hload) as [_ Hentry].
  specialize (Hentry l eq_refl).
  split; [|split].
  - apply load_hit. rewrite <- Hsame. exact Hentry.
  - exact Hentry.
  - eapply entriesAt_one. exact Hentry.
Qed.

(** *** The failures of loadPE *)

Lemma loadPE_not_loadable (Path : string) (w : World) :
  LIs w !! Path = None ->
  freshStore w ->
  LoadPackagedLibrary H Path = 0 ->
  loadPE H Path w
  = (None, setFresh (S (fresh w)) (error H ("couldn't load DLL: " ++ Path) true w)).
Proof.
  intros Hnew Hfresh Hnull.
  unfold loadPE, assignLI. rewrite Hnew, Hnull.
  change (Z.eqb 0 0) with true. cbv iota.
  f_equal. unfold eraseLI.
  change (LIs (error H ("couldn't load DLL: " ++ Path) true
                 (setFresh (S (fresh w))
                    (setStore <[fresh w:=newDll]> (setLIs <[Path:=fresh w]> w)))))
    with (<[Path:=fresh w]> (LIs w)).
  rewrite lookup_insert_eq.
  apply World_eq; try reflexivity.
  - apply (delete_insert_id (LIs w)). exact Hnew.
  - apply (delete_insert_id (store w)). apply Hfresh. lia.
Qed.

Lemma load_PE_not_loadable (fuel : nat) (P : string) (w : World) :
  LIs w !! Path (resolvePath P) = None ->
  freshStore w ->
  isFileValid H (resolvePath P) = true ->
  files H !! Path (resolvePath P) = Some PEFile ->
  LoadPackagedLibrary H (Path (resolvePath P)) = 0 ->
  load H (S fuel) P w = Ok (None, afterFailedDLL (Path (resolvePath P)) w).
Proof.
  intros Hnew Hfresh Hvalid Hpe Hnull.
  cbn [load]. rewrite Hnew, Hvalid, Hpe. cbn [negb].
  rewrite loadPE_not_loadable; [reflexivity | exact Hnew | exact Hfresh | exact Hnull].
Qed.

Lemma loadPE_no_module_information (Path : string) (w : World) :
  LIs w !! Path = None ->
  LoadPackagedLibrary H Path <> 0 ->
  GetModuleInformation H (LoadPackagedLibrary H Path) = None ->
  loadPE H Path w
  = (None,
     error H "couldn't load module information" true
       (updLib (fresh w) (withPtr (LoadPackagedLibrary H Path))
          (setFresh (S (fresh w))
             (setStore <[fresh w:=newDll]> (setLIs <[Path:=fresh w]> w))))).
Proof.
  intros Hnew Hok Hinfo.
  unfold loadPE, assignLI. rewrite Hnew.
  destruct (Z.eqb_spec (LoadPackagedLibrary H Path) 0) as [?|_]; [contradiction|].
  rewrite Hinfo. reflexivity.
Qed.

Lemma afterFailedDLL_fresh (path : string) (w : World) :
  freshStore w -> freshStore (afterFailedDLL path w).
Proof. intros Hf p Hp. simpl in *. apply Hf. lia. Qed.

(** C10. A DLL that is not in the index, whose file is valid and a PE image:
    - when [LoadPackagedLibrary] fails, [load] returns null, the index and the
      records are as before, and a later [load] of the same resolved path
      goes to the host loader again;
    - when [GetModuleInformation] fails, [load] returns null but the index
      keeps the new record, which has its module handle and nothing else (no
      address range, no mapping, no wrapper flag), and every later [load] of
      the same resolved path returns that record. *)
Theorem loadPE_failure_asymmetry
    (fuel n : nat) (P P2 : string) (w : World)
    (Hnew : LIs w !! Path (resolvePath P) = None)
    (Hfresh : freshStore w)
    (Hvalid : isFileValid H (resolvePath P) = true)
    (Hpe : files H !! Path (resolvePath P) = Some PEFile)
    (Hsame : resolvePath P2 = resolvePath P) :
  let path := Path (resolvePath P) in
  let Lib := LoadPackagedLibrary H path in
  if Z.eqb Lib 0 then
    exists w' w'',
      load H (S fuel) P w = Ok (None, w')
      /\ LIs w' = LIs w /\ store w' = store w
      /\ load H (S n) P2 w' = Ok (None, w'')
      /\ out w'' = app (out w')
                       ["Info: loading library "; path; "..." ++ nl;
                        "Error occurred: couldn't load DLL: " ++ path
                        ++ "." ++ nl ++ lastErrorMessage H ++ nl]
  else
    match GetModuleInformation H Lib with
    | None =>
        exists w',
          load H (S fuel) P w = Ok (None, w')
          /\ LIs w' = <[path := fresh w]> (LIs w)
          /\ store w' !! fresh w = Some (mkLib 0 0 false (LoadedDll Lib false))
          /\ mapped w' = mapped w
          /\ load H (S n) P2 w' = Ok (Some (fresh w), w')
    | Some _ => True
    end.
Proof.
  intros path Lib.
  destruct (Z.eqb_spec Lib 0) as [Hnull|Hok].
  - exists (afterFailedDLL path w), (afterFailedDLL path (afterFailedDLL path w)).
    split; [apply load_PE_not_loadable; assumption|].
    split; [reflexivity|]. split; [reflexivity|].
    split; [|simpl; rewrite <- !app_assoc; reflexivity].
    assert (E : path = Path (resolvePath P2)) by (rewrite Hsame; reflexivity).
    rewrite E. apply load_PE_not_loadable; rewrite ?Hsame; try assumption.
    apply afterFailedDLL_fresh, Hfresh.
  - destruct (GetModuleInformation H Lib) as [info|] eqn:Hinfo; [exact Logic.I|].
    eexists. split; [|split; [|split; [|split]]].
    + cbn [load]. rewrite Hnew, Hvalid, Hpe. cbn [negb].
      rewrite loadPE_no_module_information;
        [reflexivity | exact Hnew | exact Hok | exact Hinfo].
    + reflexivity.
    + cbn [store error debug setOut updLib setStore setFresh setLIs].
      rewrite lookup_insert_eq. apply lookup_insert_eq.
    + reflexivity.
    + apply load_hit. rewrite Hsame. apply (lookup_insert_eq (LIs w)).
Qed.

(** *** Termination of load *)

Lemma keeps_dom w w' : keeps w w' -> dom (LIs w) ⊆ dom (LIs w').
Proof.
  intros K k Hk. apply elem_of_dom in Hk as [l Hl].
  apply elem_of_dom. exists l. apply K, Hl.
Qed.

Lemma pending_keeps w w' : keeps w w' -> (pending w' <= pending w)%nat.
Proof.
  intros K. unfold pending. apply subseteq_size.
  intros k Hk. apply elem_of_difference in Hk as [Hfile Hout].
  apply elem_of_difference. split; [exact Hfile|].
  intros Hin. apply Hout. apply (keeps_dom w w' K), Hin.
Qed.

Lemma pending_insert w w1 Path l f :
  files H !! Path = Some f ->
  LIs w !! Path = None ->
  LIs w1 = <[Path := l]> (LIs w) ->
  (pending w1 < pending w)%nat.
Proof.
  intros Hf Hnone E. unfold pending. apply subset_size.
  rewrite E, dom_insert_L. split.
  - intros k Hk. apply elem_of_difference in Hk as [Hfile Hout].
    apply elem_of_difference. split; [exact Hfile|].
    intros Hin. apply Hout. apply elem_of_union. right. exact Hin.
  - intros Hsub.
    assert (Hin : Path ∈ dom (files H) ∖ dom (LIs w)).
    { apply elem_of_difference. split.
      - apply elem_of_dom. exists f. exact Hf.
      - apply not_elem_of_dom. exact Hnone. }
    apply Hsub in Hin. apply elem_of_difference in Hin as [_ Hout].
    apply Hout. apply elem_of_union. left. apply elem_of_singleton. reflexivity.
Qed.

Section Loops.

Variable ld : string -> World -> res (option LibPtr * World).
Variable bound : nat.
Hypothesis ld_keeping : keeping ld.
Hypothesis ld_terminates :
  forall P w, (pending w < bound)%nat -> ld P w <> NoFuel.

Lemma loadLibraries_terminates libs :
  forall w, (pending w < bound)%nat -> loadLibraries ld libs w <> NoFuel.
Proof.
  induction libs as [|name libs IH]; intros w Hw; simpl; [discriminate|].
  pose proof (ld_terminates name w Hw) as Hn.
  destruct (ld name w) as [[r w1]| |] eqn:E; cbn; [|discriminate|congruence].
  apply IH. pose proof (pending_keeps _ _ (ld_keeping _ _ _ _ E)). lia.
Qed.

Lemma bindSymbols_terminates LLP Slide bs :
  forall w, (pending w < bound)%nat -> bindSymbols H ld LLP Slide bs w <> NoFuel.
Proof.
  induction bs as [|b bs IH]; intros w Hw; simpl; [discriminate|].
  destruct (bindSymbol H ld LLP Slide b w) as [w1| |] eqn:E; cbn.
  - apply IH.
    pose proof (pending_keeps _ _ (bindSymbol_keeps ld LLP Slide b ld_keeping _ _ E)).
    lia.
  - discriminate.
  - exfalso. revert E. unfold bindSymbol.
    destruct (unsupportedBinding b); [discriminate|].
    destruct (negb (MachO.has_library b)); [discriminate|].
    pose proof (ld_terminates (MachO.library_name b) w Hw) as Hn.
    destruct (ld (MachO.library_name b) w) as [[r w1]| |]; cbn;
      [|discriminate|congruence].
    destruct r as [Lib|]; [|discriminate].
    destruct (store w1 !! Lib); [|discriminate].
    destruct (store w1 !! LLP); [|discriminate].
    destruct (Z.eqb _ 0); [discriminate|].
    destruct (checkInRange H _ _); discriminate.
Qed.

End Loops.

(** With more fuel than there are files outside the index, [load] does not
    run out of fuel: the recursion ends, whatever the files refer to. *)
Lemma load_terminates (fuel : nat) :
  forall P w, (pending w < fuel)%nat -> load H fuel P w <> NoFuel.
Proof.
  induction fuel as [|fuel IH]; intros P w Hw; [lia|].
  cbn [load].
  destruct (LIs w !! Path (resolvePath P)) as [l|] eqn:Hl; [discriminate|].
  destruct (negb (isFileValid H (resolvePath P))); [discriminate|].
  set (w0 := debug _ w).
  assert (H0 : LIs w0 = LIs w) by reflexivity.
  clearbody w0.
  destruct (files H !! Path (resolvePath P)) as [[Bin| |]|] eqn:Hf;
    try discriminate.
  - rewrite (loadMachO_with_split _ _ Bin w0 Hf).
    pose proof (machOMapped_index (Path (resolvePath P)) Bin w0) as Hm.
    destruct (machOMapped _ Bin w0) as [[LLP Slide] w1].
    destruct Hm as [-> Hm]. rewrite H0 in Hm.
    assert (Hp1 : (pending w1 < fuel)%nat).
    { pose proof (pending_insert w w1 _ _ _ Hf Hl Hm). lia. }
    pose proof (loadLibraries_terminates (load H fuel) fuel (load_keeping fuel) IH
                  (MachO.libraries Bin) w1 Hp1) as Hn2.
    destruct (loadLibraries _ _ w1) as [w2| |] eqn:E2; cbn;
      [|discriminate|congruence].
    assert (Hp2 : (pending w2 < fuel)%nat).
    { pose proof (pending_keeps _ _
                    (loadLibraries_keeps _ _ (load_keeping fuel) _ _ E2)). lia. }
    pose proof (bindSymbols_terminates (load H fuel) fuel (load_keeping fuel) IH
                  (fresh w0) Slide (MachO.bindings Bin) w2 Hp2) as Hn3.
    destruct (bindSymbols _ _ _ _ _ w2) as [w3| |]; cbn;
      [discriminate|discriminate|congruence].
  - destruct (loadPE H _ w0) as [[LLP|] w1]; discriminate.
Qed.

(** What [loadMachO] does depends on [load] only in states whose index
    already maps the path to the new record: every call of [load] it makes,
    for the referenced libraries and for the bindings, comes after the
    insertion. *)
Lemma loadMachO_calls_after_insert ld ld' Path w :
  keeping ld ->
  (forall P' w', LIs w' !! Path = Some (fresh w) -> ld P' w' = ld' P' w') ->
  loadMachO_with H ld Path w = loadMachO_with H ld' Path w.
Proof.
  intros Hk Hagree.
  destruct (files H !! Path) as [[Bin| |]|] eqn:Hf;
    try (unfold loadMachO_with; rewrite Hf; reflexivity).
  rewrite !(loadMachO_with_split _ Path Bin w Hf).
  pose proof (machOMapped_index Path Bin w) as Hm.
  destruct (machOMapped Path Bin w) as [[LLP Slide] w1].
  destruct Hm as [-> Hm].
  assert (Hin : LIs w1 !! Path = Some (fresh w))
    by (rewrite Hm; apply lookup_insert_eq).
  clear Hm.
  assert (Hlibs : forall libs w1,
             LIs w1 !! Path = Some (fresh w) ->
             loadLibraries ld libs w1 = loadLibraries ld' libs w1).
  { induction libs as [|name libs IH]; intros wa Ha; simpl; [reflexivity|].
    rewrite <- (Hagree name wa Ha).
    destruct (ld name wa) as [[r wb]| |] eqn:E; cbn; try reflexivity.
    apply IH. apply (Hk _ _ _ _ E), Ha. }
  assert (Hbinds : forall bs w2,
             LIs w2 !! Path = Some (fresh w) ->
             bindSymbols H ld (fresh w) Slide bs w2
             = bindSymbols H ld' (fresh w) Slide bs w2).
  { induction bs as [|b bs IH]; intros wa Ha; simpl; [reflexivity|].
    assert (Eb : bindSymbol H ld (fresh w) Slide b wa
                 = bindSymbol H ld' (fresh w) Slide b wa).
    { unfold bindSymbol. rewrite <- (Hagree _ wa Ha). reflexivity. }
    rewrite <- Eb.
    destruct (bindSymbol H ld (fresh w) Slide b wa) as [wb| |] eqn:E; cbn;
      try reflexivity.
    apply IH. apply (bindSymbol_keeps ld _ _ _ Hk _ _ E), Ha. }
  rewrite <- (Hlibs _ w1 Hin).
  destruct (loadLibraries ld _ w1) as [w2| |] eqn:E2; cbn; try reflexivity.
  rewrite <- Hbinds; [reflexivity|].
  apply (loadLibraries_keeps ld _ Hk _ _ E2), Hin.
Qed.

(** *** What load ends in *)

(** The states differ in fields other than the index, the store and the
    fresh pointer. *)
Ltac index_untouched :=
  split; [reflexivity | split; [reflexivity | intros ? Hsome; exact Hsome]].

Lemma sameIndex_refl w : sameIndex w w.
Proof. index_untouched. Qed.

Lemma sameIndex_trans w1 w2 w3 :
  sameIndex w1 w2 -> sameIndex w2 w3 -> sameIndex w1 w3.
Proof.
  intros (L12 & F12 & S12) (L23 & F23 & S23).
  split; [congruence|]. split; [congruence|]. auto.
Qed.

Lemma wellFormed_sameIndex w w' : wellFormed w -> sameIndex w w' -> wellFormed w'.
Proof.
  intros Hwf (HL & HF & HS) k l Hk. rewrite HL in Hk.
  destruct (Hwf k l Hk) as [Hs Hl]. split; [apply HS, Hs | rewrite HF; exact Hl].
Qed.

Lemma sameIndex_setMem f w : sameIndex w (setMem f w).
Proof. index_untouched. Qed.

Lemma sameIndex_mapMemory a s p w : sameIndex w (mapMemory H a s p w).
Proof.
  unfold mapMemory. destruct (uc_mem_map_ptr H _ _ _ _); index_untouched.
Qed.

Lemma sameIndex_updLib LLP f w : sameIndex w (updLib LLP f w).
Proof.
  split; [reflexivity|]. split; [reflexivity|].
  intros l Hl. cbn [store updLib setStore].
  destruct (store w !! LLP) as [LL|] eqn:E; [|exact Hl].
  destruct (decide (LLP = l)) as [<-|Hne].
  - rewrite lookup_insert_eq. eauto.
  - rewrite lookup_insert_ne by exact Hne. exact Hl.
Qed.

Lemma sameIndex_relocate lo sl va vs w r : sameIndex w (relocate H lo sl va vs w r).
Proof.
  unfold relocate.
  repeat match goal with |- context [if ?b then _ else _] => destruct b end;
    index_untouched.
Qed.

Lemma sameIndex_fold_relocate lo sl va vs rels :
  forall w, sameIndex w (fold_left (relocate H lo sl va vs) rels w).
Proof.
  induction rels as [|r rels IH]; intros w; simpl; [apply sameIndex_refl|].
  eapply sameIndex_trans; [apply sameIndex_relocate | apply IH].
Qed.

Lemma sameIndex_loadSegment lo sl w seg : sameIndex w (loadSegment H lo sl w seg).
Proof.
  unfold loadSegment.
  set (w1 := if Z.eqb _ UC_PROT_NONE then _ else _).
  assert (H1 : sameIndex w w1).
  { unfold w1. destruct (Z.eqb _ UC_PROT_NONE); [apply sameIndex_mapMemory|].
    destruct (Z.ltb _ _).
    - eapply sameIndex_trans; [apply sameIndex_setMem|].
      eapply sameIndex_trans; [apply sameIndex_mapMemory|].
      apply sameIndex_setMem.
    - eapply sameIndex_trans; [apply sameIndex_setMem|].
      apply sameIndex_mapMemory. }
  clearbody w1.
  destruct (Z.ltb 0 sl); [|exact H1].
  eapply sameIndex_trans; [exact H1 | apply sameIndex_fold_relocate].
Qed.

Lemma sameIndex_fold_loadSegment lo sl segs :
  forall w, sameIndex w (fold_left (loadSegment H lo sl) segs w).
Proof.
  induction segs as [|s segs IH]; intros w; simpl; [apply sameIndex_refl|].
  eapply sameIndex_trans; [apply sameIndex_loadSegment | apply IH].
Qed.

Lemma sameIndex_fold_segmentRange segs :
  forall lo hi w, sameIndex w (fold_left (segmentRange H) segs (lo, hi, w)).2.
Proof.
  induction segs as [|s segs IH]; intros lo hi w; simpl; [apply sameIndex_refl|].
  eapply sameIndex_trans; [|apply IH].
  destruct (_ || _)%bool; index_untouched.
Qed.

Lemma wellFormed_assignLI Path LL w :
  wellFormed w -> LIs w !! Path = None -> wellFormed (assignLI Path LL w).2.
Proof.
  intros Hwf Hnone k l. unfold assignLI. rewrite Hnone.
  cbn [snd LIs store fresh setFresh setStore setLIs].
  destruct (decide (Path = k)) as [<-|Hne].
  - rewrite lookup_insert_eq. intros [= <-].
    rewrite lookup_insert_eq. split; [eauto | lia].
  - rewrite lookup_insert_ne by exact Hne. intros Hk.
    destruct (Hwf k l Hk) as [Hs Hl].
    rewrite lookup_insert_ne by lia. split; [exact Hs | lia].
Qed.

Lemma machOMapped_wellFormed Path Bin w :
  wellFormed w -> LIs w !! Path = None -> wellFormed (machOMapped Path Bin w).2.
Proof.
  intros Hwf Hnone.
  pose proof (wellFormed_assignLI Path (newDylib Bin) w Hwf Hnone) as H0.
  unfold machOMapped.
  destruct (assignLI Path (newDylib Bin) w) as [LLP w0]. cbn [snd] in H0.
  set (wa := if negb (MachO.cpu_eqb _ _) then _ else w0).
  assert (Ha : sameIndex w0 wa) by (unfold wa; destruct (negb _); index_untouched).
  clearbody wa.
  set (wb := if MachO.has _ _ then _ else wa).
  assert (Hb : sameIndex wa wb) by (unfold wb; destruct (MachO.has _ _); index_untouched).
  clearbody wb.
  set (wc := if negb (canSegmentsSlide Bin) then _ else wb).
  assert (Hc : sameIndex wb wc) by (unfold wc; destruct (negb _); index_untouched).
  clearbody wc.
  pose proof (sameIndex_fold_segmentRange (MachO.segments Bin) (2 ^ 64 - 1) 0 wc) as Hd.
  destruct (fold_left (segmentRange H) (MachO.segments Bin) _) as [[lo hi] wd].
  cbn [snd] in Hd |- *.
  eapply wellFormed_sameIndex; [exact H0|].
  eapply sameIndex_trans; [exact Ha|]. eapply sameIndex_trans; [exact Hb|].
  eapply sameIndex_trans; [exact Hc|]. eapply sameIndex_trans; [exact Hd|].
  eapply sameIndex_trans; [|apply sameIndex_fold_loadSegment].
  eapply sameIndex_trans; [|apply sameIndex_updLib].
  destruct (Z.eqb _ 0); index_untouched.
Qed.

Lemma loadPE_wellFormed Path w :
  wellFormed w -> LIs w !! Path = None -> wellFormed (loadPE H Path w).2.
Proof.
  intros Hwf Hnone.
  pose proof (wellFormed_assignLI Path newDll w Hwf Hnone) as H0.
  unfold loadPE.
  assert (E0 : LIs (assignLI Path newDll w).2 = <[Path := fresh w]> (LIs w)
               /\ store (assignLI Path newDll w).2 = <[fresh w := newDll]> (store w)
               /\ fresh (assignLI Path newDll w).2 = S (fresh w)).
  { unfold assignLI. rewrite Hnone. repeat split. }
  destruct (assignLI Path newDll w) as [LLP w0]. cbn [snd] in H0, E0.
  destruct E0 as (EL & ES & EF).
  destruct (Z.eqb (LoadPackagedLibrary H Path) 0).
  - cbn [snd]. intros k l. unfold eraseLI. cbn [LIs error debug setOut].
    rewrite EL, lookup_insert_eq.
    cbn [LIs store fresh setLIs setStore error debug setOut].
    rewrite EL, ES, EF, (delete_insert_id (LIs w)) by exact Hnone.
    intros Hk. destruct (Hwf k l Hk) as [Hs Hl].
    rewrite lookup_delete_ne by lia. rewrite lookup_insert_ne by lia.
    split; [exact Hs | lia].
  - set (w1 := updLib LLP _ w0).
    assert (H1 : sameIndex w0 w1) by apply sameIndex_updLib.
    clearbody w1.
    destruct (GetModuleInformation H _) as [[base sz]|]; cbn [snd].
    + set (w2 := if negb _ then _ else _).
      assert (H2 : sameIndex w1 w2)
        by (unfold w2; destruct (negb _); apply sameIndex_updLib).
      clearbody w2.
      destruct (match store w2 !! LLP with Some _ => _ | None => _ end) as [st sz'].
      cbn [snd].
      eapply wellFormed_sameIndex; [exact H0|].
      eapply sameIndex_trans; [exact H1|]. eapply sameIndex_trans; [exact H2|].
      apply sameIndex_mapMemory.
    + eapply wellFormed_sameIndex; [exact H0|].
      eapply sameIndex_trans; [exact H1 | index_untouched].
Qed.

Section SoundLoops.

Variable ld : string -> World -> res (option LibPtr * World).
Hypothesis ld_keeping : keeping ld.
Hypothesis ld_sound : forall P w, wellFormed w -> sound (ld P w).
Hypothesis ld_entry :
  forall P w l w', ld P w = Ok (Some l, w') -> exists k, LIs w' !! k = Some l.

Lemma loadLibraries_sound libs :
  forall w, wellFormed w ->
            match loadLibraries ld libs w with
            | Ok w' => wellFormed w'
            | Fault => rangeCheckFails
            | NoFuel => True
            end.
Proof.
  induction libs as [|name libs IH]; intros w Hwf; simpl; [exact Hwf|].
  pose proof (ld_sound name w Hwf) as Hs.
  destruct (ld name w) as [[r w1]| |]; cbn; [apply IH, Hs | exact Hs | exact Logic.I].
Qed.

Lemma bindSymbol_sound Path LLP Slide b w :
  wellFormed w -> LIs w !! Path = Some LLP ->
  match bindSymbol H ld LLP Slide b w with
  | Ok w' => wellFormed w'
  | Fault => rangeCheckFails
  | NoFuel => True
  end.
Proof.
  intros Hwf Hin. unfold bindSymbol.
  destruct (unsupportedBinding b); [exact Hwf|].
  destruct (negb (MachO.has_library b)); [exact Hwf|].
  pose proof (ld_sound (MachO.library_name b) w Hwf) as Hs.
  destruct (ld (MachO.library_name b) w) as [[r w1]| |] eqn:E; cbn;
    [|exact Hs|exact Logic.I].
  cbn in Hs.
  destruct r as [Lib|]; [|exact Hs].
  destruct (ld_entry _ _ _ _ E) as [k Hk].
  destruct (Hs k Lib Hk) as [[LibRec HLib] _].
  destruct (Hs Path LLP (ld_keeping _ _ _ _ E _ _ Hin)) as [[LL HLL] _].
  rewrite HLib, HLL.
  destruct (Z.eqb _ 0); [exact Hs|].
  destruct (checkInRange H LL _) eqn:Hc; [exact Hs|].
  exists LL, (wrap64 (MachO.b_address b + Slide)). exact Hc.
Qed.

Lemma bindSymbols_sound Path LLP Slide bs :
  forall w, wellFormed w -> LIs w !! Path = Some LLP ->
            match bindSymbols H ld LLP Slide bs w with
            | Ok w' => wellFormed w'
            | Fault => rangeCheckFails
            | NoFuel => True
            end.
Proof.
  induction bs as [|b bs IH]; intros w Hwf Hin; simpl; [exact Hwf|].
  pose proof (bindSymbol_sound Path LLP Slide b w Hwf Hin) as Hs.
  destruct (bindSymbol H ld LLP Slide b w) as [w1| |] eqn:E; cbn;
    [|exact Hs|exact Logic.I].
  apply IH; [exact Hs|].
  apply (bindSymbol_keeps ld LLP Slide b ld_keeping _ _ E), Hin.
Qed.

End SoundLoops.

(** From a well-formed state, [load] ends in a well-formed state, unless
    [checkInRange] raises its exception. *)
Lemma load_sound (fuel : nat) :
  forall P w, wellFormed w -> sound (load H fuel P w).
Proof.
  induction fuel as [|fuel IH]; intros P w Hwf; [exact Logic.I|].
  cbn [load].
  destruct (LIs w !! Path (resolvePath P)) as [l|] eqn:Hl; [exact Hwf|].
  destruct (negb (isFileValid H (resolvePath P))); [exact Hwf|].
  set (w0 := debug _ w).
  assert (H0 : wellFormed w0) by exact Hwf.
  assert (Hl0 : LIs w0 !! Path (resolvePath P) = None) by exact Hl.
  clearbody w0.
  assert (Hentry : forall P w l w', load H fuel P w = Ok (Some l, w') ->
                                    exists k, LIs w' !! k = Some l).
  { intros P' w' l w'' E. exists (Path (resolvePath P')).
    apply (load_keeps fuel P' w' (Some l) w'' E). reflexivity. }
  destruct (files H !! Path (resolvePath P)) as [[Bin| |]|] eqn:Hf;
    try exact H0.
  - rewrite (loadMachO_with_split _ _ Bin w0 Hf).
    pose proof (machOMapped_index (Path (resolvePath P)) Bin w0) as Hm.
    pose proof (machOMapped_wellFormed (Path (resolvePath P)) Bin w0 H0 Hl0) as Hw1.
    destruct (machOMapped _ Bin w0) as [[LLP Slide] w1].
    destruct Hm as [-> Hm]. cbn [snd] in Hw1.
    pose proof (loadLibraries_sound (load H fuel) IH (MachO.libraries Bin) w1 Hw1)
      as Hs2.
    destruct (loadLibraries _ _ w1) as [w2| |] eqn:E2; cbn;
      [|exact Hs2|exact Logic.I].
    assert (Hin2 : LIs w2 !! Path (resolvePath P) = Some (fresh w0)).
    { apply (loadLibraries_keeps _ _ (load_keeping fuel) _ _ E2).
      rewrite Hm. apply lookup_insert_eq. }
    pose proof (bindSymbols_sound (load H fuel) (load_keeping fuel) IH Hentry
                  (Path (resolvePath P)) (fresh w0) Slide (MachO.bindings Bin)
                  w2 Hs2 Hin2) as Hs3.
    destruct (bindSymbols _ _ _ _ _ w2) as [w3| |]; cbn;
      [|exact Hs3|exact Logic.I].
    eapply wellFormed_sameIndex; [exact Hs3 | apply sameIndex_updLib].
  - pose proof (loadPE_wellFormed (Path (resolvePath P)) w0 H0 Hl0) as Hs.
    destruct (loadPE H _ w0) as [[LLP|] w1]; cbn in Hs |- *; [|exact Hs].
    eapply wellFormed_sameIndex; [exact Hs | apply sameIndex_updLib].
Qed.

(** C9. [loadMachO] puts the new record in the index before it loads the
    referenced libraries and resolves the bindings: all its calls of [load]
    are made in states where the index maps the path to that record; there a
    [load] of the path returns the record without loading anything; and
    [load] does not run out of fuel once the fuel exceeds the number of files
    outside the index, so it comes to an end on every dependency graph,
    cyclic or not: from a well-formed state it returns, in a well-formed
    state, unless [checkInRange] raises its exception. *)
Theorem load_terminates_on_cycles
    (fuel : nat) (P : string) (w : World) (Hfuel : (pending w < fuel)%nat) :
  load H fuel P w <> NoFuel
  /\ (forall n Path w0,
        loadMachO H n Path w0
        = loadMachO_with H
            (fun P' w' =>
               match LIs w' !! Path with
               | Some l => if Nat.eqb l (fresh w0) then load H n P' w' else Fault
               | None => Fault
               end) Path w0)
  /\ (forall n P' w' l,
        LIs w' !! Path (resolvePath P') = Some l ->
        load H (S n) P' w' = Ok (Some l, w'))
  /\ (wellFormed w ->
      (exists r w', load H fuel P w = Ok (r, w') /\ wellFormed w')
      \/ (load H fuel P w = Fault /\ rangeCheckFails)).
Proof.
  split; [apply load_terminates, Hfuel|]. split; [|split].
  - intros n Path0 w0. unfold loadMachO.
    apply loadMachO_calls_after_insert; [apply load_keeping|].
    intros P' w' Hin. rewrite Hin, Nat.eqb_refl. reflexivity.
  - intros n P' w' l Hl. apply load_hit, Hl.
  - intros Hwf.
    pose proof (load_terminates fuel P w Hfuel) as Hn.
    pose proof (load_sound fuel P w Hwf) as Hs.
    destruct (load H fuel P w) as [[r w']| |].
    + left. exists r, w'. split; [reflexivity | exact Hs].
    + right. split; [reflexivity | exact Hs].
    + contradiction.
Qed.

(** [loadMachO] never returns null: whatever the header says, a Mach-O file
    that is not in the index yet gets a record, or the load does not return. *)
Lemma load_MachO_not_null (fuel : nat) (P : string) (w w' : World)
    (r : option LibPtr) (Bin : MachO.Binary) :
  LIs w !! Path (resolvePath P) = None ->
  isFileValid H (resolvePath P) = true ->
  files H !! Path (resolvePath P) = Some (MachOFile Bin) ->
  load H fuel P w = Ok (r, w') ->
  r = Some (fresh w) /\ LIs w' !! Path (resolvePath P) = Some (fresh w).
Proof.
  intros Hnew Hvalid Hf. destruct fuel as [|fuel]; [discriminate|].
  cbn [load]. rewrite Hnew, Hvalid, Hf. cbn.
  set (w0 := debug _ w).
  destruct (loadMachO_with H (load H fuel) _ w0) as [[LLP w1]| |] eqn:E;
    cbn; try discriminate.
  apply loadMachO_with_keeps in E; [|apply load_keeping|exact Hnew].
  destruct E as (_ & -> & HL).
  intros [= <- <-]. split; [reflexivity|]. exact HL.
Qed.

(** ** Relocation *)

Lemma read32_write32_same (m : Mem) (a v : Z) :
  read32 (write32 m a v) a = wrap32 v.
Proof.
  unfold read32, write32, wrap32.
  rewrite Z.eqb_refl.
  replace (Z.eqb (a + 1) a) with false by (symmetry; apply Z.eqb_neq; lia).
  replace (Z.eqb (a + 2) a) with false by (symmetry; apply Z.eqb_neq; lia).
  replace (Z.eqb (a + 3) a) with false by (symmetry; apply Z.eqb_neq; lia).
  replace (Z.eqb (a + 2) (a + 1)) with false by (symmetry; apply Z.eqb_neq; lia).
  replace (Z.eqb (a + 3) (a + 1)) with false by (symmetry; apply Z.eqb_neq; lia).
  replace (Z.eqb (a + 3) (a + 2)) with false by (symmetry; apply Z.eqb_neq; lia).
  rewrite !Z.eqb_refl.
  change (2 ^ 8) with 256. change (2 ^ 16) with 65536.
  change (2 ^ 24) with 16777216. change (2 ^ 32) with 4294967296.
  rewrite !Zmod_mod.
  Z.div_mod_to_equations. lia.
Qed.

(** What the body of the relocation loop does to the word at its target,
    whether or not it has reported the target as out of range: a word that is
    not zero has the slide added, a zero word stays. *)
Lemma relocate_target (LowAddr Slide VAddr VSize : Z) (w : World)
    (Rel : MachO.Relocation) :
  let Val := wrap32 (wrap64 (wrap64 (LowAddr + Slide) + MachO.r_address Rel)) in
  let w' := relocate H LowAddr Slide VAddr VSize w Rel in
  if Z.eqb (read32 (mem w) Val) 0
  then mem w' = mem w
  else read32 (mem w') Val = wrap32 (read32 (mem w) Val + Slide).
Proof.
  intros Val w'. subst w'. unfold relocate. fold Val.
  set (w1 := if unsupportedRelocation Rel then _ else w).
  assert (E1 : mem w1 = mem w) by (unfold w1; destruct (unsupportedRelocation Rel); reflexivity).
  set (w2 := if (_ || _)%bool then _ else w1).
  assert (E2 : mem w2 = mem w)
    by (unfold w2; destruct (_ || _)%bool; [exact E1 | exact E1]).
  clearbody w2. clear w1 E1.
  rewrite E2.
  destruct (Z.eqb (read32 (mem w) Val) 0); simpl.
  - exact E2.
  - rewrite E2, read32_write32_same. unfold wrap32. apply Z.mod_mod. lia.
Qed.

(** ** The fetch-protection hook *)

Lemma dispatch_not_wrapper Addr AI w :
  dispatch H Addr AI false w
  = Ok (true, writeReg UC_ARM_REG_PC Addr (logFetch Addr AI false w)).
Proof. reflexivity. Qed.

Lemma logFetch_flags Addr AI Wrapper w :
  let w' := logFetch Addr AI Wrapper w in
  regs w' = regs w /\ Continue w' = Continue w
  /\ Continuation w' = Continuation w /\ Restart w' = Restart w
  /\ Running w' = Running w /\ stopRequested w' = stopRequested w
  /\ LRs w' = LRs w.
Proof.
  unfold logFetch, dumpAddrIn.
  destruct AI as [[p l]|], Wrapper; repeat split.
Qed.

Lemma dispatch_wrapper Addr AI w :
  Continue w = false ->
  dispatch H Addr AI true w
  = Ok (true,
        setFlags true false (Restart w) true
          (Some (CallWrapper Addr (readReg UC_ARM_REG_R0 w)))
          (logFetch Addr AI true w)).
Proof.
  intros HC. unfold dispatch, continueOutsideEmulation. fold (logFetch Addr AI true w).
  destruct (logFetch_flags Addr AI true w) as (Hr & Hc & _ & Hre & _).
  cbn [negb]. rewrite Hc, HC, Hre. unfold readReg. rewrite Hr. reflexivity.
Qed.

(** C1, as amended. When the faulting address lies in a library that is not a
    wrapper DLL and its RVA is in the [WrapperIndex], the hook loads the dylib
    the entry names, takes the address of its symbol [$__ipaSim_wraps_<RVA>]
    as the new target, writes that address to the guest PC and returns true;
    it defers nothing and leaves the flags as the loads left them. The hook
    reads R0 and defers the call of the target as [void(uint32)], followed by
    [returnToEmulation], when the faulting address lies in a wrapper DLL. *)
Theorem fetch_hit_sets_PC
    (fuel : nat) (Addr Target : Z) (w w1 w2 : World)
    (LibPath Dylib : string) (Lib WrapperLib WrapperDylib Entry : nat)
    (LibRec WrapperRec LibRec1 DylibRec : LoadedLibrary)
    (AI : string * LibPtr)
    (Hlookup : lookup Addr w = Some (LibPath, Lib))
    (Hrec : store w !! Lib = Some LibRec)
    (Hplain : IsWrapperDLL LibRec = false)
    (Hload1 : load H fuel (wrapperPathOf LibPath) w = Ok (Some WrapperLib, w1))
    (Hwrec : store w1 !! WrapperLib = Some WrapperRec)
    (Hrec1 : store w1 !! Lib = Some LibRec1)
    (Hhit : Map (wrapperIndexAt H (findSymbol H WrapperRec "?Idx@@3UWrapperIndex@@A"))
              !! wrap64 (Addr - StartAddress LibRec1 + 0x1000) = Some Entry)
    (Hdylib : Dylibs (wrapperIndexAt H (findSymbol H WrapperRec "?Idx@@3UWrapperIndex@@A"))
                !! Entry = Some Dylib)
    (Hload2 : load H fuel Dylib w1 = Ok (Some WrapperDylib, w2))
    (Hdrec : store w2 !! WrapperDylib = Some DylibRec)
    (Hsym : findSymbol H DylibRec
              ("$__ipaSim_wraps_"
               ++ to_string (wrap64 (Addr - StartAddress LibRec1 + 0x1000)))
            = Target)
    (Hfound : Target <> 0)
    (Hlookup2 : lookup Target w2 = Some AI) :
  (exists w',
      handleFetchProtMem H fuel Addr w = Ok (true, w')
      /\ w' = writeReg UC_ARM_REG_PC Target (logFetch Target (Some AI) false w2)
      /\ readReg UC_ARM_REG_PC w' = wrap32 Target
      /\ Continue w' = Continue w2 /\ Continuation w' = Continuation w2
      /\ Restart w' = Restart w2 /\ stopRequested w' = stopRequested w2)
  /\ (forall Addr0 w0 LibPath0 Lib0 LibRec0,
        lookup Addr0 w0 = Some (LibPath0, Lib0) ->
        store w0 !! Lib0 = Some LibRec0 ->
        IsWrapperDLL LibRec0 = true ->
        Continue w0 = false ->
        exists w',
          handleFetchProtMem H fuel Addr0 w0 = Ok (true, w')
          /\ Continue w' = true
          /\ Continuation w' = Some (CallWrapper Addr0 (readReg UC_ARM_REG_R0 w0))
          /\ Running w' = false /\ stopRequested w' = true
          /\ regs w' = regs w0
          /\ forall wk,
               runContinuation H (CallWrapper Addr0 (readReg UC_ARM_REG_R0 w0)) wk
               = returnToEmulation H
                   (hostCall H (wrap32 Addr0) [readReg UC_ARM_REG_R0 w0] wk).2).
Proof.
  split.
  - eexists. split; [|split; [reflexivity|]].
    + unfold handleFetchProtMem.
      rewrite Hlookup, Hrec, Hplain, Hload1. cbn [mbind res_mbind res_bind].
      rewrite Hwrec, Hrec1, Hhit, Hdylib, Hload2. cbn [mbind res_mbind res_bind].
      rewrite Hdrec, Hsym.
      destruct (Z.eqb_spec Target 0) as [?|_]; [contradiction|].
      rewrite Hlookup2. apply dispatch_not_wrapper.
    + destruct (logFetch_flags Target (Some AI) false w2)
        as (Hr & Hc & Hk & Hre & Hru & Hs & _).
      split; [apply readReg_writeReg_same|].
      cbn. auto.
  - intros Addr0 w0 LibPath0 Lib0 LibRec0 Hl Hr Hw HC.
    eexists. split; [|split; [|split; [|split; [|split; [|split]]]]].
    + unfold handleFetchProtMem. rewrite Hl, Hr, Hw.
      apply dispatch_wrapper, HC.
    + reflexivity.
    + reflexivity.
    + reflexivity.
    + reflexivity.
    + cbn. apply (logFetch_flags Addr0 (Some (LibPath0, Lib0)) true w0).
    + intros wk. unfold runContinuation.
      destruct (hostCall H (wrap32 Addr0) [readReg UC_ARM_REG_R0 w0] wk).
      reflexivity.
Qed.

End Translator.

(** * Runs on the demonstration host *)

Lemma run_returns {A : Type} (r : res (A * World)) (a : A) :
  Demo.resultOf r = Some a -> r = Ok (a, Demo.stateOf r).
Proof. destruct r as [[a' w]| |]; simpl; intros [= ->]; reflexivity. Qed.

(** C2, on an image for another processor: the loader reports that it
    expected an ARM binary, and goes on to map the image, keeps its record in
    the index and returns it. *)
Lemma load_x86_returns_record :
  exists w',
    load Demo.host 2 "x86.dylib" Demo.start = Ok (Some 0%nat, w')
    /\ In ("Error occurred: expected ARM binary." ++ nl) (out w')
    /\ LIs w' !! "x86.dylib" = Some 0%nat
    /\ mapped w' = (mapped Demo.start ++ [(0x20100000, 0x1000, 3)])%list.
Proof.
  exists (Demo.stateOf (load Demo.host 2 "x86.dylib" Demo.start)).
  split; [apply run_returns; vm_compute; reflexivity|].
  split; [vm_compute; auto|]. split; vm_compute; reflexivity.
Qed.

(** C4, on a relocation whose target lies outside its segment: the loader
    reports the target as out of range and adds the slide to the word all the
    same (the word held 1, the image is loaded at 0x20100000). *)
Lemma relocation_out_of_range_is_applied :
  exists w',
    load Demo.host 2 "reloc.dylib" Demo.start = Ok (Some 0%nat, w')
    /\ In ("Error occurred: relocation target out of range." ++ nl) (out w')
    /\ (StartAddress <$> store w' !! 0%nat) = Some 0x20100000
    /\ read32 (mem w') (0x20100000 + 0x1004) = 1 + 0x20100000.
Proof.
  exists (Demo.stateOf (load Demo.host 2 "reloc.dylib" Demo.start)).
  split; [apply run_returns; vm_compute; reflexivity|].
  split; [vm_compute; auto|]. split; vm_compute; reflexivity.
Qed.

(** C1, refuted as stated: [Foundation.dll] is not a wrapper DLL and the RVA
    of the faulting address is in the index of its wrapper DLL, yet the hook
    defers no call. *)
Lemma fetch_hit_defers_nothing :
  ~ defersWrapperCall Demo.host 3 0x10002000 Demo.withFoundation.
Proof.
  intros (w' & Target & Hrun & Hcont & _).
  assert (E : match handleFetchProtMem Demo.host 3 0x10002000 Demo.withFoundation with
              | Ok (_, w) => Continue w
              | _ => true
              end = false) by (vm_compute; reflexivity).
  rewrite Hrun in E. congruence.
Qed.

(** C5, refuted as stated: two loads of a file that does not exist return
    the same (null) result, and the index holds no entry for the path. *)
Lemma load_missing_file_no_entry :
  resolvePath "missing.dll" = resolvePath "missing.dll"
  /\ ~ sameRecordOnce Demo.host 2 "missing.dll" "missing.dll" Demo.start.
Proof.
  split; [reflexivity|].
  intros (r & w1 & w2 & H1 & H2 & Hlen).
  assert (Hv : isFileValid Demo.host (resolvePath "missing.dll") = false)
    by (vm_compute; reflexivity).
  assert (Hp : LIs Demo.start !! Path (resolvePath "missing.dll") = None)
    by (vm_compute; reflexivity).
  assert (E : forall w,
             LIs w !! Path (resolvePath "missing.dll") = None ->
             load Demo.host 2 "missing.dll" w
             = Ok (None, error Demo.host "invalid file: missing.dll" false w)).
  { intros w Hw. cbn [load]. rewrite Hw, Hv. reflexivity. }
  rewrite (E _ Hp) in H1.
  assert (r = None /\ w1 = error Demo.host "invalid file: missing.dll" false Demo.start)
    as [-> ->] by (split; congruence).
  rewrite (E (error Demo.host "invalid file: missing.dll" false Demo.start) Hp) in H2.
  assert (w2 = error Demo.host "invalid file: missing.dll" false
                 (error Demo.host "invalid file: missing.dll" false Demo.start))
    as -> by congruence.
  rewrite entriesAt_none in Hlen; [discriminate|exact Hp].
Qed.

(** The calls of C7 on a method with five arguments, one of them of two
    words: four words come from R0..R3, two from the stack. *)
Lemma dynamicCaller_witness :
  Forall (fun k => 4 * Z.of_nat k < 2 ^ 32 /\ (k <= 4)%nat) [1; 1; 2; 1; 1]%nat
  /\ exists DC,
       loadArgList 4 [4; 4; 8; 4; 4] newDynamicCaller Demo.start = Ok DC
       /\ Args DC = [10; 11; 12; 13; 20; 21]
       /\ call Demo.host DC true 0x10002000 Demo.start
          = Ok (true, writeReg UC_ARM_REG_R0 0 Demo.start).
Proof.
  assert (Hks : Forall (fun k => 4 * Z.of_nat k < 2 ^ 32 /\ (k <= 4)%nat)
                       [1; 1; 2; 1; 1]%nat)
    by (repeat constructor; vm_compute; reflexivity).
  split; [exact Hks|].
  destruct (dynamicCaller_stages_and_calls Demo.host Demo.start 4
              [1; 1; 2; 1; 1]%nat true 0x10002000 Hks) as (DC & H1 & H2 & H3).
  exists DC. split; [exact H1|]. split; [rewrite H2; vm_compute; reflexivity|].
  exact H3.
Defined.

(** The loads of C5 on the two spellings of the path of the wrappers. *)
Lemma load_deduplicates_witness :
  resolvePath Demo.wrappersPath
  = resolvePath "gen\System\Library\Frameworks\Foundation.framework\Foundation"
  /\ load Demo.host 2 Demo.wrappersPath Demo.start
     = Ok (Some 0%nat, Demo.withWrappers)
  /\ load Demo.host 1
       "gen\System\Library\Frameworks\Foundation.framework\Foundation"
       Demo.withWrappers
     = Ok (Some 0%nat, Demo.withWrappers)
  /\ length (entriesAt (Path (resolvePath Demo.wrappersPath)) Demo.withWrappers)
     = 1%nat.
Proof.
  assert (Hsame : resolvePath Demo.wrappersPath
                  = resolvePath "gen\System\Library\Frameworks\Foundation.framework\Foundation")
    by (vm_compute; reflexivity).
  assert (Hload : load Demo.host 2 Demo.wrappersPath Demo.start
                  = Ok (Some 0%nat, Demo.withWrappers))
    by (unfold Demo.withWrappers; apply run_returns; vm_compute; reflexivity).
  destruct (load_deduplicates Demo.host 2 0 _ _ _ _ _ Hsame Hload) as (H1 & _ & H3).
  split; [exact Hsame|]. split; [exact Hload|]. split; [exact H1 | exact H3].
Defined.

(** The two failures of C10: [locked.dll] cannot be loaded by the host,
    [opaque.dll] is loaded but its module information cannot be read. *)
Lemma loadPE_failure_witness :
  (LIs Demo.start !! Path (resolvePath "locked.dll") = None
   /\ isFileValid Demo.host (resolvePath "locked.dll") = true
   /\ files Demo.host !! Path (resolvePath "locked.dll") = Some PEFile)
  /\ (exists w' w'',
        load Demo.host 2 "locked.dll" Demo.start = Ok (None, w')
        /\ LIs w' = LIs Demo.start /\ store w' = store Demo.start
        /\ load Demo.host 1 "locked.dll" w' = Ok (None, w'')
        /\ length (out w'') = (length (out w') + 4)%nat)
  /\ (exists w',
        load Demo.host 2 "opaque.dll" Demo.start = Ok (None, w')
        /\ LIs w' !! "opaque.dll" = Some 0%nat
        /\ store w' !! 0%nat = Some (mkLib 0 0 false (LoadedDll 0x12000000 false))
        /\ mapped w' = mapped Demo.start
        /\ load Demo.host 1 "opaque.dll" w' = Ok (Some 0%nat, w')).
Proof.
  assert (Hfresh : freshStore Demo.start) by (intros p _; apply lookup_empty).
  assert (Hl : LIs Demo.start !! Path (resolvePath "locked.dll") = None
               /\ isFileValid Demo.host (resolvePath "locked.dll") = true
               /\ files Demo.host !! Path (resolvePath "locked.dll") = Some PEFile)
    by (repeat split; vm_compute; reflexivity).
  assert (Ho : LIs Demo.start !! Path (resolvePath "opaque.dll") = None
               /\ isFileValid Demo.host (resolvePath "opaque.dll") = true
               /\ files Demo.host !! Path (resolvePath "opaque.dll") = Some PEFile)
    by (repeat split; vm_compute; reflexivity).
  split; [exact Hl|]. split.
  - destruct Hl as (H1 & H2 & H3).
    pose proof (loadPE_failure_asymmetry Demo.host 1 0 "locked.dll" "locked.dll"
                  Demo.start H1 Hfresh H2 H3 eq_refl) as T.
    cbv zeta in T.
    change (LoadPackagedLibrary Demo.host (Path (resolvePath "locked.dll")))
      with 0 in T.
    cbv iota beta delta [Z.eqb] in T.
    destruct T as (w' & w'' & T1 & T2 & T3 & T4 & T5).
    exists w', w''. repeat (split; [assumption|]).
    rewrite T5, length_app. reflexivity.
  - destruct Ho as (H1 & H2 & H3).
    pose proof (loadPE_failure_asymmetry Demo.host 1 0 "opaque.dll" "opaque.dll"
                  Demo.start H1 Hfresh H2 H3 eq_refl) as T.
    cbv zeta in T.
    change (LoadPackagedLibrary Demo.host (Path (resolvePath "opaque.dll")))
      with 0x12000000 in T.
    change (GetModuleInformation Demo.host 0x12000000) with (@None (Z * Z)) in T.
    cbv iota beta delta [Z.eqb] in T.
    destruct T as (w' & T1 & T2 & T3 & T4 & T5).
    exists w'. split; [exact T1|]. split.
    + rewrite T2. reflexivity.
    + split; [exact T3|]. split; [exact T4 | exact T5].
Defined.

(** The load of C9 on two dylibs that refer to each other. *)
Lemma load_cycle_witness :
  (pending Demo.host Demo.start < 10)%nat
  /\ wellFormed Demo.start
  /\ load Demo.host 10 "a.dylib" Demo.start <> NoFuel
  /\ Demo.resultOf (load Demo.host 10 "a.dylib" Demo.start) = Some (Some 0%nat)
  /\ LIs (Demo.stateOf (load Demo.host 10 "a.dylib" Demo.start)) !! "b.dylib"
     = Some 1%nat.
Proof.
  assert (Hfuel : (pending Demo.host Demo.start < 10)%nat) by (vm_compute; lia).
  split; [exact Hfuel|]. split; [intros k l Hk; discriminate Hk|]. split.
  - exact (proj1 (load_terminates_on_cycles Demo.host 10 "a.dylib" Demo.start Hfuel)).
  - split; vm_compute; reflexivity.
Defined.

(** The fetch of C1 at an address of [Foundation.dll] whose RVA is in the
    index of its wrapper DLL. *)
Lemma fetch_hit_witness :
  lookup 0x10002000 Demo.withFoundation = Some ("Foundation.dll", 0%nat)
  /\ (IsWrapperDLL <$> store Demo.withFoundation !! 0%nat) = Some false
  /\ exists w',
       handleFetchProtMem Demo.host 3 0x10002000 Demo.withFoundation = Ok (true, w')
       /\ readReg UC_ARM_REG_PC w' = 0x20100100
       /\ Continue w' = false /\ Continuation w' = None.
Proof.
  set (LibRec := mkLib 0x10000000 0x10000 false (LoadedDll 0x10000000 false)).
  set (WrapperRec := mkLib 0x11000000 0x10000 true (LoadedDll 0x11000000 false)).
  set (DylibRec := mkLib 0x20100000 0x1000 false (LoadedDylib Demo.binWrappers)).
  assert (Hlookup : lookup 0x10002000 Demo.withFoundation = Some ("Foundation.dll", 0%nat))
    by (vm_compute; reflexivity).
  assert (Hrec : store Demo.withFoundation !! 0%nat = Some LibRec)
    by (vm_compute; reflexivity).
  assert (Hload1 : load Demo.host 3 (wrapperPathOf "Foundation.dll") Demo.withFoundation
                   = Ok (Some 1%nat, Demo.withWrapperDLL))
    by (unfold Demo.withWrapperDLL; apply run_returns; vm_compute; reflexivity).
  assert (Hwrec : store Demo.withWrapperDLL !! 1%nat = Some WrapperRec)
    by (vm_compute; reflexivity).
  assert (Hrec1 : store Demo.withWrapperDLL !! 0%nat = Some LibRec)
    by (vm_compute; reflexivity).
  assert (Hload2 : load Demo.host 3 Demo.wrappersPath Demo.withWrapperDLL
                   = Ok (Some 2%nat, Demo.withWrapperDylib))
    by (unfold Demo.withWrapperDylib; apply run_returns; vm_compute; reflexivity).
  assert (Hdrec : store Demo.withWrapperDylib !! 2%nat = Some DylibRec)
    by (vm_compute; reflexivity).
  assert (Hlookup2 : lookup 0x20100100 Demo.withWrapperDylib
                     = Some (Path (resolvePath Demo.wrappersPath), 2%nat))
    by (vm_compute; reflexivity).
  destruct (fetch_hit_sets_PC Demo.host 3 0x10002000 0x20100100
              Demo.withFoundation Demo.withWrapperDLL Demo.withWrapperDylib
              "Foundation.dll" Demo.wrappersPath 0%nat 1%nat 2%nat 0%nat
              LibRec WrapperRec LibRec DylibRec
              (Path (resolvePath Demo.wrappersPath), 2%nat)
              Hlookup Hrec eq_refl Hload1 Hwrec Hrec1
              ltac:(vm_compute; reflexivity) ltac:(vm_compute; reflexivity)
              Hload2 Hdrec ltac:(vm_compute; reflexivity)
              ltac:(discriminate) Hlookup2)
    as [(w' & T1 & _ & T3 & T4 & T5 & _) _].
  split; [exact Hlookup|]. split; [rewrite Hrec; reflexivity|].
  exists w'. split; [exact T1|]. split; [rewrite T3; reflexivity|].
  split; [rewrite T4 | rewrite T5]; vm_compute; reflexivity.
Defined.

(** * Further properties of the decoder, the loader and the translator *)

Section Coverage.

Context (H : Host) (F : Ffi).

(** ** The type decoder on every string *)

Lemma invalidSize_odd : TypeDecoder.InvalidSize mod 4 = 3.
Proof. reflexivity. Qed.

Lemma wrap32_words (a b : Z) : a mod 4 = 0 -> b mod 4 = 0 -> wrap32 (a + b) mod 4 = 0.
Proof.
  unfold wrap32. change (2 ^ 32) with 4294967296. intros Ha Hb.
  Z.div_mod_to_equations. lia.
Qed.

Lemma reported_here (d d' : TypeDecoder.t) (z : Z) (msg : string) :
  TypeDecoder.errors d' = (TypeDecoder.errors d ++ [msg])%list -> reported d z d'.
Proof. intros E. exists [msg]. split; [exact E | discriminate]. Qed.

Lemma reported_words (d d' : TypeDecoder.t) (z : Z) :
  TypeDecoder.errors d' = TypeDecoder.errors d -> z mod 4 = 0 -> reported d z d'.
Proof.
  intros E Hz. exists []. split; [rewrite app_nil_r; exact E|].
  intros ->. discriminate Hz.
Qed.

Lemma reported_after (d d1 d' : TypeDecoder.t) (z1 z : Z) :
  reported d z1 d1 -> reported d1 z d' -> reported d z d'.
Proof.
  intros (m1 & E1 & _) (m2 & E2 & H2). exists (m1 ++ m2)%list.
  split; [rewrite E2, E1, app_assoc; reflexivity|].
  intros Hz Hnil. apply app_eq_nil in Hnil as [_ Hnil]. exact (H2 Hz Hnil).
Qed.

Lemma reported_any (d d' : TypeDecoder.t) (z1 z : Z) :
  reported d z1 d' -> z mod 4 = 0 -> reported d z d'.
Proof.
  intros (m & E & _) Hz. exists m. split; [exact E|]. intros ->. discriminate Hz.
Qed.

(** What the three functions of the decoder return, by induction on the
    fuel; the loop over the fields of a struct keeps a total of whole
    words. *)
Lemma decoder_results (n : nat) :
  (forall d z d', TypeDecoder.getNextTypeSizeImpl n d = Ok (z, d') ->
     wordsOrInvalid z /\ reported d z d')
  /\ (forall t d z d', TypeDecoder.structFields n t d = Ok (z, d') ->
     0 <= t < 2 ^ 32 -> t mod 4 = 0 ->
     wordsOrInvalid z /\ reported d z d')
  /\ (forall d z d', TypeDecoder.getNextTypeSize n d = Ok (z, d') ->
     wordsOrInvalid z /\ reported d z d').
Proof.
  assert (W0 : wordsOrInvalid 0) by (right; split; [lia | reflexivity]).
  assert (W4 : wordsOrInvalid 4) by (right; split; [lia | reflexivity]).
  induction n as [|n (IHi & IHs & IHg)].
  - repeat split; intros; discriminate.
  - split; [|split].
    + intros d z d'. cbn [TypeDecoder.getNextTypeSizeImpl].
      destruct d as [[s|] errs]; [|discriminate].
      destruct s as [|c s]; cbn.
      * intros [= <- <-]. split; [left; reflexivity|].
        eapply reported_here. reflexivity.
      * destruct (Ascii.eqb c "v");
          [intros [= <- <-]; split; [exact W0 | apply reported_words; reflexivity]|].
        destruct (TypeDecoder.is_word_tag c);
          [intros [= <- <-]; split; [exact W4 | apply reported_words; reflexivity]|].
        destruct (Ascii.eqb c "^").
        { destruct (TypeDecoder.getNextTypeSizeImpl n _) as [[z1 d1]| |] eqn:E;
            cbn; try discriminate.
          intros [= <- <-]. apply IHi in E as [_ E]. split; [exact W4|].
          eapply reported_any; [exact E | reflexivity]. }
        destruct (Ascii.eqb c "{");
          [|intros [= <- <-]; split; [left; reflexivity|];
            eapply reported_here; reflexivity].
        pose proof (skipName_length s) as [_ Heq].
        destruct (TypeDecoder.skipName s) as [[|] s2]; cbn in Heq |- *.
        -- destruct (Heq eq_refl) as [r ->]. cbn.
           intros E. apply IHs in E; [|lia|reflexivity]. exact E.
        -- intros [= <- <-]. split; [left; reflexivity|].
           eapply reported_here. reflexivity.
    + intros t d z d' E Ht Ht4. revert E. cbn [TypeDecoder.structFields].
      destruct (TypeDecoder.deref (TypeDecoder.T d)) as [c| |]; cbn; try discriminate.
      destruct (Ascii.eqb c "}").
      { intros [= <- <-]. split; [right; split; assumption|].
        apply reported_words; [reflexivity | exact Ht4]. }
      destruct (TypeDecoder.getNextTypeSize n d) as [[z1 d1]| |] eqn:E1;
        cbn; try discriminate.
      apply IHg in E1 as [W1 R1].
      destruct (Z.eqb_spec z1 TypeDecoder.InvalidSize) as [->|Hne].
      { intros [= <- <-]. split; [left; reflexivity | exact R1]. }
      destruct W1 as [?|[Hz1 Hz4]]; [contradiction|].
      intros E2. apply IHs in E2;
        [|apply wrap32_range | apply wrap32_words; assumption].
      destruct E2 as [W2 R2]. split; [exact W2|].
      eapply reported_after; eassumption.
    + intros d z d'. cbn [TypeDecoder.getNextTypeSize].
      destruct (TypeDecoder.getNextTypeSizeImpl n d) as [[z1 d1]| |] eqn:E;
        cbn; try discriminate.
      apply IHi in E as [W1 R1].
      destruct (TypeDecoder.incr (TypeDecoder.T d1)) as [[s1|]| |]; cbn;
        try discriminate.
      intros [= <- <-]. split; [exact W1|].
      destruct R1 as (m & Em & Hm). exists m. split; assumption.
Qed.

(** X1. Whatever the type string, a size [getNextTypeSize] returns is the
    invalid sentinel or a number of whole words below 2^32: the sizes of the
    fields of a struct are added modulo 2^32 and every summand is 0 or 4, so
    the sentinel, which is odd, is never the sum of a struct. *)
Theorem decoded_sizes_are_whole_words
    (fuel : nat) (d d' : TypeDecoder.t) (z : Z)
    (Hrun : TypeDecoder.getNextTypeSize fuel d = Ok (z, d')) :
  wordsOrInvalid z.
Proof.
  destruct (decoder_results fuel) as (_ & _ & Hg).
  destruct (Hg d z d' Hrun) as [Hw _]. exact Hw.
Qed.

(** X2. The decoder only adds to what it has reported through
    [Dyld.error], and a call of [getNextTypeSize] that returns the invalid
    sentinel has reported at least one error: the callers that give up on the
    sentinel without a message of their own leave no failure unreported. *)
Theorem invalid_size_is_always_reported
    (fuel : nat) (d d' : TypeDecoder.t) (z : Z)
    (Hrun : TypeDecoder.getNextTypeSize fuel d = Ok (z, d')) :
  reported d z d'.
Proof.
  destruct (decoder_results fuel) as (_ & _ & Hg).
  destruct (Hg d z d' Hrun) as [_ Hr]. exact Hr.
Qed.

Lemma string_length_app (a b : string) :
  String.length (a ++ b) = (String.length a + String.length b)%nat.
Proof. induction a as [|c a IH]; simpl; [reflexivity | rewrite IH; reflexivity]. Qed.

Lemma simpleTag_cases (c : ascii) :
  simpleTag c = true ->
  TypeDecoder.is_digit c = false /\ Ascii.eqb c "}" = false
  /\ Ascii.eqb c TypeDecoder.NUL = false
  /\ (if Ascii.eqb c "v" then True else TypeDecoder.is_word_tag c = true).
Proof.
  unfold simpleTag, TypeDecoder.is_word_tag.
  destruct (Ascii.eqb_spec c "v") as [->|_]; [repeat split|].
  destruct (Ascii.eqb_spec c "c") as [->|_]; [repeat split|].
  destruct (Ascii.eqb_spec c "@") as [->|_]; [repeat split|].
  destruct (Ascii.eqb_spec c ":") as [->|_]; [repeat split|].
  destruct (Ascii.eqb_spec c "i") as [->|_]; [repeat split|].
  destruct (Ascii.eqb_spec c "I") as [->|_]; [repeat split|].
  destruct (Ascii.eqb_spec c "f") as [->|_]; [repeat split|].
  discriminate.
Qed.

(** A simple type, wherever it stands: its size, and the cursor behind it
    and the digits that follow. *)
Lemma getNextTypeSize_simple (c : ascii) (r : string) (e : list string) (n : nat) :
  simpleTag c = true -> (2 <= n)%nat ->
  TypeDecoder.getNextTypeSize n (TypeDecoder.mk (TypeDecoder.At (String c r)) e)
  = Ok (tagSize c, TypeDecoder.mk (TypeDecoder.At (TypeDecoder.skipDigits r)) e).
Proof.
  intros Hs Hn. destruct n as [|[|n]]; try lia.
  destruct (simpleTag_cases c Hs) as (_ & _ & _ & Hw).
  cbn [TypeDecoder.getNextTypeSize TypeDecoder.getNextTypeSizeImpl].
  unfold tagSize. cbn.
  destruct (Ascii.eqb c "v"); [reflexivity|]. rewrite Hw. reflexivity.
Qed.

Lemma skipDigits_tags (s r : string) :
  allChars simpleTag s = true ->
  match r with String c _ => TypeDecoder.is_digit c = false | EmptyString => True end ->
  TypeDecoder.skipDigits (s ++ r) = s ++ r.
Proof.
  destruct s as [|c s]; simpl.
  - destruct r as [|c r]; simpl; [reflexivity|]. intros _ ->. reflexivity.
  - intros Hs _. apply andb_true_iff in Hs as [Hc _].
    destruct (simpleTag_cases c Hc) as (-> & _). reflexivity.
Qed.

Lemma skipDigits_digits (ds r : string) :
  allChars TypeDecoder.is_digit ds = true ->
  TypeDecoder.skipDigits (ds ++ r) = TypeDecoder.skipDigits r.
Proof.
  induction ds as [|c ds IH]; simpl; [reflexivity|].
  intros Hd. apply andb_true_iff in Hd as [-> Hd]. apply IH, Hd.
Qed.

Lemma skipName_name (name r : string) :
  allChars nameChar name = true ->
  TypeDecoder.skipName (name ++ String "=" r) = (true, String "=" r).
Proof.
  induction name as [|c name IH]; simpl; [reflexivity|].
  intros Hn. apply andb_true_iff in Hn as [Hc Hn].
  unfold nameChar in Hc. apply andb_true_iff in Hc as [H1 H2].
  apply negb_true_iff in H1, H2. rewrite H1, H2. apply IH, Hn.
Qed.

(** The loop over the fields of a struct, on simple fields up to the closing
    brace. *)
Lemma structFields_simple (body rest : string) (e : list string) :
  allChars simpleTag body = true ->
  forall (n : nat) (total : Z),
    (2 * String.length body + 1 <= n)%nat ->
    TypeDecoder.structFields n total
      (TypeDecoder.mk (TypeDecoder.At (body ++ String "}" rest)) e)
    = Ok (fold_left (fun a b => wrap32 (a + b)) (tagSizes body) total,
          TypeDecoder.mk (TypeDecoder.At (String "}" rest)) e).
Proof.
  induction body as [|c body IH]; intros Hb n total Hn.
  - destruct n as [|n]; [simpl in Hn; lia|]. reflexivity.
  - simpl in Hb. apply andb_true_iff in Hb as [Hc Hb].
    destruct (simpleTag_cases c Hc) as (_ & Hbrace & _).
    cbn [String.length] in Hn. destruct n as [|n]; [lia|].
    change (String c body ++ String "}" rest)
      with (String c (body ++ String "}" rest)).
    cbn [TypeDecoder.structFields]. cbn [TypeDecoder.T TypeDecoder.deref].
    cbn [mbind res_mbind res_bind]. rewrite Hbrace.
    rewrite (getNextTypeSize_simple c _ e n Hc) by lia. cbn [mbind res_mbind res_bind].
    rewrite (skipDigits_tags body (String "}" rest) Hb eq_refl).
    replace (Z.eqb (tagSize c) TypeDecoder.InvalidSize) with false
      by (unfold tagSize; destruct (Ascii.eqb c "v"); reflexivity).
    rewrite IH; [reflexivity | exact Hb | lia].
Qed.

(** The same loop when the string ends before the closing brace. *)
Lemma structFields_open (body : string) (e : list string) :
  allChars simpleTag body = true ->
  forall (n : nat) (total : Z),
    (2 * String.length body + 3 <= n)%nat ->
    TypeDecoder.structFields n total (TypeDecoder.mk (TypeDecoder.At body) e) = Fault.
Proof.
  induction body as [|c body IH]; intros Hb n total Hn.
  - destruct n as [|[|[|n]]]; try (simpl in Hn; lia). reflexivity.
  - simpl in Hb. apply andb_true_iff in Hb as [Hc Hb].
    destruct (simpleTag_cases c Hc) as (_ & Hbrace & _).
    cbn [String.length] in Hn. destruct n as [|n]; [lia|].
    cbn [TypeDecoder.structFields]. cbn [TypeDecoder.T TypeDecoder.deref].
    cbn [mbind res_mbind res_bind]. rewrite Hbrace.
    rewrite (getNextTypeSize_simple c _ e n Hc) by lia. cbn [mbind res_mbind res_bind].
    replace (TypeDecoder.skipDigits body) with body.
    2:{ destruct body as [|c' body']; [reflexivity|].
        simpl in Hb. apply andb_true_iff in Hb as [Hc' _].
        destruct (simpleTag_cases c' Hc') as (Hd & _). simpl. rewrite Hd. reflexivity. }
    replace (Z.eqb (tagSize c) TypeDecoder.InvalidSize) with false
      by (unfold tagSize; destruct (Ascii.eqb c "v"); reflexivity).
    rewrite IH; [reflexivity | exact Hb | lia].
Qed.

Lemma getNextTypeSizeImpl_struct (name r : string) (e : list string) (n : nat) :
  allChars nameChar name = true ->
  TypeDecoder.getNextTypeSizeImpl (S n)
    (TypeDecoder.mk (TypeDecoder.At (String "{" (name ++ String "=" r))) e)
  = TypeDecoder.structFields n 0 (TypeDecoder.mk (TypeDecoder.At r) e).
Proof.
  intros Hname. cbn [TypeDecoder.getNextTypeSizeImpl]. cbn.
  rewrite (skipName_name name r Hname). reflexivity.
Qed.

Lemma getNextTypeSize_S (n : nat) (d : TypeDecoder.t) :
  TypeDecoder.getNextTypeSize (S n) d
  = '(Result, d1) ← TypeDecoder.getNextTypeSizeImpl n d;
    T1 ← TypeDecoder.incr (TypeDecoder.T d1);
    match T1 with
    | TypeDecoder.At s =>
        Ok (Result, TypeDecoder.mk (TypeDecoder.At (TypeDecoder.skipDigits s))
                      (TypeDecoder.errors d1))
    | TypeDecoder.PastEnd => Fault
    end.
Proof. reflexivity. Qed.

Lemma allSizes_more (n : nat) (c : ascii) (r : string) (e : list string) :
  Ascii.eqb c TypeDecoder.NUL = false ->
  TypeDecoder.allSizes (S n) (TypeDecoder.mk (TypeDecoder.At (String c r)) e)
  = '(Size, d1) ← TypeDecoder.getNextTypeSize n
                    (TypeDecoder.mk (TypeDecoder.At (String c r)) e);
    '(rest, d2) ← TypeDecoder.allSizes n d1;
    Ok (Size :: rest, d2).
Proof.
  intros Hc. cbn [TypeDecoder.allSizes]. unfold TypeDecoder.hasNext.
  cbn [TypeDecoder.T TypeDecoder.deref mbind res_mbind res_bind].
  rewrite Hc. reflexivity.
Qed.

(** X3. A pointer to a type the decoder has no case for decodes as a valid
    argument of 4 bytes: the recursive call for the pointee reports
    [unsupported type encoding] and returns the sentinel, which the pointer
    case throws away; the cursor ends behind the unknown character and the
    digits after it. *)
Theorem pointer_hides_unsupported_pointee
    (c : ascii) (r : string) (e : list string) (n : nat)
    (Hc : knownTag c = false) (Hnul : c <> TypeDecoder.NUL) :
  TypeDecoder.getNextTypeSize (S (S (S n)))
    (TypeDecoder.mk (TypeDecoder.At (String "^" (String c r))) e)
  = Ok (4, TypeDecoder.mk (TypeDecoder.At (TypeDecoder.skipDigits r))
             (e ++ ["unsupported type encoding"])).
Proof.
  unfold knownTag, simpleTag in Hc.
  apply orb_false_iff in Hc as [Hc Hbrace].
  apply orb_false_iff in Hc as [Hc Hptr].
  apply orb_false_iff in Hc as [Hv Hw].
  cbn [TypeDecoder.getNextTypeSize TypeDecoder.getNextTypeSizeImpl].
  cbn. rewrite Hv, Hw, Hptr, Hbrace. reflexivity.
Qed.

(** X4. A struct whose simple fields run to the end of the string without a
    closing brace makes the decoder read the character behind the
    terminator: at the terminator the loop over the fields calls
    [getNextTypeSize], whose [++T] steps over the terminator before the loop
    that skips digits reads [*T]. Decoding the string faults. *)
Theorem unterminated_struct_reads_past_the_end (name body : string)
    (Hname : allChars nameChar name = true)
    (Hbody : allChars simpleTag body = true) :
  TypeDecoder.sizesOf (String "{" (name ++ String "=" body)) = Fault.
Proof.
  unfold TypeDecoder.sizesOf, TypeDecoder.fuelFor.
  cbn [String.length]. rewrite string_length_app. cbn [String.length].
  set (n := (3 * _ + 3)%nat).
  assert (Hn : exists m, n = S (S (S m)) /\ (2 * String.length body + 3 <= m)%nat).
  { exists (n - 3)%nat. subst n. lia. }
  destruct Hn as (m & -> & Hm).
  unfold TypeDecoder.init.
  rewrite allSizes_more by reflexivity.
  rewrite getNextTypeSize_S, getNextTypeSizeImpl_struct by exact Hname.
  rewrite (structFields_open body [] Hbody m 0 Hm). reflexivity.
Qed.

Lemma methodType_length (items : list (ascii * string)) :
  (length items <= String.length (methodType items))%nat.
Proof.
  induction items as [|it items IH]; simpl; [lia|].
  rewrite string_length_app. lia.
Qed.

Lemma methodType_no_digit (items : list (ascii * string)) :
  Forall simpleItem items ->
  TypeDecoder.skipDigits (methodType items) = methodType items.
Proof.
  intros Hall. destruct Hall as [|it items [Hc _] _]; [reflexivity|].
  simpl. destruct (simpleTag_cases _ Hc) as (-> & _). reflexivity.
Qed.

Lemma allSizes_methodType (items : list (ascii * string)) (e : list string) :
  Forall simpleItem items ->
  forall n, (length items + 2 <= n)%nat ->
    TypeDecoder.allSizes n (TypeDecoder.mk (TypeDecoder.At (methodType items)) e)
    = Ok (map (fun it => tagSize it.1) items,
          TypeDecoder.mk (TypeDecoder.At "") e).
Proof.
  induction 1 as [|it items [Hc Hd] Hall IH]; intros n Hn.
  - destruct n as [|n]; [lia|]. reflexivity.
  - cbn [length] in Hn. destruct n as [|n]; [lia|].
    cbn [methodType map].
    destruct (simpleTag_cases _ Hc) as (_ & _ & Hnul & _).
    rewrite allSizes_more by exact Hnul.
    rewrite getNextTypeSize_simple by (try exact Hc; lia).
    cbn [mbind res_mbind res_bind].
    rewrite (skipDigits_digits _ _ Hd), (methodType_no_digit items Hall).
    rewrite IH by lia. reflexivity.
Qed.

(** X5. On a method type as the compiler writes it, simple types each
    followed by the digits of a frame offset, the decoder returns the size of
    every type in turn, 0 for [v] and 4 for the word tags, and comes to the
    end of the string: the offsets change nothing. *)
Theorem offsets_are_skipped (items : list (ascii * string))
    (Hitems : Forall simpleItem items) :
  TypeDecoder.sizesOf (methodType items) = Ok (map (fun it => tagSize it.1) items).
Proof.
  unfold TypeDecoder.sizesOf, TypeDecoder.init.
  rewrite (allSizes_methodType items [] Hitems); [reflexivity|].
  unfold TypeDecoder.fuelFor. pose proof (methodType_length items). lia.
Qed.

(** X6. A struct [{name=fields}] of simple fields decodes to the sum of the
    sizes of its fields modulo 2^32, whatever its name; nothing is reported,
    and the cursor ends behind the closing brace and the digits after it. *)
Theorem struct_size_is_the_sum_of_its_fields
    (name body rest : string) (e : list string) (n : nat)
    (Hname : allChars nameChar name = true)
    (Hbody : allChars simpleTag body = true)
    (Hn : (2 * String.length body + 3 <= n)%nat) :
  TypeDecoder.getNextTypeSize n
    (TypeDecoder.mk
       (TypeDecoder.At (String "{" (name ++ String "=" (body ++ String "}" rest)))) e)
  = Ok (TypeDecoder.sum32 (tagSizes body),
        TypeDecoder.mk (TypeDecoder.At (TypeDecoder.skipDigits rest)) e).
Proof.
  destruct n as [|[|n]]; try lia.
  rewrite getNextTypeSize_S, getNextTypeSizeImpl_struct by exact Hname.
  rewrite (structFields_simple body rest e Hbody n 0) by lia.
  reflexivity.
Qed.

(** ** DynamicCaller on every size *)

Lemma loadArgFrom_misses (Sz : Z) (w : World) :
  Sz mod 4 <> 0 ->
  forall fuel I DC, I mod 4 = 0 -> loadArgFrom fuel I Sz DC w = NoFuel.
Proof.
  intros Hsz. induction fuel as [|fuel IH]; intros I DC HI.
  - simpl. destruct (Z.eqb_spec I Sz) as [->|_]; [contradiction | reflexivity].
  - simpl. destruct (Z.eqb_spec I Sz) as [->|_]; [contradiction|].
    apply IH. unfold wrap32. change (2 ^ 32) with 4294967296.
    Z.div_mod_to_equations. lia.
Qed.

Lemma loadArgFrom_words (w : World) (k : nat) :
  forall fuel I DC,
    0 <= I -> I + 4 * Z.of_nat k < 2 ^ 32 -> (k <= fuel)%nat ->
    exists DC', loadArgFrom fuel I (I + 4 * Z.of_nat k) DC w = Ok DC'
                /\ length (Args DC') = (length (Args DC) + k)%nat.
Proof.
  induction k as [|k IH]; intros fuel I DC HI Hk Hfuel.
  - exists DC. replace (I + 4 * Z.of_nat 0) with I by lia.
    destruct fuel; simpl; rewrite Z.eqb_refl; (split; [reflexivity | lia]).
  - destruct fuel as [|fuel]; [lia|].
    cbn [loadArgFrom].
    destruct (Z.eqb_spec I (I + 4 * Z.of_nat (S k))) as [Heq|_]; [lia|].
    rewrite (wrap32_small (I + 4)) by lia.
    replace (I + 4 * Z.of_nat (S k)) with ((I + 4) + 4 * Z.of_nat k) by lia.
    match goal with
    | |- context [loadArgFrom fuel (I + 4) _ ?DC1 w] =>
        destruct (IH fuel (I + 4) DC1 ltac:(lia) ltac:(lia) ltac:(lia))
          as (DC' & HDC' & Hlen);
        assert (Hl1 : length (Args DC1) = S (length (Args DC)))
    end.
    { destruct (Z.leb (RegId DC) UC_ARM_REG_R3); cbn [Args];
        rewrite length_app; simpl; lia. }
    exists DC'. split; [exact HDC' | lia].
Qed.

(** X7. [loadArg] returns exactly on the sizes that are whole words: its
    loop counts [I] up in steps of 4 until [I == Size], so on a size that is
    not a multiple of 4 the counter never meets it and the loop goes on
    appending words for ever, while on a multiple of 4 it stops after
    [Size/4] rounds with that many words appended. *)
Theorem loadArg_returns_on_whole_words_only
    (Sz : Z) (DC : DynamicCaller) (w : World) (Hsz : 0 <= Sz < 2 ^ 32) :
  (Sz mod 4 <> 0 -> forall fuel, loadArg fuel Sz DC w = NoFuel)
  /\ (Sz mod 4 = 0 ->
      forall fuel, (Z.to_nat (Sz / 4) <= fuel)%nat ->
        exists DC', loadArg fuel Sz DC w = Ok DC'
                    /\ length (Args DC') = (length (Args DC) + Z.to_nat (Sz / 4))%nat).
Proof.
  split.
  - intros Hm fuel. apply loadArgFrom_misses; [exact Hm | reflexivity].
  - intros Hm fuel Hfuel. unfold loadArg.
    assert (E : Sz = 0 + 4 * Z.of_nat (Z.to_nat (Sz / 4))).
    { rewrite Z2Nat.id by (apply Z.div_pos; lia).
      pose proof (Z_div_mod_eq_full Sz 4). lia. }
    remember (Z.to_nat (Sz / 4)) as k eqn:Hk. rewrite E.
    apply loadArgFrom_words; [lia | lia | exact Hfuel].
Qed.

(** ** The dynamic call of a method *)

Lemma decodeNext_simple (fuel : nat) (c : ascii) (ds : string)
    (items : list (ascii * string)) (e : list string) (w : World) :
  simpleTag c = true -> allChars TypeDecoder.is_digit ds = true ->
  Forall simpleItem items -> (2 <= fuel)%nat ->
  decodeNext H fuel (TypeDecoder.mk (TypeDecoder.At (methodType ((c, ds) :: items))) e) w
  = Ok (tagSize c, TypeDecoder.mk (TypeDecoder.At (methodType items)) [], w).
Proof.
  intros Hc Hd Hitems Hfuel. unfold decodeNext. cbn [TypeDecoder.T methodType fst snd].
  rewrite getNextTypeSize_simple by assumption.
  cbn [mbind res_mbind res_bind TypeDecoder.T TypeDecoder.errors fold_left].
  rewrite (skipDigits_digits _ _ Hd), (methodType_no_digit items Hitems).
  reflexivity.
Qed.

Lemma loadArgs_simple (w : World) (items : list (ascii * string)) :
  Forall simpleItem items ->
  forall fuel DC n,
    (length items + 2 <= fuel)%nat ->
    staged w DC n ->
    exists DC',
      loadArgs H fuel (TypeDecoder.mk (TypeDecoder.At (methodType items)) []) DC w
      = Ok (Some DC', w)
      /\ staged w DC' (n + argWords items).
Proof.
  induction 1 as [|[c ds] items [Hc Hd] Hall IH]; intros fuel DC n Hfuel Hst.
  - destruct fuel as [|fuel]; [simpl in Hfuel; lia|].
    exists DC. split; [reflexivity|]. unfold argWords. simpl.
    rewrite Nat.add_0_r. exact Hst.
  - cbn [length] in Hfuel. destruct fuel as [|fuel]; [lia|].
    cbn [fst snd] in Hc, Hd.
    destruct (simpleTag_cases c Hc) as (_ & _ & Hnul & _).
    cbn [loadArgs]. unfold TypeDecoder.hasNext.
    cbn [TypeDecoder.T methodType fst snd TypeDecoder.deref mbind res_mbind res_bind].
    rewrite Hnul. cbn [negb].
    change (String c (ds ++ methodType items)) with (methodType ((c, ds) :: items)).
    rewrite decodeNext_simple by (try assumption; lia).
    cbn [mbind res_mbind res_bind].
    replace (Z.eqb (tagSize c) TypeDecoder.InvalidSize) with false
      by (unfold tagSize; destruct (Ascii.eqb c "v"); reflexivity).
    set (k := if Ascii.eqb c "v" then 0%nat else 1%nat).
    assert (Ek : tagSize c = 0 + 4 * Z.of_nat k)
      by (unfold tagSize, k; destruct (Ascii.eqb c "v"); reflexivity).
    destruct (loadArgFrom_staged w k (S fuel) 0 DC n ltac:(lia)
                ltac:(unfold k; destruct (Ascii.eqb c "v"); simpl; lia)
                ltac:(unfold k; destruct (Ascii.eqb c "v"); lia) Hst)
      as (DC1 & H1 & Hst1).
    unfold loadArg. rewrite Ek, H1. cbn [mbind res_mbind res_bind].
    destruct (IH fuel DC1 (n + k)%nat ltac:(lia) Hst1) as (DC' & H' & Hst').
    exists DC'. split; [exact H'|].
    replace (n + argWords ((c, ds) :: items))%nat with (n + k + argWords items)%nat;
      [exact Hst'|].
    unfold argWords. simpl. fold k. lia.
Qed.

(** X8. For a method without wrapper whose type is made of simple types with
    their offsets, the fetch hook defers the call: it stops the engine and
    leaves as continuation a call of the method's address that returns a
    value unless the return type is [v], with one argument word for every
    argument that is not [v], word [i] read from register [R0+i] for
    [i < 4] and from the guest stack at [SP + (i-4)*4] otherwise. Registers,
    memory and the stack of return addresses are as before. *)
Theorem dynamic_call_stages_the_words_of_the_type
    (fuel : nat) (Addr : Z) (ret : ascii * string) (items : list (ascii * string))
    (w : World)
    (Hret : simpleItem ret) (Hitems : Forall simpleItem items)
    (Hcont : Continue w = false)
    (Hfuel : (length items + 2 <= fuel)%nat) :
  exists DC w',
    handleDynamically H fuel Addr (methodType (ret :: items)) w = Ok (true, w')
    /\ Continuation w' = Some (CallDynamic DC (negb (Ascii.eqb ret.1 "v")) Addr)
    /\ Args DC = map (argWord w) (seq 0 (argWords items))
    /\ Continue w' = true /\ Running w' = false /\ stopRequested w' = true
    /\ regs w' = regs w /\ mem w' = mem w /\ LRs w' = LRs w.
Proof.
  destruct ret as [c ds]. destruct Hret as [Hc Hd]. cbn [fst snd] in Hc, Hd |- *.
  unfold handleDynamically.
  set (w1 := debug _ w).
  unfold TypeDecoder.init.
  rewrite decodeNext_simple by (try assumption; lia).
  cbn [mbind res_mbind res_bind].
  destruct (loadArgs_simple w1 items Hitems fuel newDynamicCaller 0 Hfuel)
    as (DC & HDC & HA & _).
  { split; reflexivity. }
  exists DC.
  assert (Hfin : forall Returns,
             ('(DC0, w0) ← loadArgs H fuel
                            (TypeDecoder.mk (TypeDecoder.At (methodType items)) [])
                            newDynamicCaller w1;
              match DC0 with
              | None => Ok (false, w0)
              | Some DC1 =>
                  w2 ← continueOutsideEmulation (CallDynamic DC1 Returns Addr) w0;
                  Ok (true, w2)
              end)
             = Ok (true, setFlags true false (Restart w1) true
                           (Some (CallDynamic DC Returns Addr)) w1)).
  { intros Returns. rewrite HDC. cbn [mbind res_mbind res_bind].
    unfold continueOutsideEmulation.
    change (Continue w1) with (Continue w). rewrite Hcont. reflexivity. }
  unfold tagSize. destruct (Ascii.eqb c "v"); cbn [Z.eqb negb];
    rewrite Hfin; eexists; (split; [reflexivity|]);
    (split; [reflexivity|]); (split; [exact HA|]); repeat split.
Qed.

(** ** Segments and the range of an image *)

(** X9. The permissions a segment is mapped with are the three low bits of
    its Mach-O protection: read, write and execute have the same values on
    both sides and every other bit is dropped. *)
Theorem convertProtection_keeps_the_low_bits (VMProt : Z) :
  convertProtection VMProt = Z.land VMProt 7.
Proof.
  unfold convertProtection, MachO.VM_PROT_READ, MachO.VM_PROT_WRITE,
    MachO.VM_PROT_EXECUTE, UC_PROT_READ, UC_PROT_WRITE, UC_PROT_EXEC.
  change 1 with (Z.land 7 1) at 1. change 2 with (Z.land 7 2) at 1.
  change 4 with (Z.land 7 4) at 1.
  rewrite !Z.land_assoc.
  assert (Hr : 0 <= Z.land VMProt 7 < 8).
  { change 7 with (Z.ones 3). rewrite Z.land_ones by lia.
    apply Z.mod_pos_bound. lia. }
  set (r := Z.land VMProt 7) in *. clearbody r.
  assert (Hc : r = 0 \/ r = 1 \/ r = 2 \/ r = 3 \/ r = 4 \/ r = 5 \/ r = 6 \/ r = 7)
    by lia.
  destruct Hc as [->|[->|[->|[->|[->|[->|[->| ->]]]]]]]; reflexivity.
Qed.

Lemma mem_mapMemory a s p w : mem (mapMemory H a s p w) = mem w.
Proof. unfold mapMemory. destruct (uc_mem_map_ptr H _ _ _ _); reflexivity. Qed.

Lemma store_mapMemory a s p w : store (mapMemory H a s p w) = store w.
Proof. unfold mapMemory. destruct (uc_mem_map_ptr H _ _ _ _); reflexivity. Qed.

(** The memory a segment without relocations is loaded into. *)
Lemma mem_loadSegment (LowAddr Slide : Z) (w : World) (Seg : MachO.SegmentCommand) :
  MachO.relocations Seg = [] ->
  let base := wrap32 (wrap64 (MachO.virtual_address Seg + Slide)) in
  let len := Z.of_nat (length (MachO.content Seg)) in
  mem (loadSegment H LowAddr Slide w Seg)
  = if Z.eqb (convertProtection (wrap32 (MachO.init_protection Seg))) UC_PROT_NONE
    then mem w
    else if Z.ltb len (MachO.virtual_size Seg)
         then memzero (memcpy (mem w) base (MachO.content Seg)) (base + len)
                (wrap32 (MachO.virtual_size Seg - len))
         else memcpy (mem w) base (MachO.content Seg).
Proof.
  intros Hrel base len. unfold loadSegment. rewrite Hrel.
  fold base. fold len.
  assert (Hfold : forall w0 : World,
             (if Z.ltb 0 Slide
              then fold_left
                     (relocate H LowAddr Slide
                        (wrap64 (MachO.virtual_address Seg + Slide))
                        (MachO.virtual_size Seg)) [] w0
              else w0) = w0)
    by (intros w0; destruct (Z.ltb 0 Slide); reflexivity).
  rewrite Hfold. clear Hfold.
  destruct (Z.eqb _ UC_PROT_NONE); [apply mem_mapMemory|].
  destruct (Z.ltb len (MachO.virtual_size Seg)).
  - cbn [mem setMem]. rewrite mem_mapMemory. reflexivity.
  - rewrite mem_mapMemory. reflexivity.
Qed.

Lemma memcpy_inside (m : Mem) (a : Z) (bytes : list Z) (i : Z) :
  0 <= i < Z.of_nat (length bytes) ->
  memcpy m a bytes (a + i) = nth (Z.to_nat i) bytes 0.
Proof.
  intros Hi. unfold memcpy.
  destruct (Z.leb_spec a (a + i)) as [_|?]; [|lia].
  destruct (Z.ltb_spec (a + i) (a + Z.of_nat (length bytes))) as [_|?]; [|lia].
  cbn [andb]. f_equal. lia.
Qed.

Lemma memcpy_outside (m : Mem) (a : Z) (bytes : list Z) (x : Z) :
  x < a \/ a + Z.of_nat (length bytes) <= x -> memcpy m a bytes x = m x.
Proof.
  intros Hx. unfold memcpy.
  destruct (Z.leb_spec a x); [|reflexivity].
  destruct (Z.ltb_spec x (a + Z.of_nat (length bytes))); [lia | reflexivity].
Qed.

Lemma memzero_inside (m : Mem) (a n x : Z) : a <= x < a + n -> memzero m a n x = 0.
Proof.
  intros Hx. unfold memzero.
  destruct (Z.leb_spec a x) as [_|?]; [|lia].
  destruct (Z.ltb_spec x (a + n)) as [_|?]; [|lia]. reflexivity.
Qed.

Lemma memzero_outside (m : Mem) (a n x : Z) : x < a \/ a + n <= x -> memzero m a n x = m x.
Proof.
  intros Hx. unfold memzero.
  destruct (Z.leb_spec a x); [|reflexivity].
  destruct (Z.ltb_spec x (a + n)); [lia | reflexivity].
Qed.

(** X10. Loading a segment that has no relocations: a segment without
    permissions is mapped and memory is left as it is; any other segment has
    its whole content copied to its slid address, even beyond its virtual
    size, the bytes from the end of the content to the virtual size are
    zero, and memory outside the two ranges is untouched. *)
Theorem loadSegment_copies_and_zero_fills
    (LowAddr Slide : Z) (w : World) (Seg : MachO.SegmentCommand)
    (Hrel : MachO.relocations Seg = [])
    (Hsize : 0 <= MachO.virtual_size Seg < 2 ^ 32) :
  let base := wrap32 (wrap64 (MachO.virtual_address Seg + Slide)) in
  let len := Z.of_nat (length (MachO.content Seg)) in
  let w' := loadSegment H LowAddr Slide w Seg in
  if Z.eqb (convertProtection (wrap32 (MachO.init_protection Seg))) UC_PROT_NONE
  then mem w' = mem w
  else (forall i, 0 <= i < len ->
          mem w' (base + i) = nth (Z.to_nat i) (MachO.content Seg) 0)
       /\ (forall i, len <= i < MachO.virtual_size Seg -> mem w' (base + i) = 0)
       /\ (forall x, x < base \/ base + Z.max len (MachO.virtual_size Seg) <= x ->
             mem w' x = mem w x).
Proof.
  intros base len w'. subst w'.
  rewrite (mem_loadSegment LowAddr Slide w Seg Hrel). fold base. fold len.
  destruct (Z.eqb _ UC_PROT_NONE); [reflexivity|].
  destruct (Z.ltb_spec len (MachO.virtual_size Seg)) as [Hlt|Hge].
  - rewrite (wrap32_small (MachO.virtual_size Seg - len)) by lia.
    split; [|split].
    + intros i Hi. rewrite memzero_outside by lia. apply memcpy_inside. exact Hi.
    + intros i Hi. apply memzero_inside. lia.
    + intros x Hx. rewrite memzero_outside by lia. apply memcpy_outside. fold len. lia.
  - split; [|split].
    + intros i Hi. apply memcpy_inside. exact Hi.
    + intros i Hi. lia.
    + intros x Hx. apply memcpy_outside. fold len. lia.
Qed.

Lemma segmentRange_step (lo hi : Z) (w : World) (s : MachO.SegmentCommand) :
  let '(lo', hi', _) := segmentRange H (lo, hi, w) s in
  lo' <= lo /\ hi <= hi' /\ lo' <= MachO.virtual_address s
  /\ roundToPageSize H (wrap64 (MachO.virtual_address s + MachO.virtual_size s))
     <= hi'.
Proof.
  unfold segmentRange.
  set (SegHigh := roundToPageSize H _).
  destruct (Z.ltb_spec (MachO.virtual_address s) lo);
    destruct (Z.ltb_spec hi SegHigh); lia.
Qed.

Lemma segmentRange_bounds (segs : list MachO.SegmentCommand) :
  forall lo hi w,
    let '(LowAddr, HighAddr, _) := fold_left (segmentRange H) segs (lo, hi, w) in
    LowAddr <= lo /\ hi <= HighAddr.
Proof.
  induction segs as [|s segs IH]; intros lo hi w; [simpl; lia|].
  cbn [fold_left].
  pose proof (segmentRange_step lo hi w s) as Hs.
  destruct (segmentRange H (lo, hi, w) s) as [[lo' hi'] w'].
  specialize (IH lo' hi' w').
  destruct (fold_left (segmentRange H) segs (lo', hi', w')) as [[L Hi] w1].
  lia.
Qed.

Lemma segmentRange_covers (segs : list MachO.SegmentCommand) (Seg : MachO.SegmentCommand) :
  In Seg segs ->
  forall lo hi w,
    let '(LowAddr, HighAddr, _) := fold_left (segmentRange H) segs (lo, hi, w) in
    LowAddr <= MachO.virtual_address Seg
    /\ roundToPageSize H (wrap64 (MachO.virtual_address Seg + MachO.virtual_size Seg))
       <= HighAddr.
Proof.
  induction segs as [|s segs IH]; intros Hin lo hi w; [destruct Hin|].
  cbn [fold_left].
  pose proof (segmentRange_step lo hi w s) as Hs.
  destruct (segmentRange H (lo, hi, w) s) as [[lo' hi'] w'].
  destruct Hin as [->|Hin].
  - pose proof (segmentRange_bounds segs lo' hi' w') as Hb.
    destruct (fold_left (segmentRange H) segs (lo', hi', w')) as [[L Hi] w1].
    lia.
  - specialize (IH Hin lo' hi' w').
    destruct (fold_left (segmentRange H) segs (lo', hi', w')) as [[L Hi] w1].
    lia.
Qed.

(** X11. The range [loadMachO] computes for an image contains every segment
    of the binary: [LowAddr] is at most the virtual address of the segment
    and [HighAddr] at least its end rounded to the page size, whatever the
    order of the segments and whether or not they were reported as
    overlapping. *)
Theorem image_range_covers_every_segment
    (Bin : MachO.Binary) (Seg : MachO.SegmentCommand) (w : World)
    (Hin : In Seg (MachO.segments Bin)) :
  let '(LowAddr, HighAddr, _) :=
    fold_left (segmentRange H) (MachO.segments Bin) (2 ^ 64 - 1, 0, w) in
  LowAddr <= MachO.virtual_address Seg
  /\ roundToPageSize H (wrap64 (MachO.virtual_address Seg + MachO.virtual_size Seg))
     <= HighAddr
  /\ 0 <= HighAddr.
Proof.
  pose proof (segmentRange_covers (MachO.segments Bin) Seg Hin (2 ^ 64 - 1) 0 w) as Hc.
  pose proof (segmentRange_bounds (MachO.segments Bin) (2 ^ 64 - 1) 0 w) as Hb.
  destruct (fold_left (segmentRange H) (MachO.segments Bin) (2 ^ 64 - 1, 0, w))
    as [[L Hi] w1].
  lia.
Qed.

Lemma store_updLib (LLP l : nat) (f : LoadedLibrary -> LoadedLibrary) (w : World) :
  store (updLib LLP f w) !! l
  = if decide (LLP = l) then f <$> store w !! l else store w !! l.
Proof.
  unfold updLib. cbn [store setStore].
  destruct (decide (LLP = l)) as [<-|Hne].
  - destruct (store w !! LLP) as [LL|] eqn:E; cbn.
    + rewrite lookup_insert_eq. reflexivity.
    + rewrite E. reflexivity.
  - destruct (store w !! LLP) as [LL|]; [|reflexivity].
    rewrite lookup_insert_ne by exact Hne. reflexivity.
Qed.

Lemma store_assignLI (Path : string) (LL : LoadedLibrary) (w : World) :
  (assignLI Path LL w).1 = fresh w
  /\ store (assignLI Path LL w).2 !! fresh w = Some LL.
Proof.
  unfold assignLI. cbn [fst snd store setFresh setStore].
  split; [reflexivity|]. apply lookup_insert_eq.
Qed.

(** X12. A Mach-O image without segments, dependencies and bindings: the
    bounds stay at their initial values, so the size of the image is
    [0 - (2^64 - 1)], that is 1; one byte is allocated, and the record gets
    the range of one byte that starts one past the allocated address.
    Nothing is mapped. *)
Theorem loadMachO_without_segments
    (ld : string -> World -> res (option nat * World))
    (Path : string) (Bin : MachO.Binary) (w : World)
    (Hfile : files H !! Path = Some (MachOFile Bin))
    (Hsegs : MachO.segments Bin = [])
    (Hlibs : MachO.libraries Bin = [])
    (Hbinds : MachO.bindings Bin = []) :
  let Addr := aligned_malloc H (allocs w) 1 (PageSize H) in
  exists w',
    loadMachO_with H ld Path w = Ok (fresh w, w')
    /\ store w' !! fresh w
       = Some (mkLib (wrap64 (Addr + 1)) 1 false (LoadedDylib Bin))
    /\ mapped w' = mapped w
    /\ allocs w' = S (allocs w).
Proof.
  intros Addr. unfold loadMachO_with. rewrite Hfile, Hsegs, Hlibs, Hbinds.
  pose proof (store_assignLI Path (newDylib Bin) w) as [HL HS].
  destruct (assignLI Path (newDylib Bin) w) as [LLP w0] eqn:E0.
  cbn [fst snd] in HL, HS. subst LLP.
  assert (Hal : allocs w0 = allocs w /\ mapped w0 = mapped w).
  { unfold assignLI in E0. injection E0 as <-.
    destruct (LIs w !! Path); split; reflexivity. }
  destruct Hal as [Hal Hmp].
  cbn [fold_left loadLibraries bindSymbols mbind res_mbind res_bind].
  set (wa := if negb (MachO.cpu_eqb _ _) then _ else w0).
  assert (Ha : store wa = store w0 /\ allocs wa = allocs w0 /\ mapped wa = mapped w0)
    by (unfold wa; destruct (negb _); repeat split).
  clearbody wa.
  set (wb := if MachO.has _ _ then _ else wa).
  assert (Hb : store wb = store wa /\ allocs wb = allocs wa /\ mapped wb = mapped wa)
    by (unfold wb; destruct (MachO.has _ _); repeat split).
  clearbody wb.
  set (wc := if negb (canSegmentsSlide Bin) then _ else wb).
  assert (Hc : store wc = store wb /\ allocs wc = allocs wb /\ mapped wc = mapped wb)
    by (unfold wc; destruct (negb _); repeat split).
  clearbody wc.
  destruct Ha as (Ha1 & Ha2 & Ha3), Hb as (Hb1 & Hb2 & Hb3), Hc as (Hc1 & Hc2 & Hc3).
  assert (Hsz : wrap64 (0 - (2 ^ 64 - 1)) = 1) by reflexivity.
  rewrite Hsz. change (wrap32 1) with 1.
  assert (EA : aligned_malloc H (allocs wc) 1 (PageSize H) = Addr)
    by (unfold Addr; congruence).
  rewrite EA.
  assert (Hsl : wrap64 (Addr - (2 ^ 64 - 1)) = wrap64 (Addr + 1)).
  { unfold wrap64. replace (Addr - (2 ^ 64 - 1)) with (Addr + 1 + (-1) * 2 ^ 64) by lia.
    apply Z_mod_plus_full. }
  rewrite Hsl.
  eexists. split; [reflexivity|].
  split; [|split].
  - rewrite store_updLib. destruct (decide _) as [_|?]; [|contradiction].
    destruct (Z.eqb Addr 0); cbn [store setAllocs error debug setOut];
      rewrite Hc1, Hb1, Ha1, HS; reflexivity.
  - destruct (Z.eqb Addr 0); cbn; congruence.
  - destruct (Z.eqb Addr 0); cbn; congruence.
Qed.

Lemma out_mapMemory_incl a s p w x : In x (out w) -> In x (out (mapMemory H a s p w)).
Proof.
  unfold mapMemory. destruct (uc_mem_map_ptr H _ _ _ _); [auto|].
  cbn. intros Hx. apply in_or_app. left. exact Hx.
Qed.

Lemma out_loadSegment_incl lo sl w Seg x :
  MachO.relocations Seg = [] ->
  In x (out w) -> In x (out (loadSegment H lo sl w Seg)).
Proof.
  intros Hrel Hx. unfold loadSegment. rewrite Hrel.
  set (w1 := if Z.eqb _ UC_PROT_NONE then _ else _).
  assert (H1 : In x (out w1)).
  { unfold w1. destruct (Z.eqb _ UC_PROT_NONE); [apply out_mapMemory_incl, Hx|].
    destruct (Z.ltb _ _); cbn [out setMem]; apply out_mapMemory_incl; exact Hx. }
  destruct (Z.ltb 0 sl); exact H1.
Qed.

Lemma store_loadSegment lo sl w Seg :
  MachO.relocations Seg = [] -> store (loadSegment H lo sl w Seg) = store w.
Proof.
  intros Hrel. unfold loadSegment. rewrite Hrel.
  destruct (Z.ltb 0 sl); cbn [fold_left];
    repeat match goal with |- context [if ?b then _ else _] => destruct b end;
    cbn [store setMem]; rewrite ?store_mapMemory; reflexivity.
Qed.

(** X13. When [_aligned_malloc] returns null, [loadMachO] reports that it
    could not allocate memory for the segments and goes on with the null
    address: for an image of one segment without permissions and without
    relocations, which is mapped but not written, it records the slide
    [0 - LowAddr] as the start of the image and returns the record; memory
    is as it was. *)
Theorem loadMachO_goes_on_without_memory
    (ld : string -> World -> res (option nat * World))
    (Path : string) (Bin : MachO.Binary) (Seg : MachO.SegmentCommand) (w : World)
    (Hfile : files H !! Path = Some (MachOFile Bin))
    (Hsegs : MachO.segments Bin = [Seg])
    (Hlibs : MachO.libraries Bin = [])
    (Hbinds : MachO.bindings Bin = [])
    (Hrel : MachO.relocations Seg = [])
    (Hperm : Z.eqb (convertProtection (wrap32 (MachO.init_protection Seg)))
               UC_PROT_NONE = true)
    (Haddr : 0 <= MachO.virtual_address Seg < 2 ^ 64 - 1)
    (Hnull : forall n sz, aligned_malloc H n sz (PageSize H) = 0) :
  exists w',
    loadMachO_with H ld Path w = Ok (fresh w, w')
    /\ In ("Error occurred: couldn't allocate memory for segments." ++ nl) (out w')
    /\ (StartAddress <$> store w' !! fresh w)
       = Some (wrap64 (0 - MachO.virtual_address Seg))
    /\ mem w' = mem w.
Proof.
  unfold loadMachO_with. rewrite Hfile, Hsegs, Hlibs, Hbinds.
  pose proof (store_assignLI Path (newDylib Bin) w) as [HL HS].
  assert (HM : mem (assignLI Path (newDylib Bin) w).2 = mem w).
  { unfold assignLI. destruct (LIs w !! Path); reflexivity. }
  destruct (assignLI Path (newDylib Bin) w) as [LLP w0].
  cbn [fst snd] in HL, HS, HM. subst LLP.
  cbn [loadLibraries bindSymbols mbind res_mbind res_bind].
  set (wa := if negb (MachO.cpu_eqb _ _) then _ else w0).
  assert (Ha : store wa = store w0 /\ mem wa = mem w0)
    by (unfold wa; destruct (negb _); split; reflexivity).
  clearbody wa.
  set (wb := if MachO.has _ _ then _ else wa).
  assert (Hb : store wb = store wa /\ mem wb = mem wa)
    by (unfold wb; destruct (MachO.has _ _); split; reflexivity).
  clearbody wb.
  set (wc := if negb (canSegmentsSlide Bin) then _ else wb).
  assert (Hc : store wc = store wb /\ mem wc = mem wb)
    by (unfold wc; destruct (negb _); split; reflexivity).
  clearbody wc.
  cbn [fold_left]. unfold segmentRange.
  set (SegHigh := roundToPageSize H _).
  set (wd := if (_ || _)%bool then _ else wc).
  assert (Hd : store wd = store wc /\ mem wd = mem wc)
    by (unfold wd; destruct (_ || _)%bool; split; reflexivity).
  clearbody wd.
  destruct Ha as [Ha Ha'], Hb as [Hb Hb'], Hc as [Hc Hc'], Hd as [Hd Hd'].
  destruct (Z.ltb_spec (MachO.virtual_address Seg) (2 ^ 64 - 1)) as [_|?]; [|lia].
  set (HighAddr := if Z.ltb 0 SegHigh then SegHigh else 0).
  rewrite Hnull. change (Z.eqb 0 0) with true. cbv iota.
  set (Slide := wrap64 (0 - MachO.virtual_address Seg)).
  set (we := updLib _ _ _).
  assert (He : In ("Error occurred: couldn't allocate memory for segments." ++ nl)
                  (out we)).
  { unfold we. cbn. apply in_or_app. right. left. reflexivity. }
  assert (Hs : StartAddress <$> store we !! fresh w = Some Slide).
  { unfold we. rewrite store_updLib. destruct (decide _) as [_|?]; [|contradiction].
    cbn [store error debug setOut setAllocs]. rewrite Hd, Hc, Hb, Ha, HS. reflexivity. }
  assert (Hm : mem we = mem w).
  { unfold we. cbn [mem updLib setStore error debug setOut setAllocs]. congruence. }
  clearbody we.
  eexists. split; [reflexivity|].
  split; [apply out_loadSegment_incl; assumption|].
  split.
  { rewrite store_loadSegment by exact Hrel. exact Hs. }
  rewrite (mem_loadSegment (MachO.virtual_address Seg) Slide we Seg Hrel).
  rewrite Hperm. exact Hm.
Qed.

(** ** DLLs *)

(** X14. A DLL the host loads and describes gets a record whose range ends
    where the image ends, whether or not it exports [_mh_dylib_header]: with
    the header the range starts at the header, the size is shortened by the
    distance of the header from the base, and the record is marked as posing
    for a Mach-O image; without it the range is the image. [loadPE] returns
    the record. *)
Theorem loadPE_range_ends_with_the_image
    (Path : string) (w : World) (base size : Z)
    (Hlib : LoadPackagedLibrary H Path <> 0)
    (Hinfo : GetModuleInformation H (LoadPackagedLibrary H Path) = Some (base, size)) :
  let Lib := LoadPackagedLibrary H Path in
  let Hdr := findSymbol H (mkLib 0 0 false (LoadedDll Lib false)) "_mh_dylib_header" in
  exists w' LL,
    loadPE H Path w = (Some (fresh w), w')
    /\ store w' !! fresh w = Some LL
    /\ kind LL = LoadedDll Lib (negb (Z.eqb Hdr 0))
    /\ StartAddress LL = (if Z.eqb Hdr 0 then base else Hdr)
    /\ wrap64 (StartAddress LL + Size LL) = wrap64 (base + size).
Proof.
  intros Lib Hdr. unfold loadPE.
  pose proof (store_assignLI Path newDll w) as [HL HS].
  destruct (assignLI Path newDll w) as [LLP w0].
  cbn [fst snd] in HL, HS. subst LLP. cbv zeta.
  destruct (Z.eqb_spec (LoadPackagedLibrary H Path) 0) as [?|_]; [contradiction|].
  rewrite Hinfo. fold Lib.
  set (w1 := updLib (fresh w) (withPtr Lib) w0).
  assert (H1 : store w1 !! fresh w = Some (mkLib 0 0 false (LoadedDll Lib false))).
  { unfold w1. rewrite store_updLib. destruct (decide _) as [_|?]; [|contradiction].
    rewrite HS. reflexivity. }
  rewrite H1. fold Hdr.
  set (w2 := if negb (Z.eqb Hdr 0) then _ else _).
  set (LL := if Z.eqb Hdr 0
             then mkLib base size false (LoadedDll Lib false)
             else mkLib Hdr (wrap64 (size - (Hdr - base))) false (LoadedDll Lib true)).
  assert (H2 : store w2 !! fresh w = Some LL).
  { unfold w2, LL. destruct (Z.eqb Hdr 0); cbn [negb];
      rewrite store_updLib; (destruct (decide _) as [_|?]; [|contradiction]);
      rewrite H1; reflexivity. }
  clearbody w2. rewrite H2.
  exists (mapMemory H (alignToPageSize H (StartAddress LL))
            (roundToPageSize H (Size LL)) (Z.lor UC_PROT_READ UC_PROT_WRITE) w2), LL.
  split; [reflexivity|]. rewrite store_mapMemory. split; [exact H2|].
  unfold LL. destruct (Z.eqb Hdr 0); cbn; repeat split.
  unfold wrap64. rewrite Zplus_mod_idemp_r. f_equal. lia.
Qed.

(** X15. Whatever happens in [loadPE], it maps at most one range, and that
    range is readable and writable but not executable: this is what makes
    every call into a DLL a fetch from protected memory. *)
Theorem loadPE_maps_nothing_executable (Path : string) (w : World) :
  let w' := (loadPE H Path w).2 in
  mapped w' = mapped w
  \/ exists a s, mapped w' = (mapped w ++ [(a, s, Z.lor UC_PROT_READ UC_PROT_WRITE)])%list
                 /\ Z.land (Z.lor UC_PROT_READ UC_PROT_WRITE) UC_PROT_EXEC = 0.
Proof.
  intros w'. subst w'. unfold loadPE.
  assert (H0 : mapped (assignLI Path newDll w).2 = mapped w).
  { unfold assignLI. destruct (LIs w !! Path); reflexivity. }
  destruct (assignLI Path newDll w) as [LLP w0]. cbn [snd] in H0.
  destruct (Z.eqb (LoadPackagedLibrary H Path) 0).
  - left. cbn [snd]. unfold eraseLI.
    destruct (LIs _ !! Path); cbn; exact H0.
  - destruct (GetModuleInformation H _) as [[base sz]|]; [|left; exact H0].
    set (w2 := if negb _ then _ else _).
    assert (H2 : mapped w2 = mapped w)
      by (unfold w2; destruct (negb _); cbn; exact H0).
    clearbody w2.
    destruct (match store w2 !! LLP with Some _ => _ | None => _ end) as [st sz'].
    cbn [snd]. unfold mapMemory.
    destruct (uc_mem_map_ptr H _ _ _ _).
    + right. eexists _, _. cbn [mapped setMapped]. rewrite H2.
      split; reflexivity.
    + left. exact H2.
Qed.

(** ** Bindings *)

(** X16. A binding of a supported kind whose library loads and whose symbol
    is found stores the low 32 bits of the address of the symbol in the four
    bytes at the binding's address plus the slide, once [checkInRange] has
    let the address through; memory elsewhere, the index and the log are as
    the load of the library left them. *)
Theorem bindSymbol_stores_the_symbol_address
    (ld : string -> World -> res (option nat * World))
    (LLP Lib : nat) (Slide : Z) (BInfo : MachO.BindingInfo) (w w1 : World)
    (LibRec LL : LoadedLibrary)
    (Hkind : unsupportedBinding BInfo = false)
    (Hhas : MachO.has_library BInfo = true)
    (Hload : ld (MachO.library_name BInfo) w = Ok (Some Lib, w1))
    (Hlib : store w1 !! Lib = Some LibRec)
    (Hrec : store w1 !! LLP = Some LL)
    (Hsym : findSymbol H LibRec (MachO.symbol_name BInfo) <> 0)
    (Hrange : checkInRange H LL (wrap64 (MachO.b_address BInfo + Slide)) = true) :
  let Target := wrap32 (wrap64 (MachO.b_address BInfo + Slide)) in
  exists w',
    bindSymbol H ld LLP Slide BInfo w = Ok w'
    /\ read32 (mem w') Target
       = wrap32 (findSymbol H LibRec (MachO.symbol_name BInfo))
    /\ (forall x, x < Target \/ Target + 3 < x -> mem w' x = mem w1 x)
    /\ LIs w' = LIs w1 /\ store w' = store w1 /\ out w' = out w1.
Proof.
  intros Target. unfold bindSymbol. rewrite Hkind, Hhas. cbn [negb].
  rewrite Hload. cbn [mbind res_mbind res_bind]. rewrite Hlib, Hrec.
  destruct (Z.eqb_spec (findSymbol H LibRec (MachO.symbol_name BInfo)) 0) as [?|_];
    [contradiction|].
  rewrite Hrange. eexists. split; [reflexivity|].
  cbn [mem setMem LIs store out]. fold Target.
  split; [rewrite read32_write32_same; unfold wrap32; apply Z.mod_mod; lia|].
  split; [|auto].
  intros x Hx. unfold write32.
  repeat match goal with
         | |- context [Z.eqb x ?y] => destruct (Z.eqb_spec x y); [lia|]
         end.
  reflexivity.
Qed.

(** ** The index of libraries *)

(** X17. [lookup] answers with an entry of the index whose record contains
    the address, and answers that there is none only when no record of an
    indexed library contains it. *)
Theorem lookup_finds_a_containing_library (Addr : Z) (w : World) :
  match lookup Addr w with
  | Some (p, l) =>
      LIs w !! p = Some l
      /\ exists LL, store w !! l = Some LL /\ isInRange LL Addr = true
  | None =>
      forall p l LL,
        LIs w !! p = Some l -> store w !! l = Some LL -> isInRange LL Addr = false
  end.
Proof.
  unfold lookup.
  destruct (find _ _) as [[p l]|] eqn:E.
  - apply find_some in E as [Hin Hr]. cbn in Hr.
    split.
    + apply elem_of_map_to_list. apply list_elem_of_In. exact Hin.
    + destruct (store w !! l) as [LL|]; [|discriminate]. exists LL. auto.
  - intros p l LL Hp Hl.
    pose proof (find_none _ _ E (p, l)) as Hn. cbn in Hn.
    rewrite Hl in Hn. apply Hn.
    apply list_elem_of_In. apply elem_of_map_to_list. exact Hp.
Qed.

Lemma resolvePath_Path_stable (p : string) :
  Path (resolvePath (Path (resolvePath p))) = Path (resolvePath p).
Proof.
  destruct p as [|c r]; [reflexivity|].
  assert (Hr : resolvePath (String c r)
               = if Ascii.eqb c "/"
                 then mkBinaryPath (FsPath.make_preferred ("gen" ++ String c r)) true
                 else mkBinaryPath (String c r) (FsPath.is_relative (String c r)))
    by reflexivity.
  rewrite Hr. destruct (Ascii.eqb c "/") eqn:E.
  - reflexivity.
  - simpl. rewrite E. reflexivity.
Qed.

Lemma newKeys_refl Q w : newKeys Q w w.
Proof. intros k Hk. left. exact Hk. Qed.

Lemma newKeys_trans Q w1 w2 w3 :
  newKeys Q w1 w2 -> newKeys Q w2 w3 -> newKeys Q w1 w3.
Proof.
  intros H12 H23 k Hk. destruct (H23 k Hk) as [Hk2|HQ]; [|right; exact HQ].
  apply H12, Hk2.
Qed.

Lemma newKeys_eq Q w w' : LIs w' = LIs w -> newKeys Q w w'.
Proof. intros E k Hk. left. rewrite <- E. exact Hk. Qed.

Lemma newKeys_insert (Q : string -> Prop) w w' Path l :
  Q Path -> LIs w' = <[Path := l]> (LIs w) -> newKeys Q w w'.
Proof.
  intros HQ E k Hk. rewrite E in Hk.
  destruct (decide (Path = k)) as [<-|Hne]; [right; exact HQ|].
  rewrite lookup_insert_ne in Hk by exact Hne. left. exact Hk.
Qed.

Section Keys.

Variable ld : string -> World -> res (option nat * World).
Variable Q : string -> Prop.
Hypothesis ld_keys : forall P w r w', ld P w = Ok (r, w') -> newKeys Q w w'.

Lemma loadLibraries_newKeys libs :
  forall w w', loadLibraries ld libs w = Ok w' -> newKeys Q w w'.
Proof.
  induction libs as [|name libs IH]; intros w w'; simpl.
  - intros [= <-]. apply newKeys_refl.
  - destruct (ld name w) as [[r w1]| |] eqn:E; cbn; try discriminate.
    intros E'. eapply newKeys_trans; [eapply ld_keys, E | apply IH, E'].
Qed.

Lemma bindSymbol_newKeys LLP Slide BInfo :
  forall w w', bindSymbol H ld LLP Slide BInfo w = Ok w' -> newKeys Q w w'.
Proof.
  intros w w'. unfold bindSymbol.
  destruct (unsupportedBinding BInfo); [intros [= <-]; apply newKeys_eq; reflexivity|].
  destruct (negb (MachO.has_library BInfo));
    [intros [= <-]; apply newKeys_eq; reflexivity|].
  destruct (ld (MachO.library_name BInfo) w) as [[r w1]| |] eqn:E;
    cbn; try discriminate.
  pose proof (ld_keys _ _ _ _ E) as Hk.
  destruct r as [Lib|]; [|intros [= <-]; exact Hk].
  destruct (store w1 !! Lib); [|discriminate].
  destruct (store w1 !! LLP); [|discriminate].
  destruct (Z.eqb _ 0); [intros [= <-]; exact Hk|].
  destruct (checkInRange H _ _); [|discriminate].
  intros [= <-]. exact Hk.
Qed.

Lemma bindSymbols_newKeys LLP Slide bs :
  forall w w', bindSymbols H ld LLP Slide bs w = Ok w' -> newKeys Q w w'.
Proof.
  induction bs as [|b bs IH]; intros w w'; simpl.
  - intros [= <-]. apply newKeys_refl.
  - destruct (bindSymbol H ld LLP Slide b w) as [w1| |] eqn:E; cbn; try discriminate.
    intros E'. eapply newKeys_trans; [eapply bindSymbol_newKeys, E | apply IH, E'].
Qed.

Lemma loadMachO_with_newKeys Path w LLP w' :
  Q Path ->
  loadMachO_with H ld Path w = Ok (LLP, w') -> newKeys Q w w'.
Proof.
  intros HQ.
  destruct (files H !! Path) as [[Bin| |]|] eqn:Hf;
    try (unfold loadMachO_with; rewrite Hf; discriminate).
  rewrite (loadMachO_with_split H ld Path Bin w Hf).
  pose proof (machOMapped_index H Path Bin w) as Hm.
  destruct (machOMapped H Path Bin w) as [[LLP0 Slide] w1].
  destruct Hm as [-> Hm].
  destruct (loadLibraries ld _ w1) as [w2| |] eqn:E2; cbn; try discriminate.
  destruct (bindSymbols H ld _ _ _ w2) as [w3| |] eqn:E3; cbn; try discriminate.
  intros [= <- <-].
  eapply newKeys_trans; [eapply newKeys_insert; eassumption|].
  eapply newKeys_trans; [eapply loadLibraries_newKeys | eapply bindSymbols_newKeys];
    eassumption.
Qed.

End Keys.

Lemma loadPE_newKeys (Q : string -> Prop) Path w :
  Q Path -> newKeys Q w (loadPE H Path w).2.
Proof.
  intros HQ. unfold loadPE.
  assert (H0 : LIs (assignLI Path newDll w).2 = <[Path := fresh w]> (LIs w)).
  { unfold assignLI. destruct (LIs w !! Path); reflexivity. }
  destruct (assignLI Path newDll w) as [LLP w0]. cbn [snd] in H0.
  pose proof (newKeys_insert Q w w0 Path _ HQ H0) as K0.
  destruct (Z.eqb (LoadPackagedLibrary H Path) 0).
  - cbn [snd]. intros k Hk. apply K0.
    revert Hk. unfold eraseLI. cbn [LIs error debug setOut].
    destruct (LIs w0 !! Path) as [old|]; cbn [LIs setLIs setStore]; [|auto].
    destruct (decide (Path = k)) as [<-|Hne].
    + rewrite lookup_delete_eq. intros [? ?]. discriminate.
    + rewrite lookup_delete_ne by exact Hne. auto.
  - destruct (GetModuleInformation H _) as [[base sz]|]; [|exact K0].
    set (w2 := if negb _ then _ else _).
    assert (H2 : LIs w2 = LIs w0) by (unfold w2; destruct (negb _); reflexivity).
    clearbody w2.
    destruct (match store w2 !! LLP with Some _ => _ | None => _ end) as [st sz'].
    cbn [snd]. eapply newKeys_trans; [exact K0|].
    apply newKeys_eq. rewrite LIs_mapMemory. exact H2.
Qed.

Lemma load_newKeys (fuel : nat) :
  forall P w r w',
    load H fuel P w = Ok (r, w') ->
    newKeys (fun k => Path (resolvePath k) = k) w w'.
Proof.
  induction fuel as [|fuel IH]; intros P w r w'; [discriminate|].
  cbn [load].
  destruct (LIs w !! Path (resolvePath P)) as [l|] eqn:Hl.
  - intros [= <- <-]. apply newKeys_refl.
  - destruct (negb (isFileValid H (resolvePath P))).
    + intros [= <- <-]. apply newKeys_eq. reflexivity.
    + set (w0 := debug _ w).
      assert (K0 : newKeys (fun k => Path (resolvePath k) = k) w w0)
        by (apply newKeys_eq; reflexivity).
      clearbody w0.
      destruct (files H !! Path (resolvePath P)) as [[Bin| |]|] eqn:Hf.
      * destruct (loadMachO_with H (load H fuel) _ w0) as [[LLP w1]| |] eqn:E;
          cbn; try discriminate.
        intros [= <- <-].
        eapply newKeys_trans; [exact K0|].
        eapply newKeys_trans; [|apply newKeys_eq; reflexivity].
        eapply (loadMachO_with_newKeys (load H fuel) _ IH _ w0 LLP w1);
          [apply resolvePath_Path_stable | exact E].
      * pose proof (loadPE_newKeys (fun k => Path (resolvePath k) = k)
                      (Path (resolvePath P)) w0 (resolvePath_Path_stable P)) as K1.
        destruct (loadPE H _ w0) as [r1 w1]. cbn [snd] in K1. cbn.
        destruct r1 as [LLP|]; intros [= <- <-].
        -- eapply newKeys_trans; [exact K0|].
           eapply newKeys_trans; [exact K1 | apply newKeys_eq; reflexivity].
        -- eapply newKeys_trans; eassumption.
      * intros [= <- <-]. exact K0.
      * intros [= <- <-]. exact K0.
Qed.

(** X18. Every key of the index is a resolved path: if resolving a key gives
    the key back for all keys before a [load], it does so after it, whatever
    was loaded on the way. *)
Theorem load_keeps_keys_resolved
    (fuel : nat) (P : string) (w w' : World) (r : option nat)
    (Hkeys : resolvedKeys w)
    (Hload : load H fuel P w = Ok (r, w')) :
  resolvedKeys w'.
Proof.
  intros k l Hk.
  destruct (load_newKeys fuel P w r w' Hload k) as [[l0 Hl0]|HQ]; [eauto | |exact HQ].
  exact (Hkeys k l0 Hl0).
Qed.

(** X19. When the keys of the index are resolved paths, the code hook at an
    address inside a loaded Dylib finds the library again without loading
    anything and returns at once: the state, the log included, is unchanged. *)
Theorem handleCode_in_dylib_changes_nothing
    (fuel : nat) (Addr : Z) (w : World) (LibPath : string) (Lib : nat)
    (LL : LoadedLibrary)
    (Hkeys : resolvedKeys w)
    (Hlookup : lookup Addr w = Some (LibPath, Lib))
    (Hrec : store w !! Lib = Some LL)
    (Hdylib : isDylib LL = true) :
  handleCode H (S fuel) Addr w = Ok w.
Proof.
  unfold handleCode, inspect. rewrite Hlookup.
  assert (Hin : LIs w !! LibPath = Some Lib).
  { unfold lookup in Hlookup. apply find_some in Hlookup as [Hin _].
    apply elem_of_map_to_list, list_elem_of_In, Hin. }
  rewrite (load_hit H fuel LibPath w Lib).
  2:{ rewrite (Hkeys _ _ Hin). exact Hin. }
  cbn [mbind res_mbind res_bind]. rewrite Hrec, Hdylib. reflexivity.
Qed.

Lemma sameButLog_refl w : sameButLog w w.
Proof. unfold sameButLog. destruct w; reflexivity. Qed.

Lemma sameButLog_trans w1 w2 w3 :
  sameButLog w1 w2 -> sameButLog w2 w3 -> sameButLog w1 w3.
Proof. unfold sameButLog. intros E12 E23. rewrite E23, E12. reflexivity. Qed.

Lemma sameButLog_debug l w : sameButLog w (debug l w).
Proof. reflexivity. Qed.

Lemma sameButLog_error msg b w : sameButLog w (error H msg b w).
Proof. reflexivity. Qed.

Lemma sameButLog_fold_error msgs :
  forall w, sameButLog w (fold_left (fun w msg => error H msg false w) msgs w).
Proof.
  induction msgs as [|m msgs IH]; intros w; simpl; [apply sameButLog_refl|].
  eapply sameButLog_trans; [apply (sameButLog_error m false w) | apply IH].
Qed.

(** X20. A path that is not in the index and whose file is rejected, or is
    neither a Mach-O nor a PE file, loads to null and leaves everything but
    the log as it was; the failure is not remembered, so a second [load] of
    the path goes through the same checks and reports again. *)
Theorem load_failure_is_not_cached
    (fuel n : nat) (P : string) (w : World)
    (Hnew : LIs w !! Path (resolvePath P) = None)
    (Hbad : isFileValid H (resolvePath P) = false
            \/ match files H !! Path (resolvePath P) with
               | Some (MachOFile _) | Some PEFile => False
               | _ => True
               end) :
  exists w',
    load H (S fuel) P w = Ok (None, w')
    /\ sameButLog w w'
    /\ (exists w'', load H (S n) P w' = Ok (None, w'')
                    /\ (length (out w') < length (out w''))%nat).
Proof.
  assert (Hstep : forall w0, LIs w0 = LIs w -> forall m,
             exists w1, load H (S m) P w0 = Ok (None, w1)
                        /\ sameButLog w0 w1
                        /\ (length (out w0) < length (out w1))%nat).
  { intros w0 E0 m. cbn [load]. rewrite E0, Hnew.
    destruct (isFileValid H (resolvePath P)) eqn:Hv; cbn [negb].
    - destruct Hbad as [?|Hbad]; [discriminate|].
      destruct (files H !! Path (resolvePath P)) as [[Bin| |]|];
        try contradiction;
        (eexists; split; [reflexivity|]; split; [reflexivity|];
         cbn; rewrite !length_app; cbn; lia).
    - eexists. split; [reflexivity|]. split; [reflexivity|].
      cbn. rewrite length_app. cbn. lia. }
  destruct (Hstep w eq_refl fuel) as (w' & Hrun & Hsame & _).
  exists w'. split; [exact Hrun|]. split; [exact Hsame|].
  destruct (Hstep w' ltac:(unfold sameButLog in Hsame; rewrite Hsame; reflexivity) n)
    as (w'' & Hrun' & _ & Hlen).
  exists w''. auto.
Qed.

(** X21. A library that [load] has just loaded carries the wrapper flag of
    its path: [IsWrapperDLL] is set exactly when the resolved path is relative,
    starts with [gen\] and ends with [.wrapper.dll]. *)
Theorem load_flags_wrapper_by_path
    (fuel : nat) (P : string) (w w' : World) (l : nat)
    (Hwf : wellFormed w)
    (Hnew : LIs w !! Path (resolvePath P) = None)
    (Hload : load H fuel P w = Ok (Some l, w')) :
  exists LL, store w' !! l = Some LL
             /\ IsWrapperDLL LL = isWrapperPath (resolvePath P).
Proof.
  pose proof (load_sound H fuel P w Hwf) as Hs. rewrite Hload in Hs. cbn in Hs.
  destruct (load_keeps H fuel P w (Some l) w' Hload) as [_ Hentry].
  destruct (Hs _ _ (Hentry l eq_refl)) as [[LL HLL] _].
  exists LL. split; [exact HLL|].
  destruct fuel as [|fuel]; [discriminate|].
  revert Hload. cbn [load]. rewrite Hnew.
  destruct (negb (isFileValid H (resolvePath P))); [discriminate|].
  set (w0 := debug _ w). clearbody w0.
  assert (Hupd : forall w1,
             w' = updLib l (withWrapper (isWrapperPath (resolvePath P))) w1 ->
             IsWrapperDLL LL = isWrapperPath (resolvePath P)).
  { intros w1 ->. rewrite store_updLib in HLL.
    destruct (decide (l = l)) as [_|?]; [|contradiction].
    destruct (store w1 !! l) as [LL1|]; [|discriminate].
    injection HLL as <-. reflexivity. }
  destruct (files H !! Path (resolvePath P)) as [[Bin| |]|]; try discriminate.
  - destruct (loadMachO_with H (load H fuel) _ w0) as [[LLP w1]| |];
      cbn; try discriminate.
    intros [= <- <-]. apply (Hupd w1). reflexivity.
  - destruct (loadPE H _ w0) as [[LLP|] w1]; cbn; try discriminate.
    intros [= <- <-]. apply (Hupd w1). reflexivity.
Qed.










(** ** Callbacks *)

Lemma decodeNext_log fuel TD w Sz TD' w' :
  decodeNext H fuel TD w = Ok (Sz, TD', w') -> sameButLog w w'.
Proof.
  unfold decodeNext.
  destruct (TypeDecoder.getNextTypeSize fuel _) as [[z d1]| |];
    cbn [mbind res_mbind res_bind]; try discriminate.
  intros [= <- <- <-]. apply sameButLog_fold_error.
Qed.

(** The loop over the arguments of a callback counts up to four. *)
Lemma callbackArgs_bound (fuel : nat) :
  forall TD ArgC w r w',
    callbackArgs H fuel TD ArgC w = Ok (r, w') ->
    sameButLog w w'
    /\ (forall n, r = Some n -> ArgC <= 4 -> ArgC <= n <= 4).
Proof.
  induction fuel as [|fuel IH]; intros TD ArgC w r w'; [discriminate|].
  cbn [callbackArgs].
  destruct (TypeDecoder.hasNext TD) as [[|]| |];
    cbn [mbind res_mbind res_bind]; try discriminate.
  - destruct (decodeNext H (S fuel) TD w) as [[[Sz TD1] w1]| |] eqn:E;
      cbn [mbind res_mbind res_bind]; try discriminate.
    apply decodeNext_log in E.
    destruct (Z.eqb Sz TypeDecoder.InvalidSize).
    { intros [= <- <-]. split; [exact E | discriminate]. }
    destruct (Z.eqb Sz 4).
    + destruct (Z.ltb_spec 3 ArgC).
      * intros [= <- <-]. split; [|discriminate].
        eapply sameButLog_trans; [exact E | apply sameButLog_error].
      * intros E'. apply IH in E' as [E1 E2].
        split; [eapply sameButLog_trans; eassumption|].
        intros n Hn HA. specialize (E2 n Hn ltac:(lia)). lia.
    + intros [= <- <-]. split; [|discriminate].
      eapply sameButLog_trans; [exact E | apply sameButLog_error].
  - intros [= <- <-]. split; [apply sameButLog_refl|].
    intros n [= <-] HA. lia.
Qed.

(** X23. [translate] changes nothing but the log, and it returns the address
    itself with the closures untouched, or null with no new trampoline, or
    the code pointer of a new trampoline bound to the address; such a
    trampoline has at most four arguments and an interface that libffi
    accepted. *)
Theorem translate_binds_at_most_four_arguments
    (fuel : nat) (Addr Ptr : Z) (cs cs' : Closures) (w w' : World)
    (Hrun : translate H F fuel Addr cs w = Ok (Ptr, cs', w')) :
  sameButLog w w'
  /\ ((Ptr = Addr /\ cs' = cs /\ w' = w)
      \/ (Ptr = 0 /\ bound cs' = bound cs)
      \/ exists Returns ArgC,
           bound cs' = <[Ptr := Trampoline.mk (Some (ArgC, Returns)) Returns ArgC Addr]>
                         (bound cs)
           /\ 0 <= ArgC <= 4
           /\ ffi_prep_cif F ArgC Returns = true).
Proof.
  revert Hrun. unfold translate.
  destruct (lookup Addr w) as [[p Lib]|];
    [|intros [= <- <- <-]; split; [apply sameButLog_refl | left; auto]].
  destruct (store w !! Lib) as [Dylib|]; [|discriminate].
  destruct (isDylib Dylib); cbn [negb];
    [|intros [= <- <- <-]; split; [apply sameButLog_refl | left; auto]].
  destruct (getMethodType H Dylib Addr) as [T|];
    [|intros [= <- <- <-]; split; [apply sameButLog_error | right; left; auto]].
  set (w0 := debug _ w).
  assert (L0 : sameButLog w w0) by apply sameButLog_debug.
  clearbody w0.
  destruct (decodeNext H fuel (TypeDecoder.init T) w0) as [[[Sz TD] w1]| |] eqn:E;
    cbn [mbind res_mbind res_bind]; try discriminate.
  apply decodeNext_log in E.
  assert (L1 : sameButLog w w1) by (eapply sameButLog_trans; eassumption).
  clear L0 E w0.
  set (cs0 := mkClosures (allocated cs) (S (trampolines cs)) (bound cs)).
  assert (Hfin : forall Returns,
             ('(ArgC, w2) ← callbackArgs H fuel TD 0 w1;
              match ArgC with
              | None => Ok (0, cs0, w2)
              | Some ArgC => Ok (createTrampoline H F Returns ArgC Addr cs0 w2)
              end) = Ok (Ptr, cs', w') ->
             sameButLog w w'
             /\ ((Ptr = Addr /\ cs' = cs /\ w' = w)
                 \/ (Ptr = 0 /\ bound cs' = bound cs)
                 \/ exists Returns ArgC,
                      bound cs'
                      = <[Ptr := Trampoline.mk (Some (ArgC, Returns)) Returns ArgC Addr]>
                          (bound cs)
                      /\ 0 <= ArgC <= 4
                      /\ ffi_prep_cif F ArgC Returns = true)).
  { intros Returns.
    destruct (callbackArgs H fuel TD 0 w1) as [[r w2]| |] eqn:E;
      cbn [mbind res_mbind res_bind]; try discriminate.
    apply callbackArgs_bound in E as [L2 HA].
    assert (L12 : sameButLog w w2) by (eapply sameButLog_trans; eassumption).
    destruct r as [ArgC|];
      [|intros [= <- <- <-]; split; [exact L12 | right; left; auto]].
    specialize (HA ArgC eq_refl ltac:(lia)).
    unfold createTrampoline.
    destruct (ffi_closure_alloc F (allocated cs0)) as [[Closure Ptr0]|].
    2:{ intros [= <- <- <-]. split; [|right; left; auto].
        eapply sameButLog_trans; [exact L12 | apply sameButLog_error]. }
    destruct (ffi_prep_cif F ArgC Returns) eqn:Hcif; cbn [negb].
    2:{ intros [= <- <- <-]. split; [|right; left; auto].
        eapply sameButLog_trans; [exact L12 | apply sameButLog_error]. }
    destruct (ffi_prep_closure_loc F Closure Ptr0); cbn [negb].
    2:{ intros [= <- <- <-]. split; [|right; left; auto].
        eapply sameButLog_trans; [exact L12 | apply sameButLog_error]. }
    intros [= <- <- <-]. split; [exact L12|].
    right. right. exists Returns, ArgC. cbn. auto. }
  destruct (Z.eqb Sz 0); [apply Hfin|].
  destruct (Z.eqb Sz 4); [apply Hfin|].
  intros [= <- <- <-]. split; [|right; left; auto].
  eapply sameButLog_trans; [exact L1 | apply sameButLog_error].
Qed.

Lemma wordItem_simple (it : ascii * string) : wordItem it -> simpleItem it.
Proof.
  intros [Hw Hd]. split; [|exact Hd]. unfold simpleTag. rewrite Hw. apply orb_true_r.
Qed.

Lemma wordItem_size (it : ascii * string) : wordItem it -> tagSize it.1 = 4.
Proof.
  intros [Hw _]. unfold tagSize.
  destruct (Ascii.eqb_spec it.1 "v") as [E|_]; [|reflexivity].
  rewrite E in Hw. discriminate.
Qed.

Lemma callbackArgs_words (items : list (ascii * string)) (w : World) :
  Forall wordItem items ->
  forall fuel ArgC,
    (length items + 2 <= fuel)%nat ->
    0 <= ArgC -> ArgC + Z.of_nat (length items) <= 4 ->
    callbackArgs H fuel (TypeDecoder.mk (TypeDecoder.At (methodType items)) []) ArgC w
    = Ok (Some (ArgC + Z.of_nat (length items)), w).
Proof.
  induction 1 as [|[c ds] items Hit Hall IH]; intros fuel ArgC Hfuel H0 H4.
  - destruct fuel as [|fuel]; [simpl in Hfuel; lia|].
    cbn. rewrite Z.add_0_r. reflexivity.
  - cbn [length] in Hfuel, H4. destruct fuel as [|fuel]; [lia|].
    pose proof (wordItem_simple _ Hit) as [Hc Hd]. cbn [fst snd] in Hc, Hd.
    destruct (simpleTag_cases c Hc) as (_ & _ & Hnul & _).
    cbn [callbackArgs]. unfold TypeDecoder.hasNext.
    cbn [TypeDecoder.T methodType fst snd TypeDecoder.deref mbind res_mbind res_bind].
    rewrite Hnul. cbn [negb].
    change (String c (ds ++ methodType items)) with (methodType ((c, ds) :: items)).
    rewrite decodeNext_simple;
      [|exact Hc|exact Hd|
       |lia].
    2:{ clear -Hall. induction Hall as [|it its Hi _ IHs]; constructor;
          [apply wordItem_simple, Hi | exact IHs]. }
    cbn [mbind res_mbind res_bind].
    pose proof (wordItem_size _ Hit) as Hsz. cbn [fst] in Hsz. rewrite Hsz.
    change (Z.eqb 4 TypeDecoder.InvalidSize) with false.
    change (Z.eqb 4 4) with true. cbv iota.
    destruct (Z.ltb_spec 3 ArgC); [lia|].
    rewrite IH by lia. do 3 f_equal. cbn [length]. lia.
Qed.

(** X24. A method of a Dylib whose type has a simple return type and at most
    four word-sized arguments is translated to the code pointer libffi
    allocates: the trampoline bound to it has one [uint32] argument per
    argument of the type, returns a value unless the return type is [v], and
    points back to the address. One closure is allocated and one trampoline
    counted. *)
Theorem translate_makes_a_trampoline
    (fuel : nat) (Addr Closure Ptr : Z) (cs : Closures) (w : World)
    (p : string) (Lib : nat) (Dylib : LoadedLibrary)
    (ret : ascii * string) (items : list (ascii * string))
    (Hlookup : lookup Addr w = Some (p, Lib))
    (Hrec : store w !! Lib = Some Dylib)
    (Hdylib : isDylib Dylib = true)
    (Htype : getMethodType H Dylib Addr = Some (methodType (ret :: items)))
    (Hret : simpleItem ret) (Hitems : Forall wordItem items)
    (Hfour : (length items <= 4)%nat)
    (Hfuel : (length items + 2 <= fuel)%nat)
    (Halloc : ffi_closure_alloc F (allocated cs) = Some (Closure, Ptr))
    (Hcif : ffi_prep_cif F (Z.of_nat (length items)) (negb (Ascii.eqb ret.1 "v")) = true)
    (Hloc : ffi_prep_closure_loc F Closure Ptr = true) :
  let Returns := negb (Ascii.eqb ret.1 "v") in
  let ArgC := Z.of_nat (length items) in
  exists w',
    translate H F fuel Addr cs w
    = Ok (Ptr,
          mkClosures (S (allocated cs)) (S (trampolines cs))
            (<[Ptr := Trampoline.mk (Some (ArgC, Returns)) Returns ArgC Addr]> (bound cs)),
          w')
    /\ sameButLog w w'.
Proof.
  intros Returns ArgC. subst Returns ArgC.
  destruct ret as [c ds]. destruct Hret as [Hc Hd]. cbn [fst snd] in *.
  unfold translate. rewrite Hlookup, Hrec, Hdylib, Htype. cbn [negb].
  set (w0 := debug _ w).
  exists w0. split; [|apply sameButLog_debug].
  unfold TypeDecoder.init.
  rewrite decodeNext_simple;
    [|exact Hc|exact Hd| |lia].
  2:{ clear -Hitems. induction Hitems as [|it its Hi _ IHs]; constructor;
        [apply wordItem_simple, Hi | exact IHs]. }
  cbn [mbind res_mbind res_bind].
  assert (Hargs : callbackArgs H fuel
                    (TypeDecoder.mk (TypeDecoder.At (methodType items)) []) 0 w0
                  = Ok (Some (Z.of_nat (length items)), w0)).
  { rewrite (callbackArgs_words items w0 Hitems fuel 0) by lia. reflexivity. }
  assert (Hmk : forall Returns,
             ffi_prep_cif F (Z.of_nat (length items)) Returns = true ->
             createTrampoline H F Returns (Z.of_nat (length items)) Addr
               (mkClosures (allocated cs) (S (trampolines cs)) (bound cs)) w0
             = (Ptr,
                mkClosures (S (allocated cs)) (S (trampolines cs))
                  (<[Ptr := Trampoline.mk (Some (Z.of_nat (length items), Returns))
                              Returns (Z.of_nat (length items)) Addr]> (bound cs)),
                w0)).
  { intros Returns HR. unfold createTrampoline. cbn [allocated trampolines bound].
    rewrite Halloc, HR, Hloc. reflexivity. }
  unfold tagSize. destruct (Ascii.eqb c "v"); cbn [Z.eqb negb] in *;
    rewrite Hargs; cbn [mbind res_mbind res_bind]; rewrite Hmk by exact Hcif;
    reflexivity.
Qed.

Lemma sameButRegs_refl w : sameButRegs w w.
Proof. unfold sameButRegs. destruct w; reflexivity. Qed.

Lemma sameButRegs_writeReg r v w w' :
  sameButRegs w w' -> sameButRegs w (writeReg r v w').
Proof. unfold sameButRegs. intros E. rewrite E at 1. reflexivity. Qed.

Lemma sameButRegs_from_writeReg r v w w' :
  sameButRegs (writeReg r v w) w' -> sameButRegs w w'.
Proof. unfold sameButRegs. intros E. rewrite E at 1. reflexivity. Qed.

Lemma readReg_writeReg (r r' v : Z) (w : World) :
  readReg r' (writeReg r v w) = if Z.eqb r' r then wrap32 v else readReg r' w.
Proof.
  unfold readReg, writeReg, setReg. cbn [regs setRegs].
  destruct (Z.eqb r' r); [|reflexivity].
  unfold wrap32. apply Z.mod_mod. lia.
Qed.

Lemma passArgs_registers (Args : list Z) (n : nat) :
  forall RegId I w,
    (I + n <= length Args)%nat ->
    exists w',
      passArgs n RegId I Args w = Ok w'
      /\ sameButRegs w w'
      /\ (forall j a, (j < n)%nat -> Args !! (I + j)%nat = Some a ->
                      readReg (RegId + Z.of_nat j) w' = wrap32 a)
      /\ (forall r, r < RegId \/ RegId + Z.of_nat n <= r -> readReg r w' = readReg r w).
Proof.
  induction n as [|n IH]; intros RegId I w Hlen.
  - exists w. split; [reflexivity|]. split; [apply sameButRegs_refl|].
    split; [intros; lia | reflexivity].
  - cbn [passArgs].
    destruct (Args !! I) as [I32|] eqn:EI; [|apply lookup_ge_None in EI; lia].
    destruct (IH (RegId + 1) (S I) (writeReg RegId I32 w) ltac:(lia))
      as (w' & Hrun & Hsame & Hargs & Hrest).
    exists w'. split; [exact Hrun|].
    split; [eapply sameButRegs_from_writeReg, Hsame|]. split.
    + intros j a Hj Ha. destruct j as [|j].
      * rewrite Nat.add_0_r in Ha. rewrite Ha in EI. injection EI as ->.
        rewrite Z.add_0_r, Hrest by lia.
        rewrite readReg_writeReg, Z.eqb_refl. reflexivity.
      * replace (RegId + Z.of_nat (S j)) with (RegId + 1 + Z.of_nat j) by lia.
        apply Hargs; [lia|]. rewrite <- Ha. f_equal. lia.
    + intros r Hr. rewrite Hrest by lia. rewrite readReg_writeReg.
      destruct (Z.eqb_spec r RegId); [lia | reflexivity].
Qed.

(** X25. The call of a trampoline writes argument [i] to register [R0+i],
    leaves the other registers, memory, the stack of return addresses and the
    libraries alone, and executes the target from that state; the value handed
    back to the native caller is [R0] after the execution, if the trampoline
    returns one. *)
Theorem trampoline_passes_arguments_in_registers
    (fuel : nat) (Tr : Trampoline.t) (Args : list Z) (w : World)
    (HArgC : 0 <= Trampoline.ArgC Tr)
    (Hargs : length Args = Z.to_nat (Trampoline.ArgC Tr)) :
  exists w1,
    handleTrampoline H fuel Tr Args w
    = (w2 ← execute H fuel (Trampoline.Addr Tr) w1;
       Ok (if Trampoline.Returns Tr then Some (readReg UC_ARM_REG_R0 w2) else None, w2))
    /\ (forall i a, Args !! i = Some a ->
                    readReg (UC_ARM_REG_R0 + Z.of_nat i) w1 = wrap32 a)
    /\ (forall r, r < UC_ARM_REG_R0 \/ UC_ARM_REG_R0 + Trampoline.ArgC Tr <= r ->
                  readReg r w1 = readReg r w)
    /\ mem w1 = mem w /\ LRs w1 = LRs w /\ LIs w1 = LIs w /\ store w1 = store w.
Proof.
  unfold handleTrampoline.
  set (w0 := debug _ w).
  destruct (passArgs_registers Args (Z.to_nat (Trampoline.ArgC Tr)) UC_ARM_REG_R0 0 w0
              ltac:(lia)) as (w1 & Hrun & Hsame & Hregs & Hrest).
  exists w1. rewrite Hrun. cbn [mbind res_mbind res_bind].
  split.
  { destruct (execute H fuel (Trampoline.Addr Tr) w1) as [w2| |]; cbn; [|reflexivity..].
    destruct (Trampoline.Returns Tr); reflexivity. }
  split.
  { intros i a Ha. apply Hregs; [|exact Ha].
    apply lookup_lt_Some in Ha. lia. }
  split.
  { intros r Hr. rewrite Hrest; [reflexivity|]. rewrite Z2Nat.id by lia. exact Hr. }
  unfold sameButRegs in Hsame. rewrite Hsame. repeat split.
Qed.

Lemma pushArgs_registers (Args : list Z) :
  forall RegId w,
    UC_ARM_REG_R0 <= RegId <= UC_ARM_REG_R3 + 1 ->
    match pushArgs RegId Args w with
    | Some w' =>
        RegId + Z.of_nat (length Args) <= UC_ARM_REG_R3 + 1
        /\ sameButRegs w w'
        /\ (forall j a, Args !! j = Some a ->
                        readReg (RegId + Z.of_nat j) w' = wrap32 a)
        /\ (forall r, r < RegId \/ RegId + Z.of_nat (length Args) <= r ->
                      readReg r w' = readReg r w)
    | None => UC_ARM_REG_R3 + 1 < RegId + Z.of_nat (length Args)
    end.
Proof.
  induction Args as [|Arg Args IH]; intros RegId w HR.
  - cbn [pushArgs length]. split; [lia|].
    split; [apply sameButRegs_refl|]. split; [intros j a Hj; discriminate | reflexivity].
  - cbn [pushArgs length].
    destruct (Z.leb_spec UC_ARM_REG_R0 RegId) as [_|?]; [|lia].
    destruct (Z.leb_spec RegId UC_ARM_REG_R3) as [Hle|Hgt]; cbn [andb]; [|lia].
    specialize (IH (RegId + 1) (writeReg RegId Arg w) ltac:(lia)).
    destruct (pushArgs (RegId + 1) Args (writeReg RegId Arg w)) as [w'|]; [|lia].
    destruct IH as (Hlen & Hsame & Hargs & Hrest).
    split; [lia|]. split; [eapply sameButRegs_from_writeReg, Hsame|]. split.
    + intros j a Ha. destruct j as [|j].
      * injection Ha as ->. rewrite Z.add_0_r, Hrest by lia.
        rewrite readReg_writeReg, Z.eqb_refl. reflexivity.
      * replace (RegId + Z.of_nat (S j)) with (RegId + 1 + Z.of_nat j) by lia.
        apply Hargs. exact Ha.
    + intros r Hr. rewrite Hrest by lia. rewrite readReg_writeReg.
      destruct (Z.eqb_spec r RegId); [lia | reflexivity].
Qed.

(** X26. [callBack] to an address inside a Dylib with at most four arguments
    writes argument [i] to register [R0+i], changes nothing else, and executes
    the address from that state; with more than four arguments the call does
    not compile. *)
Theorem callBack_enters_emulation_with_arguments
    (fuel : nat) (FP : Z) (Args : list Z) (w : World)
    (p : string) (Lib : nat) (LL : LoadedLibrary)
    (Hlookup : lookup FP w = Some (p, Lib))
    (Hrec : store w !! Lib = Some LL)
    (Hdylib : isDylib LL = true) :
  if Nat.leb (length Args) 4 then
    exists w1,
      callBack H fuel FP Args w = Some (execute H fuel FP w1)
      /\ (forall i a, Args !! i = Some a ->
                      readReg (UC_ARM_REG_R0 + Z.of_nat i) w1 = wrap32 a)
      /\ (forall r, r < UC_ARM_REG_R0 \/ UC_ARM_REG_R0 + Z.of_nat (length Args) <= r ->
                    readReg r w1 = readReg r w)
      /\ sameButRegs w w1
  else callBack H fuel FP Args w = None.
Proof.
  unfold callBack.
  pose proof (pushArgs_registers Args UC_ARM_REG_R0 w
                ltac:(unfold UC_ARM_REG_R0, UC_ARM_REG_R3; lia)) as Hp.
  destruct (pushArgs UC_ARM_REG_R0 Args w) as [w1|].
  - destruct Hp as (Hlen & Hsame & Hargs & Hrest).
    destruct (Nat.leb_spec (length Args) 4) as [_|Hgt];
      [|unfold UC_ARM_REG_R0, UC_ARM_REG_R3 in Hlen; lia].
    exists w1. rewrite Hlookup, Hrec, Hdylib. cbn [mbind res_mbind res_bind negb].
    auto.
  - destruct (Nat.leb_spec (length Args) 4) as [Hle|_]; [|reflexivity].
    unfold UC_ARM_REG_R0, UC_ARM_REG_R3 in Hp. lia.
Qed.

(** X27. [callBackR] to an address outside every Dylib calls the native
    function and then returns the guest register [R0] of the emulator, not
    the value the native function returned. *)
Theorem callBackR_of_native_code_returns_guest_R0
    (fuel : nat) (FP : Z) (Args : list Z) (w : World)
    (Hargs : (length Args <= 4)%nat)
    (Hnative : match lookup FP w with
               | None => True
               | Some (_, Lib) =>
                   exists LL, store w !! Lib = Some LL /\ isDylib LL = false
               end) :
  let '(RetVal, w') := hostCall H FP Args w in
  callBackR H fuel FP Args w = Some (Ok (readReg UC_ARM_REG_R0 w', w')).
Proof.
  destruct (hostCall H FP Args w) as [RetVal w'] eqn:Ecall.
  unfold callBackR, callBack.
  pose proof (pushArgs_registers Args UC_ARM_REG_R0 w
                ltac:(unfold UC_ARM_REG_R0, UC_ARM_REG_R3; lia)) as Hp.
  destruct (pushArgs UC_ARM_REG_R0 Args w) as [w1|];
    [|unfold UC_ARM_REG_R0, UC_ARM_REG_R3 in Hp; lia].
  destruct (lookup FP w) as [[p Lib]|].
  - destruct Hnative as (LL & -> & ->). cbn [mbind res_mbind res_bind negb].
    rewrite Ecall. reflexivity.
  - cbn [mbind res_mbind res_bind negb]. rewrite Ecall. reflexivity.
Qed.


(** ** The start of an application and unmapped memory *)

(** X28. Executing a Dylib needs the runtime: when [libdyld.dll] is not in
    the index and its file is rejected, or is neither a Mach-O nor a PE
    file, [load] returns null and the call of [_dyld_initialize] goes through
    the null pointer, unless a hook could not be installed and the execution
    has ended with an exception before; either way it does not return. *)
Theorem executeLibrary_faults_without_the_runtime
    (fuel : nat) (p : nat) (LL : LoadedLibrary) (w : World)
    (Hrec : store w !! p = Some LL)
    (Hdylib : isDylib LL = true)
    (Hnew : LIs w !! "libdyld.dll" = None)
    (Hbad : isFileValid H (resolvePath "libdyld.dll") = false
            \/ match files H !! "libdyld.dll" with
               | Some (MachOFile _) | Some PEFile => False
               | _ => True
               end) :
  executeLibrary H F (S fuel) (Some p) w = Fault.
Proof.
  unfold executeLibrary. rewrite Hrec, Hdylib. cbn [mbind res_mbind res_bind].
  destruct (forallb _ _); cbn [negb]; [|reflexivity].
  set (w1 := writeReg _ _ _).
  assert (H1 : LIs w1 = LIs w).
  { unfold w1. cbn [LIs writeReg setRegs]. rewrite LIs_mapMemory. reflexivity. }
  clearbody w1.
  unfold callSymbol at 2. cbn [load].
  change (Path (resolvePath "libdyld.dll")) with "libdyld.dll".
  rewrite H1, Hnew.
  destruct (isFileValid H (resolvePath "libdyld.dll")); cbn [negb];
    [|reflexivity].
  destruct Hbad as [?|Hbad]; [discriminate|].
  destruct (files H !! "libdyld.dll") as [[Bin| |]|]; try contradiction; reflexivity.
Qed.

(** X29. The hook for accesses to unmapped memory always lets the emulation
    go on: it logs the access, tries to map the page of the address as
    readable and writable with the size of the access, and changes neither
    the libraries nor registers, memory or the flags of the translator. *)
Theorem handleMemUnmapped_lets_emulation_continue (Addr Size : Z) (w : World) :
  let '(handled, w') := handleMemUnmapped H Addr Size w in
  handled = true
  /\ LIs w' = LIs w /\ store w' = store w /\ regs w' = regs w /\ mem w' = mem w
  /\ LRs w' = LRs w /\ Running w' = Running w /\ Restart w' = Restart w
  /\ Continue w' = Continue w /\ stopRequested w' = stopRequested w
  /\ (mapped w' = mapped w
      \/ exists s, mapped w'
                   = (mapped w ++ [(alignToPageSize H Addr, s,
                                    Z.lor UC_PROT_READ UC_PROT_WRITE)])%list).
Proof.
  unfold handleMemUnmapped.
  set (w1 := debug _ (dumpAddr H Addr (debug _ w))).
  assert (E1 : w1 = setOut (fun _ => out w1) w).
  { unfold w1, dumpAddr, dumpAddrIn.
    destruct (Z.eqb Addr (KernelAddr _)); [reflexivity|].
    destruct (lookup Addr _) as [[p l]|]; reflexivity. }
  clearbody w1. unfold mapMemory.
  destruct (uc_mem_map_ptr H _ _ _ _); rewrite E1; cbn.
  - repeat split. right. eexists. reflexivity.
  - repeat split. left. reflexivity.
Qed.

End Coverage.

(** * Runs of the further properties *)

(** X1 on a struct of two [int]s. *)
Lemma decoded_sizes_witness :
  TypeDecoder.getNextTypeSize 10 (TypeDecoder.init "{S=ii}8")
  = Ok (8, TypeDecoder.mk (TypeDecoder.At "") [])
  /\ wordsOrInvalid 8.
Proof.
  assert (Hrun : TypeDecoder.getNextTypeSize 10 (TypeDecoder.init "{S=ii}8")
                 = Ok (8, TypeDecoder.mk (TypeDecoder.At "") []))
    by (vm_compute; reflexivity).
  split; [exact Hrun|].
  exact (decoded_sizes_are_whole_words 10 _ _ 8 Hrun).
Defined.

(** X2 on a type the decoder has no case for. *)
Lemma invalid_size_witness :
  TypeDecoder.getNextTypeSize 10 (TypeDecoder.init "?8")
  = Ok (TypeDecoder.InvalidSize,
        TypeDecoder.mk (TypeDecoder.At "") ["unsupported type encoding"])
  /\ reported (TypeDecoder.init "?8") TypeDecoder.InvalidSize
       (TypeDecoder.mk (TypeDecoder.At "") ["unsupported type encoding"]).
Proof.
  assert (Hrun : TypeDecoder.getNextTypeSize 10 (TypeDecoder.init "?8")
                 = Ok (TypeDecoder.InvalidSize,
                       TypeDecoder.mk (TypeDecoder.At "")
                         ["unsupported type encoding"]))
    by (vm_compute; reflexivity).
  split; [exact Hrun|].
  exact (invalid_size_is_always_reported 10 _ _ _ Hrun).
Defined.

(** X3 on a pointer to [?], followed by an offset and an [int]. *)
Lemma pointer_witness :
  (knownTag "?" = false /\ "?"%char <> TypeDecoder.NUL)
  /\ TypeDecoder.getNextTypeSize 3 (TypeDecoder.init "^?4i")
     = Ok (4, TypeDecoder.mk (TypeDecoder.At "i") ["unsupported type encoding"]).
Proof.
  assert (Hc : knownTag "?" = false) by reflexivity.
  assert (Hnul : "?"%char <> TypeDecoder.NUL) by discriminate.
  split; [split; assumption|].
  exact (pointer_hides_unsupported_pointee "?" "4i" [] 0 Hc Hnul).
Defined.

(** X4 on a struct of two [int]s without its closing brace. *)
Lemma unterminated_struct_witness :
  (allChars nameChar "S" = true /\ allChars simpleTag "ii" = true)
  /\ TypeDecoder.sizesOf "{S=ii" = Fault.
Proof.
  assert (Hname : allChars nameChar "S" = true) by reflexivity.
  assert (Hbody : allChars simpleTag "ii" = true) by reflexivity.
  split; [split; assumption|].
  exact (unterminated_struct_reads_past_the_end "S" "ii" Hname Hbody).
Defined.

(** X5 on the type of a method without arguments that returns nothing. *)
Lemma offsets_witness :
  Forall simpleItem [("v"%char, "8"); ("@"%char, "0"); (":"%char, "4")]
  /\ TypeDecoder.sizesOf "v8@0:4" = Ok [0; 4; 4].
Proof.
  assert (Hitems : Forall simpleItem
                     [("v"%char, "8"); ("@"%char, "0"); (":"%char, "4")])
    by (repeat constructor).
  split; [exact Hitems|].
  exact (offsets_are_skipped _ Hitems).
Defined.

(** X6 on a point of two [float]s. *)
Lemma struct_size_witness :
  (allChars nameChar "CGPoint" = true /\ allChars simpleTag "ff" = true
   /\ (2 * String.length "ff" + 3 <= 7)%nat)
  /\ TypeDecoder.getNextTypeSize 7 (TypeDecoder.init "{CGPoint=ff}8")
     = Ok (8, TypeDecoder.mk (TypeDecoder.At "") []).
Proof.
  assert (Hname : allChars nameChar "CGPoint" = true) by reflexivity.
  assert (Hbody : allChars simpleTag "ff" = true) by reflexivity.
  assert (Hn : (2 * String.length "ff" + 3 <= 7)%nat) by (simpl; lia).
  split; [repeat split; assumption|].
  exact (struct_size_is_the_sum_of_its_fields "CGPoint" "ff" "8" [] 7 Hname Hbody Hn).
Defined.

(** X7 on a size of six bytes, and on one of eight. *)
Lemma loadArg_witness :
  (0 <= 6 < 2 ^ 32 /\ 6 mod 4 <> 0
   /\ loadArg 100 6 newDynamicCaller Demo.start = NoFuel)
  /\ (0 <= 8 < 2 ^ 32 /\ 8 mod 4 = 0
      /\ exists DC', loadArg 2 8 newDynamicCaller Demo.start = Ok DC'
                     /\ length (Args DC') = 2%nat).
Proof.
  assert (H6 : 0 <= 6 < 2 ^ 32) by lia.
  assert (H8 : 0 <= 8 < 2 ^ 32) by lia.
  assert (M6 : 6 mod 4 <> 0) by (vm_compute; discriminate).
  assert (M8 : 8 mod 4 = 0) by reflexivity.
  split.
  - split; [exact H6|]. split; [exact M6|].
    exact (proj1 (loadArg_returns_on_whole_words_only 6 newDynamicCaller Demo.start H6)
             M6 100%nat).
  - split; [exact H8|]. split; [exact M8|].
    exact (proj2 (loadArg_returns_on_whole_words_only 8 newDynamicCaller Demo.start H8)
             M8 2%nat ltac:(vm_compute; lia)).
Defined.

(** X8 on a method that returns an [int] and takes [self], [_cmd] and an
    [int]: the three words are those of R0, R1 and R2. *)
Lemma dynamic_call_witness :
  (simpleItem ("i"%char, "12")
   /\ Forall simpleItem [("@"%char, "0"); (":"%char, "4"); ("i"%char, "8")]
   /\ Continue Demo.start = false)
  /\ exists DC w',
       handleDynamically Demo.host 5 0x20100100 Fixtures.callbackType Demo.start
       = Ok (true, w')
       /\ Continuation w' = Some (CallDynamic DC true 0x20100100)
       /\ Args DC = [10; 11; 12].
Proof.
  assert (Hret : simpleItem ("i"%char, "12")) by (split; reflexivity).
  assert (Hitems : Forall simpleItem
                     [("@"%char, "0"); (":"%char, "4"); ("i"%char, "8")])
    by (repeat constructor).
  assert (Hcont : Continue Demo.start = false) by reflexivity.
  split; [repeat split; assumption|].
  destruct (dynamic_call_stages_the_words_of_the_type Demo.host 5 0x20100100
              _ _ Demo.start Hret Hitems Hcont ltac:(simpl; lia))
    as (DC & w' & H1 & H2 & H3 & _).
  exists DC, w'. split; [exact H1|]. split; [exact H2|].
  rewrite H3. vm_compute. reflexivity.
Defined.

(** X10 on a segment of four bytes in a page, loaded at 0x20100000. *)
Lemma loadSegment_witness :
  (MachO.relocations (Demo.textSegment 0 [1; 2; 3; 4] []) = []
   /\ 0 <= MachO.virtual_size (Demo.textSegment 0 [1; 2; 3; 4] []) < 2 ^ 32)
  /\ mem (loadSegment Demo.host 0 0x20100000 Demo.start
            (Demo.textSegment 0 [1; 2; 3; 4] [])) 0x20100002 = 3
  /\ mem (loadSegment Demo.host 0 0x20100000 Demo.start
            (Demo.textSegment 0 [1; 2; 3; 4] [])) 0x20100004 = 0
  /\ mem (loadSegment Demo.host 0 0x20100000 Demo.start
            (Demo.textSegment 0 [1; 2; 3; 4] [])) 0x7000 = 20.
Proof.
  assert (Hrel : MachO.relocations (Demo.textSegment 0 [1; 2; 3; 4] []) = [])
    by reflexivity.
  assert (Hsize : 0 <= MachO.virtual_size (Demo.textSegment 0 [1; 2; 3; 4] []) < 2 ^ 32)
    by (simpl; lia).
  split; [split; assumption|].
  pose proof (loadSegment_copies_and_zero_fills Demo.host 0 0x20100000 Demo.start
                _ Hrel Hsize) as T.
  cbv zeta in T.
  change (Z.eqb (convertProtection
                   (wrap32 (MachO.init_protection (Demo.textSegment 0 [1; 2; 3; 4] []))))
            UC_PROT_NONE) with false in T.
  cbv iota in T. destruct T as (T1 & T2 & T3).
  split; [exact (T1 2 ltac:(simpl; lia))|].
  split; [exact (T2 4 ltac:(simpl; lia))|].
  exact (T3 0x7000 ltac:(left; vm_compute; reflexivity)).
Defined.

(** X11 on the segments of [reloc.dylib], the second of which is at 0. *)
Lemma image_range_witness :
  In (Demo.textSegment 0 []
        [MachO.mkRelocation false MachO.ORIGIN_DYLDINFO 32 0x1004])
     (MachO.segments Demo.binReloc)
  /\ let '(LowAddr, HighAddr, _) :=
       fold_left (segmentRange Demo.host) (MachO.segments Demo.binReloc)
         (2 ^ 64 - 1, 0, Demo.start) in
     LowAddr <= 0 /\ 0x1000 <= HighAddr /\ 0 <= HighAddr.
Proof.
  assert (Hin : In (Demo.textSegment 0 []
                      [MachO.mkRelocation false MachO.ORIGIN_DYLDINFO 32 0x1004])
                   (MachO.segments Demo.binReloc))
    by (right; left; reflexivity).
  split; [exact Hin|].
  exact (image_range_covers_every_segment Demo.host Demo.binReloc _ Demo.start Hin).
Defined.

(** X12 on [empty.dylib]: the byte is allocated at 0x20100000. *)
Lemma loadMachO_empty_witness :
  (files Fixtures.host !! "empty.dylib" = Some (MachOFile Fixtures.binEmpty)
   /\ MachO.segments Fixtures.binEmpty = []
   /\ MachO.libraries Fixtures.binEmpty = []
   /\ MachO.bindings Fixtures.binEmpty = [])
  /\ exists w',
       loadMachO_with Fixtures.host (load Fixtures.host 1) "empty.dylib" Demo.start
       = Ok (0%nat, w')
       /\ store w' !! 0%nat
          = Some (mkLib 0x20100001 1 false (LoadedDylib Fixtures.binEmpty))
       /\ mapped w' = mapped Demo.start
       /\ allocs w' = 2%nat.
Proof.
  assert (Hfile : files Fixtures.host !! "empty.dylib"
                  = Some (MachOFile Fixtures.binEmpty))
    by (vm_compute; reflexivity).
  split; [repeat split; solve [exact Hfile | reflexivity]|].
  exact (loadMachO_without_segments Fixtures.host (load Fixtures.host 1)
           "empty.dylib" Fixtures.binEmpty Demo.start Hfile eq_refl eq_refl eq_refl).
Defined.

(** X13 on [guard.dylib], whose segment is at 0x4000, when no memory is
    left. *)
Lemma loadMachO_no_memory_witness :
  (files Fixtures.hostNoMemory !! "guard.dylib" = Some (MachOFile Fixtures.binGuard)
   /\ MachO.segments Fixtures.binGuard = [Fixtures.segGuard]
   /\ Z.eqb (convertProtection (wrap32 (MachO.init_protection Fixtures.segGuard)))
        UC_PROT_NONE = true
   /\ 0 <= MachO.virtual_address Fixtures.segGuard < 2 ^ 64 - 1
   /\ forall n sz,
        aligned_malloc Fixtures.hostNoMemory n sz (PageSize Fixtures.hostNoMemory) = 0)
  /\ exists w',
       loadMachO_with Fixtures.hostNoMemory (load Fixtures.hostNoMemory 1)
         "guard.dylib" Demo.start
       = Ok (0%nat, w')
       /\ In ("Error occurred: couldn't allocate memory for segments." ++ nl) (out w')
       /\ (StartAddress <$> store w' !! 0%nat) = Some (2 ^ 64 - 0x4000)
       /\ mem w' = mem Demo.start.
Proof.
  assert (Hfile : files Fixtures.hostNoMemory !! "guard.dylib"
                  = Some (MachOFile Fixtures.binGuard))
    by (vm_compute; reflexivity).
  assert (Hperm : Z.eqb (convertProtection
                           (wrap32 (MachO.init_protection Fixtures.segGuard)))
                    UC_PROT_NONE = true) by reflexivity.
  assert (Haddr : 0 <= MachO.virtual_address Fixtures.segGuard < 2 ^ 64 - 1)
    by (simpl; lia).
  assert (Hnull : forall n sz,
             aligned_malloc Fixtures.hostNoMemory n sz
               (PageSize Fixtures.hostNoMemory) = 0)
    by (intros; reflexivity).
  split; [exact (conj Hfile (conj eq_refl (conj Hperm (conj Haddr Hnull))))|].
  exact (loadMachO_goes_on_without_memory Fixtures.hostNoMemory
           (load Fixtures.hostNoMemory 1) "guard.dylib" Fixtures.binGuard
           Fixtures.segGuard Demo.start Hfile eq_refl eq_refl eq_refl eq_refl
           Hperm Haddr Hnull).
Defined.

(** X14 on [Foundation.dll], which exports no [_mh_dylib_header]. *)
Lemma loadPE_range_witness :
  (LoadPackagedLibrary Demo.host "Foundation.dll" <> 0
   /\ GetModuleInformation Demo.host (LoadPackagedLibrary Demo.host "Foundation.dll")
      = Some (0x10000000, 0x10000))
  /\ exists w' LL,
       loadPE Demo.host "Foundation.dll" Demo.start = (Some 0%nat, w')
       /\ store w' !! 0%nat = Some LL
       /\ kind LL = LoadedDll 0x10000000 false
       /\ StartAddress LL = 0x10000000
       /\ wrap64 (StartAddress LL + Size LL) = 0x10010000.
Proof.
  assert (Hlib : LoadPackagedLibrary Demo.host "Foundation.dll" <> 0)
    by (vm_compute; discriminate).
  assert (Hinfo : GetModuleInformation Demo.host
                    (LoadPackagedLibrary Demo.host "Foundation.dll")
                  = Some (0x10000000, 0x10000)) by reflexivity.
  split; [split; assumption|].
  exact (loadPE_range_ends_with_the_image Demo.host "Foundation.dll" Demo.start
           0x10000000 0x10000 Hlib Hinfo).
Defined.

(** X16 on the binding of [a.dylib], which stores the address of [_f] of
    [b.dylib] at offset 8 of the image. *)
Lemma bindSymbol_witness :
  (load Demo.host 1 "b.dylib" Fixtures.withCycle = Ok (Some 1%nat, Fixtures.withCycle)
   /\ store Fixtures.withCycle !! 1%nat
      = Some (mkLib 0x20200000 0x1000 false (LoadedDylib Demo.binB))
   /\ store Fixtures.withCycle !! 0%nat
      = Some (mkLib 0x20100000 0x1000 false (LoadedDylib Demo.binA)))
  /\ exists w',
       bindSymbol Demo.host (load Demo.host 1) 0 0x20100000
         (MachO.mkBinding MachO.BIND_CLASS_STANDARD MachO.BIND_TYPE_POINTER 0 true
            "b.dylib" "_f" 8) Fixtures.withCycle
       = Ok w'
       /\ read32 (mem w') 0x20100008 = 0x20200010
       /\ LIs w' = LIs Fixtures.withCycle.
Proof.
  set (BInfo := MachO.mkBinding MachO.BIND_CLASS_STANDARD MachO.BIND_TYPE_POINTER
                  0 true "b.dylib" "_f" 8).
  set (LibRec := mkLib 0x20200000 0x1000 false (LoadedDylib Demo.binB)).
  set (LL := mkLib 0x20100000 0x1000 false (LoadedDylib Demo.binA)).
  assert (Hload : load Demo.host 1 "b.dylib" Fixtures.withCycle
                  = Ok (Some 1%nat, Fixtures.withCycle))
    by (apply (load_hit Demo.host); vm_compute; reflexivity).
  assert (Hlib : store Fixtures.withCycle !! 1%nat = Some LibRec)
    by (vm_compute; reflexivity).
  assert (Hrec : store Fixtures.withCycle !! 0%nat = Some LL)
    by (vm_compute; reflexivity).
  split; [exact (conj Hload (conj Hlib Hrec))|].
  destruct (bindSymbol_stores_the_symbol_address Demo.host (load Demo.host 1)
              0 1 0x20100000 BInfo Fixtures.withCycle Fixtures.withCycle LibRec LL
              eq_refl eq_refl Hload Hlib Hrec
              ltac:(vm_compute; discriminate) eq_refl)
    as (w' & T1 & T2 & _ & T4 & _).
  exists w'. split; [exact T1|]. split; [exact T2 | exact T4].
Defined.

(** X18 on the load of two dylibs that refer to each other. *)
Lemma resolved_keys_witness :
  (resolvedKeys Demo.start
   /\ load Demo.host 10 "a.dylib" Demo.start = Ok (Some 0%nat, Fixtures.withCycle))
  /\ resolvedKeys Fixtures.withCycle.
Proof.
  assert (Hkeys : resolvedKeys Demo.start) by (intros k l Hk; discriminate Hk).
  assert (Hload : load Demo.host 10 "a.dylib" Demo.start
                  = Ok (Some 0%nat, Fixtures.withCycle))
    by (unfold Fixtures.withCycle; apply run_returns; vm_compute; reflexivity).
  split; [split; assumption|].
  exact (load_keeps_keys_resolved Demo.host 10 "a.dylib" Demo.start
           Fixtures.withCycle (Some 0%nat) Hkeys Hload).
Defined.

(** X19 at an address of the dylib with the wrappers. *)
Lemma handleCode_witness :
  (resolvedKeys Demo.withWrappers
   /\ lookup 0x20100100 Demo.withWrappers
      = Some (Path (resolvePath Demo.wrappersPath), 0%nat)
   /\ store Demo.withWrappers !! 0%nat
      = Some (mkLib 0x20100000 0x1000 false (LoadedDylib Demo.binWrappers)))
  /\ handleCode Demo.host 1 0x20100100 Demo.withWrappers = Ok Demo.withWrappers.
Proof.
  assert (Hload : load Demo.host 2 Demo.wrappersPath Demo.start
                  = Ok (Some 0%nat, Demo.withWrappers))
    by (unfold Demo.withWrappers; apply run_returns; vm_compute; reflexivity).
  assert (Hkeys : resolvedKeys Demo.withWrappers).
  { intros k l Hk.
    destruct (load_newKeys Demo.host 2 _ _ _ _ Hload k (mk_is_Some _ _ Hk))
      as [[l0 H0]|HQ]; [discriminate H0 | exact HQ]. }
  assert (Hlookup : lookup 0x20100100 Demo.withWrappers
                    = Some (Path (resolvePath Demo.wrappersPath), 0%nat))
    by (vm_compute; reflexivity).
  assert (Hrec : store Demo.withWrappers !! 0%nat
                 = Some (mkLib 0x20100000 0x1000 false (LoadedDylib Demo.binWrappers)))
    by (vm_compute; reflexivity).
  split; [exact (conj Hkeys (conj Hlookup Hrec))|].
  exact (handleCode_in_dylib_changes_nothing Demo.host 0 0x20100100 Demo.withWrappers
           _ 0%nat _ Hkeys Hlookup Hrec eq_refl).
Defined.

(** X20 on a file that does not exist. *)
Lemma load_failure_witness :
  (LIs Demo.start !! Path (resolvePath "missing.dll") = None
   /\ isFileValid Demo.host (resolvePath "missing.dll") = false)
  /\ exists w',
       load Demo.host 1 "missing.dll" Demo.start = Ok (None, w')
       /\ sameButLog Demo.start w'
       /\ exists w'', load Demo.host 1 "missing.dll" w' = Ok (None, w'')
                      /\ (length (out w') < length (out w''))%nat.
Proof.
  assert (Hnew : LIs Demo.start !! Path (resolvePath "missing.dll") = None)
    by (vm_compute; reflexivity).
  assert (Hbad : isFileValid Demo.host (resolvePath "missing.dll") = false)
    by (vm_compute; reflexivity).
  split; [split; assumption|].
  exact (load_failure_is_not_cached Demo.host 0 0 "missing.dll" Demo.start Hnew
           (or_introl Hbad)).
Defined.

(** X21 on the wrapper DLL of [Foundation.dll]. *)
Lemma wrapper_flag_witness :
  (wellFormed Demo.start
   /\ LIs Demo.start !! Path (resolvePath "gen\Foundation.wrapper.dll") = None
   /\ Demo.resultOf (load Demo.host 2 "gen\Foundation.wrapper.dll" Demo.start)
      = Some (Some 0%nat))
  /\ exists LL,
       store (Demo.stateOf (load Demo.host 2 "gen\Foundation.wrapper.dll" Demo.start))
         !! 0%nat = Some LL
       /\ IsWrapperDLL LL = true.
Proof.
  assert (Hwf : wellFormed Demo.start) by (intros k l Hk; discriminate Hk).
  assert (Hnew : LIs Demo.start !! Path (resolvePath "gen\Foundation.wrapper.dll")
                 = None) by (vm_compute; reflexivity).
  assert (Hres : Demo.resultOf (load Demo.host 2 "gen\Foundation.wrapper.dll" Demo.start)
                 = Some (Some 0%nat)) by (vm_compute; reflexivity).
  split; [exact (conj Hwf (conj Hnew Hres))|].
  exact (load_flags_wrapper_by_path Demo.host 2 "gen\Foundation.wrapper.dll"
           Demo.start _ 0%nat Hwf Hnew (run_returns _ _ Hres)).
Defined.

(** X23 on the method at offset 0x100 of the dylib with the wrappers, whose
    type is [i12@0:4i8]. *)
Lemma translate_bound_witness :
  Demo.resultOf (translate Fixtures.host Fixtures.ffi 6 0x20100100
                   Fixtures.noClosures Fixtures.withWrappers)
  = Some (0x40000010,
          mkClosures 1 1
            (<[0x40000010 := Trampoline.mk (Some (3, true)) true 3 0x20100100]> ∅))
  /\ sameButLog Fixtures.withWrappers
       (Demo.stateOf (translate Fixtures.host Fixtures.ffi 6 0x20100100
                        Fixtures.noClosures Fixtures.withWrappers)).
Proof.
  assert (Hres : Demo.resultOf (translate Fixtures.host Fixtures.ffi 6 0x20100100
                                  Fixtures.noClosures Fixtures.withWrappers)
                 = Some (0x40000010,
                         mkClosures 1 1
                           (<[0x40000010 := Trampoline.mk (Some (3, true)) true 3
                                              0x20100100]> ∅)))
    by (vm_compute; reflexivity).
  split; [exact Hres|].
  exact (proj1 (translate_binds_at_most_four_arguments Fixtures.host Fixtures.ffi 6
                  0x20100100 _ Fixtures.noClosures _ Fixtures.withWrappers _
                  (run_returns _ _ Hres))).
Defined.

(** X24 on the same method: libffi gives out the closure at 0x40000000 with
    its code at 0x40000010. *)
Lemma translate_trampoline_witness :
  (lookup 0x20100100 Fixtures.withWrappers
   = Some (Path (resolvePath Demo.wrappersPath), 0%nat)
   /\ store Fixtures.withWrappers !! 0%nat
      = Some (mkLib 0x20100000 0x1000 false (LoadedDylib Demo.binWrappers))
   /\ getMethodType Fixtures.host
        (mkLib 0x20100000 0x1000 false (LoadedDylib Demo.binWrappers)) 0x20100100
      = Some (methodType [("i"%char, "12"); ("@"%char, "0"); (":"%char, "4");
                          ("i"%char, "8")])
   /\ simpleItem ("i"%char, "12")
   /\ Forall wordItem [("@"%char, "0"); (":"%char, "4"); ("i"%char, "8")]
   /\ ffi_closure_alloc Fixtures.ffi (allocated Fixtures.noClosures)
      = Some (0x40000000, 0x40000010))
  /\ exists w',
       translate Fixtures.host Fixtures.ffi 5 0x20100100 Fixtures.noClosures
         Fixtures.withWrappers
       = Ok (0x40000010,
             mkClosures 1 1
               (<[0x40000010 := Trampoline.mk (Some (3, true)) true 3 0x20100100]> ∅),
             w')
       /\ sameButLog Fixtures.withWrappers w'.
Proof.
  set (Dylib := mkLib 0x20100000 0x1000 false (LoadedDylib Demo.binWrappers)).
  assert (Hlookup : lookup 0x20100100 Fixtures.withWrappers
                    = Some (Path (resolvePath Demo.wrappersPath), 0%nat))
    by (vm_compute; reflexivity).
  assert (Hrec : store Fixtures.withWrappers !! 0%nat = Some Dylib)
    by (vm_compute; reflexivity).
  assert (Htype : getMethodType Fixtures.host Dylib 0x20100100
                  = Some (methodType [("i"%char, "12"); ("@"%char, "0");
                                      (":"%char, "4"); ("i"%char, "8")]))
    by (vm_compute; reflexivity).
  assert (Hret : simpleItem ("i"%char, "12")) by (split; reflexivity).
  assert (Hitems : Forall wordItem [("@"%char, "0"); (":"%char, "4"); ("i"%char, "8")])
    by (repeat constructor).
  assert (Halloc : ffi_closure_alloc Fixtures.ffi (allocated Fixtures.noClosures)
                   = Some (0x40000000, 0x40000010)) by reflexivity.
  split; [exact (conj Hlookup (conj Hrec (conj Htype (conj Hret (conj Hitems Halloc)))))|].
  exact (translate_makes_a_trampoline Fixtures.host Fixtures.ffi 5 0x20100100
           0x40000000 0x40000010 Fixtures.noClosures Fixtures.withWrappers
           _ 0%nat Dylib _ _ Hlookup Hrec eq_refl Htype Hret Hitems
           ltac:(simpl; lia) ltac:(simpl; lia) Halloc eq_refl eq_refl).
Defined.

(** X25 on a trampoline of two arguments, called with 7 and 8. *)
Lemma trampoline_witness :
  (0 <= Trampoline.ArgC (Trampoline.mk (Some (2, true)) true 2 0x20100100)
   /\ length [7; 8]
      = Z.to_nat (Trampoline.ArgC (Trampoline.mk (Some (2, true)) true 2 0x20100100)))
  /\ exists w1,
       handleTrampoline Demo.host 3
         (Trampoline.mk (Some (2, true)) true 2 0x20100100) [7; 8] Demo.withWrappers
       = (w2 ← execute Demo.host 3 0x20100100 w1;
          Ok (Some (readReg UC_ARM_REG_R0 w2), w2))
       /\ readReg UC_ARM_REG_R0 w1 = 7
       /\ readReg UC_ARM_REG_R1 w1 = 8
       /\ readReg UC_ARM_REG_R2 w1 = 12.
Proof.
  set (Tr := Trampoline.mk (Some (2, true)) true 2 0x20100100).
  assert (HArgC : 0 <= Trampoline.ArgC Tr) by (simpl; lia).
  assert (Hargs : length [7; 8] = Z.to_nat (Trampoline.ArgC Tr)) by reflexivity.
  split; [split; assumption|].
  destruct (trampoline_passes_arguments_in_registers Demo.host 3 Tr [7; 8]
              Demo.withWrappers HArgC Hargs) as (w1 & T1 & T2 & T3 & _).
  exists w1. split; [exact T1|].
  split; [exact (T2 0%nat 7 eq_refl)|].
  split; [exact (T2 1%nat 8 eq_refl)|].
  rewrite (T3 UC_ARM_REG_R2) by (right; vm_compute; discriminate).
  vm_compute. reflexivity.
Defined.

(** X26 on a call back into the dylib with the wrappers, with 1 and 2. *)
Lemma callBack_witness :
  (lookup 0x20100100 Demo.withWrappers
   = Some (Path (resolvePath Demo.wrappersPath), 0%nat)
   /\ store Demo.withWrappers !! 0%nat
      = Some (mkLib 0x20100000 0x1000 false (LoadedDylib Demo.binWrappers)))
  /\ exists w1,
       callBack Demo.host 3 0x20100100 [1; 2] Demo.withWrappers
       = Some (execute Demo.host 3 0x20100100 w1)
       /\ readReg UC_ARM_REG_R0 w1 = 1
       /\ readReg UC_ARM_REG_R1 w1 = 2
       /\ sameButRegs Demo.withWrappers w1.
Proof.
  assert (Hlookup : lookup 0x20100100 Demo.withWrappers
                    = Some (Path (resolvePath Demo.wrappersPath), 0%nat))
    by (vm_compute; reflexivity).
  assert (Hrec : store Demo.withWrappers !! 0%nat
                 = Some (mkLib 0x20100000 0x1000 false (LoadedDylib Demo.binWrappers)))
    by (vm_compute; reflexivity).
  split; [split; assumption|].
  destruct (callBack_enters_emulation_with_arguments Demo.host 3 0x20100100 [1; 2]
              Demo.withWrappers _ 0%nat _ Hlookup Hrec eq_refl)
    as (w1 & T1 & T2 & _ & T4).
  exists w1. split; [exact T1|].
  split; [exact (T2 0%nat 1 eq_refl)|].
  split; [exact (T2 1%nat 2 eq_refl) | exact T4].
Defined.

(** X27 on a call back to native code: the native function returns 0, the
    caller gets the 10 that is in the guest's R0. *)
Lemma callBackR_witness :
  ((length [1; 2] <= 4)%nat
   /\ lookup 0x10002000 Demo.start = None
   /\ (hostCall Demo.host 0x10002000 [1; 2] Demo.start).1 = 0)
  /\ callBackR Demo.host 3 0x10002000 [1; 2] Demo.start = Some (Ok (10, Demo.start)).
Proof.
  assert (Hargs : (length [1; 2] <= 4)%nat) by (simpl; lia).
  assert (Hlookup : lookup 0x10002000 Demo.start = None)
    by (vm_compute; reflexivity).
  split; [exact (conj Hargs (conj Hlookup eq_refl))|].
  refine (callBackR_of_native_code_returns_guest_R0 Demo.host 3 0x10002000 [1; 2]
            Demo.start Hargs _).
  rewrite Hlookup. exact I.
Defined.

(** X28 on the dylib with the wrappers, on a host without [libdyld.dll]. *)
Lemma executeLibrary_witness :
  (store Fixtures.withWrappers !! 0%nat
   = Some (mkLib 0x20100000 0x1000 false (LoadedDylib Demo.binWrappers))
   /\ LIs Fixtures.withWrappers !! "libdyld.dll" = None
   /\ files Fixtures.host !! "libdyld.dll" = None)
  /\ executeLibrary Fixtures.host Fixtures.ffi 1 (Some 0%nat) Fixtures.withWrappers
     = Fault.
Proof.
  assert (Hrec : store Fixtures.withWrappers !! 0%nat
                 = Some (mkLib 0x20100000 0x1000 false (LoadedDylib Demo.binWrappers)))
    by (vm_compute; reflexivity).
  assert (Hnew : LIs Fixtures.withWrappers !! "libdyld.dll" = None)
    by (vm_compute; reflexivity).
  assert (Hfile : files Fixtures.host !! "libdyld.dll" = None)
    by (vm_compute; reflexivity).
  assert (Hbad : match files Fixtures.host !! "libdyld.dll" with
                 | Some (MachOFile _) | Some PEFile => False
                 | _ => True
                 end) by (rewrite Hfile; exact I).
  split; [exact (conj Hrec (conj Hnew Hfile))|].
  exact (executeLibrary_faults_without_the_runtime Fixtures.host Fixtures.ffi 0
           0%nat _ Fixtures.withWrappers Hrec eq_refl Hnew (or_intror Hbad)).
Defined.
